(** * Telegram D&D bot: game engine of [src/bot.py]

    A shallow embedding of the data classes, the [Database] repository, the
    fallback of [AIGenerator.calculate_damage], the four [GameEngine]
    operations and the chat handlers, followed by their properties.

    Conventions of the embedding.
    - A Python [str] is a list of Unicode code points ([str] below); the
      literals of the source are written as UTF-8 strings and decoded.
    - A Python [int] is a [Z]; [//] on a positive divisor is [Z.div].
    - A Python [float] is a binary64 primitive float; [int -> float] is the
      correctly rounded conversion and [int(float)] truncates toward zero.
    - The tables [characters], [inventory] and [active_battles] are the three
      components of [DB], each a list of rows; a row of [characters] carries
      its key in its [user_id] column.
    - The replies of the text generator are inputs of the operations: the
      engine is deterministic once the reply of its single call is fixed.
    - Python exceptions are the [Raise] outcomes of a state and error monad. *)

From Stdlib Require Import ZArith NArith List String Ascii Bool Lia.
From Stdlib Require Import PrimFloat FloatOps SpecFloat FloatAxioms.
Import ListNotations.
Open Scope Z_scope.

(* ===================================================================== *)
(** ** Text *)

Definition codepoint := N.
Definition str := list codepoint.

(** Decoder for the UTF-8 literals of this file (1 to 4 byte sequences). *)
Fixpoint utf8_decode (bs : list N) : str :=
  match bs with
  | [] => []
  | b :: r =>
      if (b <? 128)%N then b :: utf8_decode r
      else if (b <? 224)%N then
        match r with
        | b2 :: r' => ((b - 192) * 64 + (b2 - 128))%N :: utf8_decode r'
        | _ => []
        end
      else if (b <? 240)%N then
        match r with
        | b2 :: b3 :: r' =>
            ((b - 224) * 4096 + (b2 - 128) * 64 + (b3 - 128))%N :: utf8_decode r'
        | _ => []
        end
      else
        match r with
        | b2 :: b3 :: b4 :: r' =>
            ((b - 240) * 262144 + (b2 - 128) * 4096 + (b3 - 128) * 64 + (b4 - 128))%N
              :: utf8_decode r'
        | _ => []
        end
  end.

Definition utf8 (s : string) : str :=
  utf8_decode (map N_of_ascii (list_ascii_of_string s)).

(** [needle in hay] for Python strings: substring test. *)
Fixpoint startswith (needle hay : str) : bool :=
  match needle, hay with
  | [], _ => true
  | _ :: _, [] => false
  | a :: n', b :: h' => (a =? b)%N && startswith n' h'
  end.

Fixpoint contains (needle hay : str) : bool :=
  startswith needle hay ||
  match hay with
  | [] => false
  | _ :: h' => contains needle h'
  end.

(** The Unicode character database behind [str.lower], [str.strip], [int]
    and the classes [\s], [\d], [\w] of [re]: it belongs to the Python
    runtime, not to the program, and is a parameter of the embedding. *)
Record Unicode : Type := {
  lower : str -> str;               (* str.lower() *)
  isspace : codepoint -> bool;      (* \s and the characters strip() removes *)
  isdecimal : codepoint -> bool;    (* \d *)
  decimal : codepoint -> Z;         (* value of a decimal digit, as int() reads it *)
  isalnum : codepoint -> bool       (* \w is isalnum or '_' *)
}.

(* ===================================================================== *)
(** ** Regular expressions

    The patterns of the program are sequences of one-character classes, each
    taken once or under a greedy [*] or [+], some of them capturing.  The
    matcher is the backtracking one of [re]: a greedy repetition takes the
    longest run first and gives characters back one at a time. *)

Inductive quant := Once | Star | Plus.

Record atom := Atom { cls : codepoint -> bool; rep : quant; capture : bool }.

Definition regex := list atom.

Section Matcher.
Context {R : Type}.

  (** [greedy p k taken s]: extend [taken] (kept reversed) with the longest
      run of [p]-characters of [s], then try the continuation [k]; on
      failure retry with one character less. *)
Fixpoint greedy (p : codepoint -> bool) (k : str -> str -> option R)
           (taken : str) (s : str) : option R :=
    match s with
    | c :: s' =>
        if p c then
          match greedy p k (c :: taken) s' with
          | Some r => Some r
          | None => k (rev taken) s
          end
        else k (rev taken) s
    | [] => k (rev taken) s
    end.
End Matcher.

(** [match_here re s]: the groups of the first (in backtracking order) match
    of [re] that starts at the head of [s]. *)
Fixpoint match_here (re : regex) (s : str) : option (list str) :=
  match re with
  | [] => Some []
  | a :: re' =>
      let k (m rest : str) : option (list str) :=
        match match_here re' rest with
        | Some groups => Some (if capture a then m :: groups else groups)
        | None => None
        end in
      match rep a with
      | Once =>
          match s with
          | c :: s' => if cls a c then k [c] s' else None
          | [] => None
          end
      | Star => greedy (cls a) k [] s
      | Plus =>
          greedy (cls a)
                 (fun m rest => match m with [] => None | _ :: _ => k m rest end)
                 [] s
      end
  end.

(** [re.search]: leftmost start position, including the end of the text. *)
Fixpoint re_search (re : regex) (s : str) : option (list str) :=
  match match_here re s with
  | Some groups => Some groups
  | None =>
      match s with
      | [] => None
      | _ :: s' => re_search re s'
      end
  end.

(** [match.group(i)], [i >= 1]. *)
Definition group (i : nat) (groups : list str) : str := nth (i - 1) groups [].

Definition lit (s : str) : regex := map (fun c => Atom (N.eqb c) Once false) s.

Definition pipe : codepoint := 124%N.
Definition newline : codepoint := 10%N.
Definition underscore : codepoint := 95%N.

(* ===================================================================== *)
(** ** Floats: the arithmetic of [int(base * 1.5 - armor * 0.3)] *)

Inductive exn := AttributeError | KeyError | OverflowError | ValueError.

Inductive outcome (A : Type) : Type :=
| Return (a : A)
| Raise (e : exn).
Arguments Return {A} a.
Arguments Raise {A} e.

Definition obind {A B} (m : outcome A) (k : A -> outcome B) : outcome B :=
  match m with
  | Return a => k a
  | Raise e => Raise e
  end.

(** [float(n)] for a Python int: round to nearest even, [OverflowError]
    when the result is not finite. *)
Definition float_of_int (n : Z) : outcome float :=
  let f := SF2Prim (binary_normalize prec emax n 0 false) in
  if PrimFloat.is_infinity f then Raise OverflowError else Return f.

(** [int(f)]: truncation toward zero; [OverflowError] on an infinity,
    [ValueError] on a NaN. *)
Definition int_of_float (f : float) : outcome Z :=
  match Prim2SF f with
  | S754_zero _ => Return 0
  | S754_finite s m e =>
      let a := if 0 <=? e then Z.pos m * 2 ^ e else Z.pos m / 2 ^ (- e) in
      Return (if s then - a else a)
  | S754_infinity _ => Raise OverflowError
  | S754_nan => Raise ValueError
  end.

(** The literal [0.3]: the binary64 number nearest to 3/10. *)
Definition three_tenths : float := 0x1.3333333333333p-2%float.
Definition one_and_half : float := 1.5%float.

(* ===================================================================== *)
(** ** Data classes *)

Module Character.
Record t := mk {
    user_id : Z;
    name : str;
    level : Z;
    hp : Z;
    max_hp : Z;
    armor : Z;
    strength : Z;
    agility : Z;
    intelligence : Z;
    experience : Z;
    gold : Z;
    current_location : str;
    location_state : str;
    equipped_weapon : str;
    equipped_armor : str
  }.

  (** The fields the engine assigns to; every other field is copied. *)
Definition assign (c : t) (level' hp' max_hp' strength' agility' experience' gold' : Z) : t :=
    mk (user_id c) (name c) level' hp' max_hp' (armor c) strength' agility'
       (intelligence c) experience' gold' (current_location c) (location_state c)
       (equipped_weapon c) (equipped_armor c).

Definition set_level (v : Z) (c : t) : t :=
    assign c v (hp c) (max_hp c) (strength c) (agility c) (experience c) (gold c).
Definition set_hp (v : Z) (c : t) : t :=
    assign c (level c) v (max_hp c) (strength c) (agility c) (experience c) (gold c).
Definition set_max_hp (v : Z) (c : t) : t :=
    assign c (level c) (hp c) v (strength c) (agility c) (experience c) (gold c).
Definition set_strength (v : Z) (c : t) : t :=
    assign c (level c) (hp c) (max_hp c) v (agility c) (experience c) (gold c).
Definition set_agility (v : Z) (c : t) : t :=
    assign c (level c) (hp c) (max_hp c) (strength c) v (experience c) (gold c).
Definition set_experience (v : Z) (c : t) : t :=
    assign c (level c) (hp c) (max_hp c) (strength c) (agility c) v (gold c).
Definition set_gold (v : Z) (c : t) : t :=
    assign c (level c) (hp c) (max_hp c) (strength c) (agility c) (experience c) v.

  (** [Character(user_id=..., name=...)]: the defaults of the data class. *)
Definition default (uid : Z) (nm : str) : t :=
    mk uid nm 1 100 100 5 10 10 10 0 50
       (utf8 "Начальная деревня") [] [] [].
End Character.

Module Item.
Record t := mk {
    name : str;
    type : str;
    damage : Z;
    armor_bonus : Z;
    heal : Z;
    description : str;
    item_id : str
  }.
End Item.

Module Enemy.
Record t := mk {
    name : str;
    hp : Z;
    max_hp : Z;
    armor : Z;
    damage : Z;
    experience_reward : Z;
    gold_reward : Z
  }.

Definition set_hp (v : Z) (e : t) : t :=
    mk (name e) v (max_hp e) (armor e) (damage e) (experience_reward e) (gold_reward e).
End Enemy.

(* ===================================================================== *)
(** ** Database *)

Record DB := mkDB {
  characters : list Character.t;            (* PRIMARY KEY user_id *)
  inventory : list (Z * Item.t);            (* rows (user_id, item_data) *)
  active_battles : list (Z * Enemy.t)       (* PRIMARY KEY user_id; rows (user_id, enemy_data) *)
}.

Definition empty_db : DB := mkDB [] [] [].

(** State and error monad of the engine: an operation runs on the database
    and either returns or raises; what it committed before raising stays. *)
Definition M (A : Type) : Type := DB -> outcome A * DB.

Definition ret {A} (a : A) : M A := fun db => (Return a, db).
Definition raise {A} (e : exn) : M A := fun db => (Raise e, db).
Definition bind {A B} (m : M A) (k : A -> M B) : M B :=
  fun db =>
    match m db with
    | (Return a, db') => k a db'
    | (Raise e, db') => (Raise e, db')
    end.
Definition lift {A} (o : outcome A) : M A := fun db => (o, db).

Declare Scope engine_scope.
Delimit Scope engine_scope with engine.
Notation "x <- m ;; k" := (bind m (fun x => k))
  (at level 100, m at next level, right associativity) : engine_scope.
Notation "m ;; k" := (bind m (fun _ => k))
  (at level 100, right associativity) : engine_scope.
Notation "x <~ m ;; k" := (obind m (fun x => k))
  (at level 100, m at next level, right associativity) : engine_scope.
Open Scope engine_scope.

(** Attribute access on an [Optional] value: [AttributeError] on [None]. *)
Definition deref {A} (o : option A) : outcome A :=
  match o with
  | Some a => Return a
  | None => Raise AttributeError
  end.

(** [d[key]] on a dict whose key may be absent. *)
Definition getitem {A} (o : option A) : outcome A :=
  match o with
  | Some a => Return a
  | None => Raise KeyError
  end.

Module Database.

Section Table.
Context {Row : Type} (key : Row -> Z).

(** [INSERT ... ON CONFLICT (user_id) DO UPDATE SET ...]: the row that holds
    the key is replaced by the new one, a row with a new key is inserted. *)
Fixpoint upsert (r : Row) (rows : list Row) : list Row :=
  match rows with
  | [] => [r]
  | r' :: rows' => if key r' =? key r then r :: rows' else r' :: upsert r rows'
  end.

(** [SELECT ... WHERE user_id = k] followed by [fetchone]. *)
Fixpoint fetchone (k : Z) (rows : list Row) : option Row :=
  match rows with
  | [] => None
  | r :: rows' => if key r =? k then Some r else fetchone k rows'
  end.

(** [SELECT ... WHERE user_id = k] followed by [fetchall]. *)
Fixpoint fetchall (k : Z) (rows : list Row) : list Row :=
  match rows with
  | [] => []
  | r :: rows' => if key r =? k then r :: fetchall k rows' else fetchall k rows'
  end.

(** [DELETE ... WHERE user_id = k]. *)
Fixpoint delete_where (k : Z) (rows : list Row) : list Row :=
  match rows with
  | [] => []
  | r :: rows' => if key r =? k then delete_where k rows' else r :: delete_where k rows'
  end.

End Table.

(** Lines 113-136: the upsert of a row of [characters].  The row is taken
    to fit its columns ([storable] below); on a number outside its INTEGER
    column or a text with NUL the database raises and stores nothing. *)
Definition save_character (char : Character.t) : M unit :=
  fun db =>
    (Return tt,
     mkDB (upsert Character.user_id char (characters db))
          (inventory db) (active_battles db)).

(** The row of a player in [characters], if any. *)
Definition character_of (db : DB) (user_id : Z) : option Character.t :=
  fetchone Character.user_id user_id (characters db).

(** The enemy of the row of a player in [active_battles], if any. *)
Definition battle_of (db : DB) (user_id : Z) : option Enemy.t :=
  option_map snd (fetchone fst user_id (active_battles db)).

Definition get_character (user_id : Z) : M (option Character.t) :=
  fun db => (Return (character_of db user_id), db).

(** Lines 147-152: a new row of [inventory].  The player is taken to have
    a character row: the foreign key of the table refuses the insert
    otherwise.  The engine adds items to stored characters only. *)
Definition add_item (user_id : Z) (item : Item.t) : M unit :=
  fun db =>
    (Return tt,
     mkDB (characters db) (inventory db ++ [(user_id, item)]) (active_battles db)).

Definition get_inventory (user_id : Z) : M (list Item.t) :=
  fun db => (Return (map snd (fetchall fst user_id (inventory db))), db).

(** Lines 161-168: the upsert of a row of [active_battles], under the same
    foreign key as [inventory]. *)
Definition save_battle (user_id : Z) (enemy : Enemy.t) : M unit :=
  fun db =>
    (Return tt,
     mkDB (characters db) (inventory db)
          (upsert fst (user_id, enemy) (active_battles db))).

Definition get_battle (user_id : Z) : M (option Enemy.t) :=
  fun db => (Return (battle_of db user_id), db).

Definition clear_battle (user_id : Z) : M unit :=
  fun db =>
    (Return tt,
     mkDB (characters db) (inventory db) (delete_where fst user_id (active_battles db))).

End Database.

(* ===================================================================== *)
(** ** AIGenerator

    [generate] is the external call.  What the engine does with its reply
    starts at [re.search(r'\{[^}]+\}', response)] and [json.loads]: the
    reply is modelled by the outcome of these two steps. *)

Inductive Reply (A : Type) : Type :=
| NoObject            (* no brace-delimited object in the reply; this is also
                         the case of the error texts [generate] returns *)
| Undecodable         (* [json.loads] raised on the object *)
| Decoded (a : A).    (* the decoded object *)
Arguments NoObject {A}.
Arguments Undecodable {A}.
Arguments Decoded {A} a.

(** The dict of an attack judgement, reduced to the keys the engine reads;
    a key of the decoded object may be absent.  A value that is present has
    the JSON type the prompt asks for: an integer under [damage], a boolean
    under [critical], a string under [description]; objects with values of
    other types are outside this model. *)
Module Judgement.
Record t := mk {
    damage : option Z;
    critical : option bool;
    description : option str
  }.
End Judgement.

(** The decoded enemy object, read with [.get(key, default)]; as for the
    judgement, a value that is present has the type the prompt asks for. *)
Module EnemyJson.
Record t := mk {
    name : option str;
    hp : option Z;
    armor : option Z;
    damage : option Z;
    description : option str
  }.
End EnemyJson.

(** The dict that [generate_enemy] returns. *)
Module EnemyData.
Record t := mk {
    name : str;
    hp : Z;
    armor : Z;
    damage : Z;
    description : str
  }.
End EnemyData.

Definition get {A} (o : option A) (default : A) : A :=
  match o with
  | Some a => a
  | None => default
  end.

Module AIGenerator.
Section WithUnicode.
Context (U : Unicode).

Definition generate_enemy (level : Z) (location : str) (reply : Reply EnemyJson.t)
    : EnemyData.t :=
    match reply with
    | Decoded enemy_data =>
        EnemyData.mk
          (get (EnemyJson.name enemy_data) (utf8 "Неизвестный враг"))
          (get (EnemyJson.hp enemy_data) 50)
          (get (EnemyJson.armor enemy_data) 5)
          (get (EnemyJson.damage enemy_data) 10)
          (get (EnemyJson.description enemy_data) [])
    | _ =>
        EnemyData.mk (utf8 "Дикий волк") (50 + level * 20) (level * 3) (5 + level * 3)
                     (utf8 "Агрессивный хищник")
    end.

  (** [int(base_damage * (1.5 if critical else 1) - enemy.armor * 0.3)]. *)
Definition fallback_damage (base_damage : Z) (critical : bool) (armor : Z) : outcome Z :=
    scaled <~ (if critical
               then (b <~ float_of_int base_damage ;; Return (PrimFloat.mul b one_and_half))
               else float_of_int base_damage) ;;
    a <~ float_of_int armor ;;
    int_of_float (PrimFloat.sub scaled (PrimFloat.mul a three_tenths)).

  (** ["крит" in action.lower() or "точно" in action.lower()]. *)
Definition is_critical (action : str) : bool :=
    contains (utf8 "крит") (lower U action) || contains (utf8 "точно") (lower U action).

Definition calculate_damage (action : str) (char : Character.t) (enemy : Enemy.t)
             (reply : Reply Judgement.t) : outcome Judgement.t :=
    match reply with
    | Decoded judgement => Return judgement
    | _ =>
        let base_damage := Character.strength char + Character.agility char / 2 in
        let critical := is_critical action in
        damage <~ fallback_damage base_damage critical (Enemy.armor enemy) ;;
        Return (Judgement.mk (Some (Z.max 1 damage)) (Some critical)
                             (Some (utf8 "Удар достигает цели!")))
    end.

End WithUnicode.
End AIGenerator.

(* ===================================================================== *)
(** ** GameEngine *)

(** The [purchase] entry of the dict returned by [process_action]. *)
Module PurchaseInfo.
Record t := mk {
  success : bool;
  item : str;
  price : Z;
  gold_left : option Z;       (* present when [success] *)
  gold_needed : option Z      (* present when not [success] *)
}.
End PurchaseInfo.

Module ActionResult.
Record t := mk {
  text : str;
  has_enemy : bool;
  purchase : option PurchaseInfo.t
}.
End ActionResult.

(** The dict returned by [process_attack]; the keys that are set only on
    some paths are options, the flags set to [True] on some paths are
    booleans that are false when the key is absent. *)
Module AttackReport.
Record t := mk {
  player_damage : Z;
  attack_description : str;
  critical : bool;
  enemy_defeated : bool;
  level_up : bool;
  rewards : option (Z * Z);       (* (exp, gold) *)
  enemy_damage : option Z;
  enemy_hp : option Z;
  player_defeated : bool
}.
End AttackReport.

Inductive AttackResult :=
| Error (message : str)             (* {"error": message} *)
| Report (r : AttackReport.t).

Module GameEngine.
Section WithUnicode.
Context (U : Unicode).

(** [s.strip()]. *)
Fixpoint lstrip (s : str) : str :=
  match s with
  | c :: s' => if isspace U c then lstrip s' else s
  | [] => []
  end.

Definition strip (s : str) : str := rev (lstrip (rev (lstrip s))).

(** [int(s)] on a run of decimal digits, whatever its length: the limit of
    CPython on the digits of an integer string (4300 by default, beyond
    which [int] raises [ValueError]) is not modelled. *)
Definition int (s : str) : Z := fold_left (fun acc c => 10 * acc + decimal U c) s 0.

Definition space_star : atom := Atom (isspace U) Star false.
Definition bar : atom := Atom (N.eqb pipe) Once false.
Definition isword (c : codepoint) : bool := isalnum U c || (c =? underscore)%N.

(** [r'ПОКУПКА:\s*([^|]+)\|\s*(\d+)\|\s*(\w+)\|\s*(.+)']. *)
Definition purchase_re : regex :=
  lit (utf8 "ПОКУПКА:")
  ++ [ space_star; Atom (fun c => negb (c =? pipe)%N) Plus true; bar;
       space_star; Atom (isdecimal U) Plus true; bar;
       space_star; Atom isword Plus true; bar;
       space_star; Atom (fun c => negb (c =? newline)%N) Plus true ].

(** [r'(\d+)']. *)
Definition digits_re : regex := [ Atom (isdecimal U) Plus true ].

(** One of the three blocks of lines 378-391: when a keyword of the family
    occurs in [stats.lower()], the field is the first integer of [stats],
    if there is one; otherwise it keeps its initial 0. *)
Definition stat_field (keyword_found : bool) (stats : str) : Z :=
  if keyword_found then
    match re_search digits_re stats with
    | Some m => int (group 1 m)
    | None => 0
    end
  else 0.

Definition damage_words (stats : str) : bool :=
  contains (utf8 "урон") (lower U stats) || contains (utf8 "damage") (lower U stats).
Definition armor_words (stats : str) : bool :=
  contains (utf8 "броня") (lower U stats) || contains (utf8 "armor") (lower U stats).
Definition heal_words (stats : str) : bool :=
  contains (utf8 "лечение") (lower U stats) || contains (utf8 "heal") (lower U stats)
  || contains (utf8 "hp") (lower U stats).

(** Lines 374-400: the item built from the groups of the purchase line. *)
Definition new_item (item_name item_type stats : str) : Item.t :=
  let damage := stat_field (damage_words stats) stats in
  let armor_bonus := stat_field (armor_words stats) stats in
  let heal := stat_field (heal_words stats) stats in
  Item.mk item_name item_type damage armor_bonus heal stats [].

Definition create_character (user_id : Z) (name : str) : M Character.t :=
  let char := Character.default user_id name in
  Database.save_character char ;;
  Database.add_item user_id
    (Item.mk (utf8 "Ржавый меч") (utf8 "weapon") 5 0 0 (utf8 "Старый меч") []) ;;
  Database.add_item user_id
    (Item.mk (utf8 "Кожаная броня") (utf8 "armor") 0 3 0 (utf8 "Простая броня") []) ;;
  Database.add_item user_id
    (Item.mk (utf8 "Зелье лечения") (utf8 "potion") 0 0 30
             (utf8 "Восстанавливает 30 HP") []) ;;
  ret char.

(** ["ВРАГ:" in result_text or ("враг" in result_text.lower() and any(...))]. *)
Definition detect_enemy (result_text : str) : bool :=
  contains (utf8 "ВРАГ:") result_text
  || (contains (utf8 "враг") (lower U result_text)
      && existsb (fun word => contains word (lower U result_text))
                 [utf8 "нападает"; utf8 "атакует"; utf8 "бросается"; utf8 "выскакивает"]).

(** [result_text] is the reply of [self.ai.generate(prompt, 400)]; the
    prompt reads [char.current_location], which raises on a missing
    character. *)
Definition process_action (user_id : Z) (action : str) (result_text : str)
  : M ActionResult.t :=
  char <- Database.get_character user_id ;;
  char <- lift (deref char) ;;
  let purchase_match := re_search purchase_re result_text in
  purchase_info <-
    match purchase_match with
    | Some m =>
        let item_name := strip (group 1 m) in
        let price := int (group 2 m) in
        let item_type := strip (group 3 m) in
        let stats := strip (group 4 m) in
        if price <=? Character.gold char then
          let char := Character.set_gold (Character.gold char - price) char in
          Database.add_item user_id (new_item item_name item_type stats) ;;
          Database.save_character char ;;
          ret (Some (PurchaseInfo.mk true item_name price
                                     (Some (Character.gold char)) None))
        else
          ret (Some (PurchaseInfo.mk false item_name price None
                                     (Some (price - Character.gold char))))
    | None => ret None
    end ;;
  ret (ActionResult.mk result_text (detect_enemy result_text) purchase_info).

(** [reply] is the reply to the prompt of [generate_enemy]. *)
Definition start_battle (user_id : Z) (reply : Reply EnemyJson.t)
  : M (Character.t * Enemy.t) :=
  char <- Database.get_character user_id ;;
  char <- lift (deref char) ;;
  let enemy_data :=
    AIGenerator.generate_enemy (Character.level char) (Character.current_location char)
                               reply in
  let enemy :=
    Enemy.mk (EnemyData.name enemy_data)
             (EnemyData.hp enemy_data)
             (EnemyData.hp enemy_data)
             (EnemyData.armor enemy_data)
             (EnemyData.damage enemy_data)
             (20 * Character.level char)
             (10 * Character.level char) in
  Database.save_battle user_id enemy ;;
  ret (char, enemy).

(** Lines 462-481: the enemy is down. *)
Definition victory (user_id : Z) (char : Character.t) (enemy : Enemy.t)
           (result : AttackReport.t) : M AttackResult :=
  let char :=
    Character.set_experience (Character.experience char + Enemy.experience_reward enemy)
                             char in
  let char := Character.set_gold (Character.gold char + Enemy.gold_reward enemy) char in
  let exp_needed := Character.level char * 100 in
  let leveled := exp_needed <=? Character.experience char in
  let char :=
    if leveled then
      let char := Character.set_level (Character.level char + 1) char in
      let char := Character.set_max_hp (Character.max_hp char + 20) char in
      let char := Character.set_hp (Character.max_hp char) char in
      let char := Character.set_strength (Character.strength char + 2) char in
      Character.set_agility (Character.agility char + 2) char
    else char in
  Database.save_character char ;;
  Database.clear_battle user_id ;;
  ret (Report
         (AttackReport.mk
            (AttackReport.player_damage result)
            (AttackReport.attack_description result)
            (AttackReport.critical result)
            (AttackReport.enemy_defeated result)
            leveled
            (Some (Enemy.experience_reward enemy, Enemy.gold_reward enemy))
            None None false)).

(** Lines 483-497: the enemy stands and strikes back. *)
Definition counterattack (user_id : Z) (char : Character.t) (enemy : Enemy.t)
           (result : AttackReport.t) : M AttackResult :=
  let enemy_damage := Z.max 1 (Enemy.damage enemy - Character.armor char) in
  let char := Character.set_hp (Character.hp char - enemy_damage) char in
  let defeated := Character.hp char <=? 0 in
  char <-
    (if defeated then
       let char := Character.set_hp (Character.max_hp char / 2) char in
       let char := Character.set_gold (Z.max 0 (Character.gold char - 20)) char in
       Database.clear_battle user_id ;;
       ret char
     else
       Database.save_battle user_id enemy ;;
       ret char) ;;
  Database.save_character char ;;
  ret (Report
         (AttackReport.mk
            (AttackReport.player_damage result)
            (AttackReport.attack_description result)
            (AttackReport.critical result)
            (AttackReport.enemy_defeated result)
            false None
            (Some enemy_damage)
            (Some (Enemy.hp enemy))
            defeated)).

(** [reply] is the reply to the prompt of [calculate_damage]. *)
Definition process_attack (user_id : Z) (action : str) (reply : Reply Judgement.t)
  : M AttackResult :=
  char <- Database.get_character user_id ;;
  enemy <- Database.get_battle user_id ;;
  match enemy with
  | None => ret (Error (utf8 "Нет активного боя"))
  | Some enemy =>
      char <- lift (deref char) ;;
      attack_result <- lift (AIGenerator.calculate_damage U action char enemy reply) ;;
      damage <- lift (getitem (Judgement.damage attack_result)) ;;
      let enemy := Enemy.set_hp (Enemy.hp enemy - damage) enemy in
      attack_description <- lift (getitem (Judgement.description attack_result)) ;;
      let result :=
        AttackReport.mk damage attack_description
                        (get (Judgement.critical attack_result) false)
                        (Enemy.hp enemy <=? 0)
                        false None None None false in
      if Enemy.hp enemy <=? 0
      then victory user_id char enemy result
      else counterattack user_id char enemy result
  end.

End WithUnicode.
End GameEngine.

(* ===================================================================== *)
(** ** A Unicode table for running the engine

    The case and letter tables of CPython restricted to ASCII and to the
    Cyrillic block, the two scripts of the texts of this program; the
    whitespace set and the decimal digits (category Nd of Unicode 14.0, the
    digits [\d] matches and [int] reads) are the complete ones.  The
    general theorems below hold for every table; this one serves the
    concrete runs. *)

Module Basic.

Definition in_range (lo hi c : N) : bool := ((lo <=? c) && (c <=? hi))%N.

Definition lower_cp (c : codepoint) : codepoint :=
  if in_range 65 90 c then (c + 32)%N            (* A-Z *)
  else if in_range 1040 1071 c then (c + 32)%N   (* U+0410-U+042F *)
  else if in_range 1024 1039 c then (c + 80)%N   (* U+0400-U+040F *)
  else c.

Definition isspace_cp (c : codepoint) : bool :=
  in_range 9 13 c || in_range 28 32 c || (c =? 133)%N || (c =? 160)%N
  || (c =? 5760)%N || in_range 8192 8202 c || in_range 8232 8233 c
  || (c =? 8239)%N || (c =? 8287)%N || (c =? 12288)%N.

(** The code points of the digit zero of every script: each is followed
    by the digits one to nine of its script. *)
Definition digit_zeros : list codepoint :=
  [48; 1632; 1776; 1984; 2406; 2534; 2662; 2790; 2918; 3046; 3174; 3302;
   3430; 3558; 3664; 3792; 3872; 4160; 4240; 6112; 6160; 6470; 6608; 6784;
   6800; 6992; 7088; 7232; 7248; 42528; 43216; 43264; 43472; 43504; 43600;
   44016; 65296; 66720; 68912; 69734; 69872; 69942; 70096; 70384; 70736;
   70864; 71248; 71360; 71472; 71904; 72016; 72784; 73040; 73120; 92768;
   92864; 93008; 120782; 120792; 120802; 120812; 120822; 123200; 123632;
   125264; 130032]%N.

Definition digit_zero (c : codepoint) : option codepoint :=
  find (fun zero => in_range zero (zero + 9) c) digit_zeros.

Definition isdecimal_cp (c : codepoint) : bool :=
  match digit_zero c with Some _ => true | None => false end.

Definition decimal_cp (c : codepoint) : Z :=
  match digit_zero c with Some zero => Z.of_N c - Z.of_N zero | None => 0 end.

Definition isalnum_cp (c : codepoint) : bool :=
  isdecimal_cp c || in_range 65 90 c || in_range 97 122 c
  || in_range 1024 1153 c || in_range 1162 1327 c.

Definition table : Unicode :=
  {| lower := map lower_cp;
     isspace := isspace_cp;
     isdecimal := isdecimal_cp;
     decimal := decimal_cp;
     isalnum := isalnum_cp |}.

End Basic.

(* ===================================================================== *)
(** ** Invariants of the data model *)

(** The character invariant: [0 <= hp <= max_hp], [gold >= 0], [level >= 1]. *)
Definition character_ok (c : Character.t) : Prop :=
  0 <= Character.hp c <= Character.max_hp c /\
  0 <= Character.gold c /\
  1 <= Character.level c.

(** A stored enemy never takes gold away: its gold reward is not negative. *)
Definition enemy_ok (e : Enemy.t) : Prop := 0 <= Enemy.gold_reward e.

(** The invariant of the stored state: every character row satisfies the
    character invariant and every battle row holds a well-formed enemy. *)
Definition state_ok (db : DB) : Prop :=
  (forall c, In c (characters db) -> character_ok c) /\
  (forall row, In row (active_battles db) -> enemy_ok (snd row)).

(** What the columns of [create_tables] hold: [user_id] is a BIGINT, the
    nine numbers of a character are INTEGER columns, and a TEXT column holds
    a text without NUL that encodes as UTF-8 (no lone surrogate).  On any
    other row the database raises and stores nothing; [save_character]
    above is the code on the rows that fit. *)
Definition fits_bigint (z : Z) : bool :=
  (-9223372036854775808 <=? z) && (z <=? 9223372036854775807).

Definition fits_integer (z : Z) : bool :=
  (-2147483648 <=? z) && (z <=? 2147483647).

Definition fits_text (s : str) : bool :=
  forallb (fun c => (0 <? c)%N && negb ((55296 <=? c)%N && (c <=? 57343)%N)
                    && (c <=? 1114111)%N) s.

Definition storable (c : Character.t) : bool :=
  fits_bigint (Character.user_id c) && fits_text (Character.name c)
  && fits_integer (Character.level c) && fits_integer (Character.hp c)
  && fits_integer (Character.max_hp c) && fits_integer (Character.armor c)
  && fits_integer (Character.strength c) && fits_integer (Character.agility c)
  && fits_integer (Character.intelligence c) && fits_integer (Character.experience c)
  && fits_integer (Character.gold c) && fits_text (Character.current_location c)
  && fits_text (Character.location_state c) && fits_text (Character.equipped_weapon c)
  && fits_text (Character.equipped_armor c).

(** The first integer of a text, as [re.search(r'(\d+)', text)] and [int]
    find it. *)
Definition first_integer (U : Unicode) (text : str) : option Z :=
  match re_search (GameEngine.digits_re U) text with
  | Some m => Some (GameEngine.int U (group 1 m))
  | None => None
  end.

(** Somewhere in the text a decimal digit stands immediately before a bar. *)
Definition digit_before_bar (U : Unicode) (text : str) : Prop :=
  exists (pre : str) (d : codepoint) (post : str),
    text = pre ++ d :: pipe :: post /\ isdecimal U d = true.

(** At most one of three numbers is not zero. *)
Definition at_most_one_nonzero (x y z : Z) : Prop :=
  (x = 0 /\ y = 0) \/ (x = 0 /\ z = 0) \/ (y = 0 /\ z = 0).


(** The float operations of the fallback are followed on integers: a
    finite float [m * 2^e] is read as the integer [m * 2^(e + K)] for a
    scale [K] large enough, and rounding to 53 significant bits becomes a
    function on those integers. *)

(** [p / 2^k] rounded to the nearest integer, ties to even. *)
Definition round_even (p k : Z) : Z :=
  let q := p / 2 ^ k in
  match 2 * (p mod 2 ^ k) ?= 2 ^ k with
  | Lt => q
  | Eq => if Z.even q then q else q + 1
  | Gt => q + 1
  end.

(** A non-negative integer rounded to 53 significant bits. *)
Definition round53 (v : Z) : Z :=
  let k := Z.log2 v - 52 in
  if k <=? 0 then v else round_even v k * 2 ^ k.

(** The same for either sign. *)
Definition rounds (v : Z) : Z := Z.sgn v * round53 (Z.abs v).

(** The value of a float at scale [K]: [2^K] times what it denotes. *)
Definition scaled_value (K : Z) (f : spec_float) : Z :=
  match f with
  | S754_finite s m e => cond_Zopp s (Z.pos m * 2 ^ (e + K))
  | _ => 0
  end.

(** A zero, or a finite float with a full mantissa of 53 bits and an
    exponent between [lo] and [hi]. *)
Definition normal (lo hi : Z) (f : spec_float) : Prop :=
  (exists s, f = S754_zero s) \/
  exists s m e, f = S754_finite s m e /\ 2 ^ 52 <= Z.pos m < 2 ^ 53 /\ lo <= e <= hi.

(** The record of [shr] after [j] shifts of [p]: the quotient, the bit
    shifted out last and whether a bit shifted out before was set. *)
Definition shifted (p j : Z) : shr_record :=
  Build_shr_record (p / 2 ^ j)
                   (2 ^ j <=? 2 * (p mod 2 ^ j))
                   (negb (p mod 2 ^ j =? 0) && negb (2 * (p mod 2 ^ j) =? 2 ^ j)).

(** The mantissa of the literal [0.3], which is [M03 * 2^-54]; it is a
    little less than three tenths: [10 * M03 = 3 * 2^54 - 2]. *)
Definition M03 : Z := 5404319552844595.

(** The enemies stored for a player. *)
Definition enemies_of (db : DB) (user_id : Z) : list Enemy.t :=
  map snd (Database.fetchall fst user_id (active_battles db)).

Definition one_enemy_per_player (db : DB) : Prop :=
  forall user_id, (List.length (enemies_of db user_id) <= 1)%nat.

(* ===================================================================== *)
(** ** Sample data for the concrete runs *)

Module Sample.

Definition bob : Character.t := Character.default 7 (utf8 "Bob").

Definition wolf : Enemy.t := Enemy.mk (utf8 "Дикий волк") 70 70 3 8 20 10.

(** Bob with 90 experience points and 12 hit points left. *)
Definition veteran : Character.t :=
  Character.set_hp 12 (Character.set_experience 90 bob).

(** The veteran facing the wolf. *)
Definition arena : DB := mkDB [veteran] [] [(7, wolf)].

(** Bob after [create_character], with no battle. *)
Definition village : DB := snd (GameEngine.create_character 7 (utf8 "Bob") empty_db).

(** A generator reply that names an orc with 120 hit points. *)
Definition orc_reply : Reply EnemyJson.t :=
  Decoded (EnemyJson.mk (Some (utf8 "Orc")) (Some 120) None None None).

(** Bob with 60 and with 40 gold pieces. *)
Definition rich : DB := mkDB [Character.set_gold 60 bob] [] [].
Definition poor : DB := mkDB [Character.set_gold 40 bob] [] [].

(** A generator text with a purchase line the engine reads: no blank
    before the second and the third bar. *)
Definition offer : str :=
  utf8 "ПОКУПКА: Iron Sword | 50| weapon| damage 8".

(** The purchase line in the shape the prompt of [process_action] asks
    for, with a blank on both sides of every bar. *)
Definition spaced_offer : str :=
  utf8 "ПОКУПКА: Iron Sword | 30 | weapon | damage 8".

(** The same line without the blanks before the second and third bar. *)
Definition tight_offer : str :=
  utf8 "ПОКУПКА: Iron Sword | 30| weapon| damage 8".

(** A purchase line whose stats name two keyword families. *)
Definition two_stat_offer : str :=
  utf8 "ПОКУПКА: Spiked Shield | 30| armor| damage 8, armor 2".

(** A purchase line whose stats rule the damage out in words. *)
Definition potion_offer : str :=
  utf8 "ПОКУПКА: Healing Potion | 25| potion| лечение 25 hp, без урона".

Definition iron_sword : Item.t :=
  Item.mk (utf8 "Iron Sword") (utf8 "weapon") 8 0 0 (utf8 "damage 8") [].

(** An enemy with armor 5. *)
Definition guard : Enemy.t := Enemy.mk (utf8 "Guard") 50 50 5 10 20 10.

(** An action text without the keywords of a critical hit. *)
Definition plain_action : str := utf8 "бью мечом".

Definition hit (d : Z) : Reply Judgement.t :=
  Decoded (Judgement.mk (Some d) (Some false) (Some (utf8 "hit"))).

End Sample.

(* ===================================================================== *)
(** ** The chat handlers

    The handlers of the bot, reduced to what they do to the database and to
    [context.user_data]; the texts they send to the chat are not modelled,
    and each handler returns the values its reply is rendered from.  A
    failure while a reply is rendered (the hit-point bar of the enemy divides
    by its [max_hp]) comes after the last write of the handler and is not
    modelled either.  The replies of the generator a handler may ask for are
    its inputs. *)

(** [char.location_state = v]. *)
Definition set_location_state (v : str) (c : Character.t) : Character.t :=
  Character.mk (Character.user_id c) (Character.name c) (Character.level c)
               (Character.hp c) (Character.max_hp c) (Character.armor c)
               (Character.strength c) (Character.agility c) (Character.intelligence c)
               (Character.experience c) (Character.gold c)
               (Character.current_location c) v
               (Character.equipped_weapon c) (Character.equipped_armor c).

(** Truth value of a [str]: it is not empty. *)
Definition truthy (s : str) : bool :=
  match s with
  | [] => false
  | _ :: _ => true
  end.

(** What [handle_message] did with a message. *)
Inductive Handled :=
| Created (char : Character.t)                          (* the message was the name *)
| Attacked (result : AttackResult)                      (* a battle was active *)
| Acted (result : ActionResult.t)
        (battle : option (Character.t * Enemy.t))       (* an action in the scene *)
| Hinted.                                               (* "use /explore" *)

(** What [explore] and the [new_location] button did. *)
Inductive Explored :=
| NoCharacter                                           (* "create a character first" *)
| Scene (char : Character.t)                            (* the stored scene is shown *)
| Arrived (location_desc : str)
          (battle : option (Character.t * Enemy.t)).    (* a new scene was generated *)

(** The [callback_data] of a button. *)
Inductive Button := Inventory | Stats | BackToLocation | NewLocation | ExploreButton.

(** What [button_callback] shows. *)
Inductive Shown :=
| Items (char : Character.t) (items : list Item.t)
| Sheet (char : Character.t)
| Place (char : Character.t)
| Moved (result : Explored).

(** The replies of the generator that one call of [handle_message] may
    consume: the text for [process_action], the judgement for
    [calculate_damage] and the enemy for [generate_enemy]. *)
Record Replies := {
  action_reply : str;
  judge_reply : Reply Judgement.t;
  enemy_reply : Reply EnemyJson.t
}.

Module Bot.
Section WithUnicode.
Context (U : Unicode).

(** [start]: a known player is greeted, a new one is asked for a name.
    The result is the new value of [context.user_data['awaiting_name']]. *)
Definition start (user_id : Z) (awaiting_name : bool) : M bool :=
  char <- Database.get_character user_id ;;
  match char with
  | Some _ => ret awaiting_name
  | None => ret true
  end.

(** Lines 697-708 and 786-797: ["ВРАГ:" in location_desc] starts a battle. *)
Definition arrive (user_id : Z) (location_desc : str) (enemy : Reply EnemyJson.t)
  : M Explored :=
  if contains (utf8 "ВРАГ:") location_desc then
    pair <- GameEngine.start_battle user_id enemy ;;
    ret (Arrived location_desc (Some pair))
  else ret (Arrived location_desc None).

(** [handle_message]; the first component of the result is the new value
    of [context.user_data['awaiting_name']]. *)
Definition handle_message (user_id : Z) (text : str) (awaiting_name : bool)
           (replies : Replies) : M (bool * Handled) :=
  if awaiting_name then
    char <- GameEngine.create_character user_id text ;;
    ret (false, Created char)
  else
    battle <- Database.get_battle user_id ;;
    match battle with
    | Some _ =>
        result <- GameEngine.process_attack U user_id text (judge_reply replies) ;;
        ret (awaiting_name, Attacked result)
    | None =>
        char <- Database.get_character user_id ;;
        match char with
        | Some char =>
            if truthy (Character.location_state char) then
              action_result <-
                GameEngine.process_action U user_id text (action_reply replies) ;;
              let char := set_location_state (ActionResult.text action_result) char in
              Database.save_character char ;;
              if ActionResult.has_enemy action_result then
                pair <- GameEngine.start_battle user_id (enemy_reply replies) ;;
                ret (awaiting_name, Acted action_result (Some pair))
              else ret (awaiting_name, Acted action_result None)
            else ret (awaiting_name, Hinted)
        | None => ret (awaiting_name, Hinted)
        end
    end.

(** [explore]; [location_desc] is the reply of [generate_location]. *)
Definition explore (user_id : Z) (location_desc : str) (enemy : Reply EnemyJson.t)
  : M Explored :=
  char <- Database.get_character user_id ;;
  match char with
  | None => ret NoCharacter
  | Some char =>
      if truthy (Character.location_state char) then ret (Scene char)
      else
        let char := set_location_state location_desc char in
        Database.save_character char ;;
        arrive user_id location_desc enemy
  end.

(** [button_callback]. *)
Definition button_callback (user_id : Z) (data : Button) (location_desc : str)
           (enemy : Reply EnemyJson.t) : M Shown :=
  match data with
  | Inventory =>
      char <- Database.get_character user_id ;;
      items <- Database.get_inventory user_id ;;
      char <- lift (deref char) ;;
      ret (Items char items)
  | Stats =>
      char <- Database.get_character user_id ;;
      char <- lift (deref char) ;;
      ret (Sheet char)
  | BackToLocation | ExploreButton =>
      char <- Database.get_character user_id ;;
      char <- lift (deref char) ;;
      ret (Place char)
  | NewLocation =>
      char <- Database.get_character user_id ;;
      char <- lift (deref char) ;;
      let char := set_location_state [] char in
      Database.save_character char ;;
      let char := set_location_state location_desc char in
      Database.save_character char ;;
      result <- arrive user_id location_desc enemy ;;
      ret (Moved result)
  end.

End WithUnicode.
End Bot.

(* ===================================================================== *)
(** ** Repository writes *)

(** The items stored for a player, as [get_inventory] returns them. *)
Definition inventory_of (db : DB) (user_id : Z) : list Item.t :=
  map snd (Database.fetchall fst user_id (inventory db)).

(** One write of the repository on behalf of a player: a character row
    with the player's key, an item or a battle row of the player, or the
    removal of the player's battle row. *)
Inductive write (uid : Z) : DB -> DB -> Prop :=
| write_character (c : Character.t) (db : DB) :
    Character.user_id c = uid -> write uid db (snd (Database.save_character c db))
| write_item (item : Item.t) (db : DB) :
    write uid db (snd (Database.add_item uid item db))
| write_battle (e : Enemy.t) (db : DB) :
    write uid db (snd (Database.save_battle uid e db))
| write_clear (db : DB) :
    write uid db (snd (Database.clear_battle uid db)).

(** A sequence of writes on behalf of a player. *)
Inductive writes (uid : Z) : DB -> DB -> Prop :=
| writes_done (db : DB) : writes uid db db
| writes_step (db1 db2 db3 : DB) :
    write uid db1 db2 -> writes uid db2 db3 -> writes uid db1 db3.

(** What the database holds for a player. *)
Definition same_player (k : Z) (db db' : DB) : Prop :=
  Database.character_of db' k = Database.character_of db k /\
  Database.battle_of db' k = Database.battle_of db k /\
  inventory_of db' k = inventory_of db k.

(** At most one character row per player. *)
Definition one_character_per_player (db : DB) : Prop :=
  forall user_id,
    (List.length (Database.fetchall Character.user_id user_id (characters db)) <= 1)%nat.

(** The three starter items of [create_character]. *)
Definition starter_items : list Item.t :=
  [ Item.mk (utf8 "Ржавый меч") (utf8 "weapon") 5 0 0 (utf8 "Старый меч") [];
    Item.mk (utf8 "Кожаная броня") (utf8 "armor") 0 3 0 (utf8 "Простая броня") [];
    Item.mk (utf8 "Зелье лечения") (utf8 "potion") 0 0 30
            (utf8 "Восстанавливает 30 HP") [] ].

(** A computation that only writes on behalf of one player, from every
    state and whether it returns or raises. *)
Definition own {A : Type} (uid : Z) (m : M A) : Prop :=
  forall db, writes uid db (snd (m db)).

(* ===================================================================== *)
(** ** Requests

    The calls that reach the repository: the four operations of the engine
    and the four handlers, each with the replies of the generator it may
    consume. *)

Inductive Request :=
| CreateCharacter (name : str)
| ProcessAction (action result_text : str)
| StartBattle (reply : Reply EnemyJson.t)
| ProcessAttack (action : str) (reply : Reply Judgement.t)
| Start (awaiting_name : bool)
| HandleMessage (text : str) (awaiting_name : bool) (replies : Replies)
| Explore (location_desc : str) (enemy : Reply EnemyJson.t)
| ButtonCallback (data : Button) (location_desc : str) (enemy : Reply EnemyJson.t).

(** The database after a request of a player, whether it returned or
    raised. *)
Definition after (U : Unicode) (user_id : Z) (request : Request) (db : DB) : DB :=
  match request with
  | CreateCharacter name => snd (GameEngine.create_character user_id name db)
  | ProcessAction action result_text =>
      snd (GameEngine.process_action U user_id action result_text db)
  | StartBattle reply => snd (GameEngine.start_battle user_id reply db)
  | ProcessAttack action reply => snd (GameEngine.process_attack U user_id action reply db)
  | Start awaiting_name => snd (Bot.start user_id awaiting_name db)
  | HandleMessage text awaiting_name replies =>
      snd (Bot.handle_message U user_id text awaiting_name replies db)
  | Explore location_desc enemy => snd (Bot.explore user_id location_desc enemy db)
  | ButtonCallback data location_desc enemy =>
      snd (Bot.button_callback user_id data location_desc enemy db)
  end.

(** The database after a sequence of requests of any players. *)
Definition after_all (U : Unicode) (requests : list (Z * Request)) (db : DB) : DB :=
  fold_left (fun db r => after U (fst r) (snd r) db) requests db.

(** A computation that keeps a property of the database, whether it
    returns or raises. *)
Definition preserves {A : Type} (P : DB -> Prop) (m : M A) : Prop :=
  forall db, P db -> P (snd (m db)).

(** The stored state is well formed: the invariants of the characters and
    enemies hold and no player has two character rows or two battle rows. *)
Definition well_formed (db : DB) : Prop :=
  state_ok db /\ one_character_per_player db /\ one_enemy_per_player db.

(** The text is not empty and does not begin with a blank. *)
Definition starts_solid (U : Unicode) (s : str) : bool :=
  match s with
  | c :: _ => negb (isspace U c)
  | [] => false
  end.

(** The text ends here or goes on with a line break. *)
Definition ends_line (rest : str) : bool :=
  match rest with
  | [] => true
  | c :: _ => (c =? newline)%N
  end.

(** A purchase line: label, name, price, category and stats with blanks
    [ws1] .. [ws4] after the label and after each bar, framed by [pre] and
    [rest]. *)
Definition purchase_line (pre ws1 name ws2 price ws3 kind ws4 stats rest : str) : str :=
  pre ++ utf8 "ПОКУПКА:" ++ ws1 ++ name ++ pipe :: ws2 ++ price ++ pipe :: ws3
      ++ kind ++ pipe :: ws4 ++ stats ++ rest.

(** A run of attacks of one player, each judged by the fallback because the
    generator gave no usable reply. *)
Definition fight (U : Unicode) (user_id : Z) (actions : list str) (db : DB) : DB :=
  fold_left (fun db action => snd (GameEngine.process_attack U user_id action NoObject db))
            actions db.

(* ===================================================================== *)
(** ** More sample data *)

Module Scenes.

(** A second player. *)
Definition ann : Character.t := Character.default 8 (utf8 "Ann").

(** The veteran (player 7) facing the wolf, and Ann (player 8) with a sword. *)
Definition two_players : DB :=
  mkDB [Sample.veteran; ann] [(8, Sample.iron_sword)] [(7, Sample.wolf)].

(** Bob with 60 gold pieces in a scene, no battle going on. *)
Definition camper : Character.t :=
  set_location_state (utf8 "A quiet camp.") (Character.set_gold 60 Sample.bob).

Definition camp : DB := mkDB [camper] [] [].

(** The generator answers with a purchase line. *)
Definition shop_replies : Replies :=
  {| action_reply := Sample.tight_offer; judge_reply := NoObject; enemy_reply := NoObject |}.

(** The generator answers with an enemy. *)
Definition ambush : str := utf8 "РЕЗУЛЬТАТ: шум." ++ newline :: utf8 "ВРАГ: волк".

Definition ambush_replies : Replies :=
  {| action_reply := ambush; judge_reply := NoObject; enemy_reply := NoObject |}.

(** A reply of the generator in the shape asked for, with the purchase line
    between the result and the actions. *)
Definition report_head : str := utf8 "РЕЗУЛЬТАТ: ok" ++ [newline].
Definition report_tail : str := newline :: utf8 "ДЕЙСТВИЯ:".

(** A text with no bar. *)
Definition silence : str := utf8 "Тишина.".

(** A decoded judgement that lacks the damage. *)
Definition vague : Judgement.t := Judgement.mk None (Some true) (Some (utf8 "hm")).

End Scenes.

(* ===================================================================== *)
(** * Properties *)

(** ** Tables *)

Section TableFacts.
Context {Row : Type} (key : Row -> Z).

Import Database.

Lemma fetchone_key (k : Z) (rows : list Row) (r : Row) :
  fetchone key k rows = Some r -> key r = k.
Proof.
  induction rows as [|r' rows IH]; simpl; [discriminate|].
  destruct (Z.eqb_spec (key r') k) as [E|E]; [|exact IH].
  intros [= <-]; exact E.
Qed.

Lemma fetchone_In (k : Z) (rows : list Row) (r : Row) :
  fetchone key k rows = Some r -> In r rows.
Proof.
  induction rows as [|r' rows IH]; simpl; [discriminate|].
  destruct (key r' =? k); [intros [= ->]; now left | right; auto].
Qed.

Lemma fetchone_upsert_eq (r : Row) (rows : list Row) :
  fetchone key (key r) (upsert key r rows) = Some r.
Proof.
  induction rows as [|r' rows IH]; simpl.
  - now rewrite Z.eqb_refl.
  - destruct (Z.eqb_spec (key r') (key r)) as [E|E]; simpl.
    + now rewrite Z.eqb_refl.
    + destruct (Z.eqb_spec (key r') (key r)); [contradiction | exact IH].
Qed.

Lemma fetchone_upsert_ne (k : Z) (r : Row) (rows : list Row) :
  k <> key r -> fetchone key k (upsert key r rows) = fetchone key k rows.
Proof.
  intros Hk. induction rows as [|r' rows IH]; simpl.
  - destruct (Z.eqb_spec (key r) k); [congruence | reflexivity].
  - destruct (Z.eqb_spec (key r') (key r)) as [E|E]; simpl.
    + destruct (Z.eqb_spec (key r) k); [congruence|].
      destruct (Z.eqb_spec (key r') k); [congruence | reflexivity].
    + now rewrite IH.
Qed.

Lemma fetchone_delete_eq (k : Z) (rows : list Row) :
  fetchone key k (delete_where key k rows) = None.
Proof.
  induction rows as [|r' rows IH]; simpl; [reflexivity|].
  destruct (key r' =? k) eqn:E; simpl; [exact IH | now rewrite E].
Qed.

Lemma fetchone_delete_ne (k k' : Z) (rows : list Row) :
  k <> k' -> fetchone key k (delete_where key k' rows) = fetchone key k rows.
Proof.
  intros Hk. induction rows as [|r' rows IH]; simpl; [reflexivity|].
  destruct (Z.eqb_spec (key r') k') as [E|E]; simpl.
  - destruct (Z.eqb_spec (key r') k); [congruence | exact IH].
  - now rewrite IH.
Qed.

Lemma fetchall_upsert_ne (k : Z) (r : Row) (rows : list Row) :
  k <> key r -> fetchall key k (upsert key r rows) = fetchall key k rows.
Proof.
  intros Hk. induction rows as [|r' rows IH]; simpl.
  - destruct (Z.eqb_spec (key r) k); [congruence | reflexivity].
  - destruct (Z.eqb_spec (key r') (key r)) as [E|E]; simpl.
    + destruct (Z.eqb_spec (key r) k); [congruence|].
      destruct (Z.eqb_spec (key r') k); [congruence | reflexivity].
    + now rewrite IH.
Qed.

(** An upsert into a table that holds the key at most once leaves exactly
    the new row under that key. *)
Lemma fetchall_upsert_eq (r : Row) (rows : list Row) :
  (List.length (fetchall key (key r) rows) <= 1)%nat ->
  fetchall key (key r) (upsert key r rows) = [r].
Proof.
  induction rows as [|r' rows IH]; simpl.
  - now rewrite Z.eqb_refl.
  - destruct (Z.eqb_spec (key r') (key r)) as [E|E]; simpl.
    + rewrite Z.eqb_refl. intros Hlen.
      destruct (fetchall key (key r) rows); [reflexivity | simpl in Hlen; lia].
    + destruct (Z.eqb_spec (key r') (key r)); [contradiction | exact IH].
Qed.

Lemma fetchall_delete_eq (k : Z) (rows : list Row) :
  fetchall key k (delete_where key k rows) = [].
Proof.
  induction rows as [|r' rows IH]; simpl; [reflexivity|].
  destruct (key r' =? k) eqn:E; simpl; [exact IH | now rewrite E].
Qed.

Lemma fetchall_delete_ne (k k' : Z) (rows : list Row) :
  k <> k' -> fetchall key k (delete_where key k' rows) = fetchall key k rows.
Proof.
  intros Hk. induction rows as [|r' rows IH]; simpl; [reflexivity|].
  destruct (Z.eqb_spec (key r') k') as [E|E]; simpl.
  - destruct (Z.eqb_spec (key r') k); [congruence | exact IH].
  - now rewrite IH.
Qed.

Lemma In_upsert (x r : Row) (rows : list Row) :
  In x (upsert key r rows) -> x = r \/ In x rows.
Proof.
  induction rows as [|r' rows IH]; simpl.
  - intros [<-|[]]; now left.
  - destruct (key r' =? key r); simpl.
    + intros [<-|H]; [now left | right; now right].
    + intros [<-|H]; [right; now left|].
      destruct (IH H); [now left | right; now right].
Qed.

Lemma In_delete_where (x : Row) (k : Z) (rows : list Row) :
  In x (delete_where key k rows) -> In x rows.
Proof.
  induction rows as [|r' rows IH]; simpl; [tauto|].
  destruct (key r' =? k); simpl; [right; auto|].
  intros [<-|H]; [now left | right; auto].
Qed.

End TableFacts.

(* ===================================================================== *)
(** ** The attack turn *)

Section Attack.
Context (U : Unicode).

Import Database GameEngine.

(** Saving a character and reading it back under its own key. *)
Lemma character_of_save (c : Character.t) (db : DB) :
  character_of (snd (save_character c db)) (Character.user_id c) = Some c.
Proof. apply fetchone_upsert_eq. Qed.

Lemma character_of_key (db : DB) (uid : Z) (c : Character.t) :
  character_of db uid = Some c -> Character.user_id c = uid.
Proof. apply fetchone_key. Qed.

Lemma battle_of_clear (uid : Z) (db : DB) :
  battle_of (snd (clear_battle uid db)) uid = None.
Proof. unfold battle_of; simpl. now rewrite fetchone_delete_eq. Qed.

Lemma battle_of_save (uid : Z) (e : Enemy.t) (db : DB) :
  battle_of (snd (save_battle uid e db)) uid = Some e.
Proof.
  unfold battle_of; simpl.
  now rewrite (fetchone_upsert_eq fst (uid, e)).
Qed.

(** Up to the branch on the enemy's hit points, an attack with a judged
    damage [d] runs as follows. *)
Lemma process_attack_judged (uid : Z) (action : str) (reply : Reply Judgement.t)
      (db : DB) (c : Character.t) (e : Enemy.t) (j : Judgement.t) (d : Z) (desc : str) :
  character_of db uid = Some c ->
  battle_of db uid = Some e ->
  AIGenerator.calculate_damage U action c e reply = Return j ->
  Judgement.damage j = Some d ->
  Judgement.description j = Some desc ->
  process_attack U uid action reply db =
  let e' := Enemy.set_hp (Enemy.hp e - d) e in
  let result :=
    AttackReport.mk d desc (get (Judgement.critical j) false) (Enemy.hp e - d <=? 0)
                    false None None None false in
  if Enemy.hp e - d <=? 0
  then victory uid c e' result db
  else counterattack uid c e' result db.
Proof.
  intros Hc He Hj Hd Hdesc.
  unfold process_attack, bind, get_character, get_battle.
  rewrite Hc, He. unfold lift; simpl. rewrite Hj, Hd; simpl. rewrite Hdesc; simpl.
  now destruct (Enemy.hp e - d <=? 0).
Qed.

(** C7: an attack for a player who has no active battle reports the
    "no active battle" error and leaves the database, hence the character
    and the battle table, as it was. *)
Theorem attack_without_battle (uid : Z) (action : str) (reply : Reply Judgement.t)
        (db : DB) :
  battle_of db uid = None ->
  process_attack U uid action reply db = (Return (Error (utf8 "Нет активного боя")), db).
Proof.
  intros He. unfold process_attack, bind, get_character, get_battle.
  now rewrite He.
Qed.

(** C2: in an active battle with judged damage [d] and enemy hit points [h]
    the enemy is left with [h - d] and is defeated iff [h - d <= 0]; on
    victory the character gains the enemy's rewards, the battle is cleared
    and one level-up (level + 1, max_hp + 20, hp = max_hp, strength + 2,
    agility + 2) is applied iff the experience after the reward reaches
    [level * 100] of the level before. *)
Theorem attack_victory_and_level_up
        (uid : Z) (action : str) (reply : Reply Judgement.t) (db : DB)
        (c : Character.t) (e : Enemy.t) (j : Judgement.t) (d : Z) (desc : str) :
  character_of db uid = Some c ->
  battle_of db uid = Some e ->
  AIGenerator.calculate_damage U action c e reply = Return j ->
  Judgement.damage j = Some d ->
  Judgement.description j = Some desc ->
  let h := Enemy.hp e in
  let xp := Character.experience c + Enemy.experience_reward e in
  exists (r : AttackReport.t) (db' : DB),
    process_attack U uid action reply db = (Return (Report r), db') /\
    AttackReport.player_damage r = d /\
    AttackReport.enemy_defeated r = (h - d <=? 0) /\
    (0 < h - d -> AttackReport.enemy_hp r = Some (h - d)) /\
    (h - d <= 0 ->
     AttackReport.rewards r = Some (Enemy.experience_reward e, Enemy.gold_reward e) /\
     AttackReport.level_up r = (Character.level c * 100 <=? xp) /\
     battle_of db' uid = None /\
     exists c' : Character.t,
       character_of db' uid = Some c' /\
       Character.experience c' = xp /\
       Character.gold c' = Character.gold c + Enemy.gold_reward e /\
       (Character.level c * 100 <= xp ->
        Character.level c' = Character.level c + 1 /\
        Character.max_hp c' = Character.max_hp c + 20 /\
        Character.hp c' = Character.max_hp c + 20 /\
        Character.strength c' = Character.strength c + 2 /\
        Character.agility c' = Character.agility c + 2) /\
       (xp < Character.level c * 100 ->
        Character.level c' = Character.level c /\
        Character.max_hp c' = Character.max_hp c /\
        Character.hp c' = Character.hp c /\
        Character.strength c' = Character.strength c /\
        Character.agility c' = Character.agility c)).
Proof.
  intros Hc He Hj Hd Hdesc h xp.
  rewrite (process_attack_judged uid action reply db c e j d desc Hc He Hj Hd Hdesc).
  pose proof (character_of_key db uid c Hc) as Hkey.
  cbv zeta. fold h.
  destruct (Z.leb_spec (h - d) 0) as [Hle|Hgt].
  - (* victory *)
    unfold victory, bind, ret; simpl.
    eexists _, _. split; [reflexivity|]. simpl.
    split; [reflexivity|]. split; [reflexivity|]. split; [lia|].
    intros _. split; [reflexivity|]. split; [reflexivity|].
    split; [apply (battle_of_clear uid)|].
    fold xp.
    destruct (Z.leb_spec (Character.level c * 100) xp) as [Hup|Hno].
    + eexists. split.
      * unfold character_of; simpl. rewrite <- Hkey at 1.
        apply (fetchone_upsert_eq Character.user_id
                 (Character.mk _ _ _ _ _ _ _ _ _ _ _ _ _ _ _)).
      * simpl. repeat split; try reflexivity; intros; lia.
    + eexists. split.
      * unfold character_of; simpl. rewrite <- Hkey at 1.
        apply (fetchone_upsert_eq Character.user_id
                 (Character.mk _ _ _ _ _ _ _ _ _ _ _ _ _ _ _)).
      * simpl. repeat split; try reflexivity; intros; lia.
  - (* the enemy stands *)
    unfold counterattack, bind, ret; simpl.
    destruct (Character.hp c - Z.max 1 (Enemy.damage e - Character.armor c) <=? 0);
      simpl; eexists _, _; (split; [reflexivity|]); simpl;
      (split; [reflexivity|]); (split; [reflexivity|]); (split; [reflexivity|]);
      intros; lia.
Qed.

(** C3: when the enemy survives the attack, the character loses
    [max(1, enemy.damage - character.armor)] hit points; if that brings the
    character to zero or below, the hit points become [max_hp // 2], the gold
    [max(0, gold - 20)] and the battle is cleared; otherwise the battle
    stays active with the enemy's reduced hit points. *)
Theorem attack_counterattack_and_defeat
        (uid : Z) (action : str) (reply : Reply Judgement.t) (db : DB)
        (c : Character.t) (e : Enemy.t) (j : Judgement.t) (d : Z) (desc : str) :
  character_of db uid = Some c ->
  battle_of db uid = Some e ->
  AIGenerator.calculate_damage U action c e reply = Return j ->
  Judgement.damage j = Some d ->
  Judgement.description j = Some desc ->
  0 < Enemy.hp e - d ->
  let enemy_damage := Z.max 1 (Enemy.damage e - Character.armor c) in
  exists (r : AttackReport.t) (db' : DB) (c' : Character.t),
    process_attack U uid action reply db = (Return (Report r), db') /\
    AttackReport.enemy_defeated r = false /\
    AttackReport.enemy_damage r = Some enemy_damage /\
    AttackReport.player_defeated r = (Character.hp c - enemy_damage <=? 0) /\
    character_of db' uid = Some c' /\
    Character.max_hp c' = Character.max_hp c /\
    (Character.hp c - enemy_damage <= 0 ->
     Character.hp c' = Character.max_hp c / 2 /\
     Character.gold c' = Z.max 0 (Character.gold c - 20) /\
     battle_of db' uid = None) /\
    (0 < Character.hp c - enemy_damage ->
     Character.hp c' = Character.hp c - enemy_damage /\
     Character.gold c' = Character.gold c /\
     battle_of db' uid = Some (Enemy.set_hp (Enemy.hp e - d) e)).
Proof.
  intros Hc He Hj Hd Hdesc Hgt enemy_damage.
  rewrite (process_attack_judged uid action reply db c e j d desc Hc He Hj Hd Hdesc).
  pose proof (character_of_key db uid c Hc) as Hkey.
  cbv zeta.
  destruct (Z.leb_spec (Enemy.hp e - d) 0) as [Hle|_]; [lia|].
  unfold counterattack, bind, ret; simpl. fold enemy_damage.
  destruct (Z.leb_spec (Character.hp c - enemy_damage) 0) as [Hdown|Hup]; simpl.
  - eexists _, _, _. split; [reflexivity|]. simpl.
    split; [reflexivity|]. split; [reflexivity|]. split; [reflexivity|].
    split.
    { unfold character_of; simpl. rewrite <- Hkey at 1.
      apply (fetchone_upsert_eq Character.user_id
               (Character.mk _ _ _ _ _ _ _ _ _ _ _ _ _ _ _)). }
    simpl. split; [reflexivity|]. split; [|intros; lia].
    intros _. split; [reflexivity|]. split; [reflexivity|].
    unfold battle_of; simpl. now rewrite fetchone_delete_eq.
  - eexists _, _, _. split; [reflexivity|]. simpl.
    split; [reflexivity|]. split; [reflexivity|]. split; [reflexivity|].
    split.
    { unfold character_of; simpl. rewrite <- Hkey at 1.
      apply (fetchone_upsert_eq Character.user_id
               (Character.mk _ _ _ _ _ _ _ _ _ _ _ _ _ _ _)). }
    simpl. split; [reflexivity|]. split; [intros; lia|].
    intros _. split; [reflexivity|]. split; [reflexivity|].
    unfold battle_of; simpl.
    now rewrite (fetchone_upsert_eq fst (uid, Enemy.set_hp (Enemy.hp e - d) e)).
Qed.

End Attack.

Lemma attack_without_battle_witness :
  GameEngine.process_attack Basic.table 7 [] NoObject Sample.village
  = (Return (Error (utf8 "Нет активного боя")), Sample.village).
Proof.
  apply (attack_without_battle Basic.table 7 [] NoObject Sample.village).
  reflexivity.
Defined.

(** The veteran deals 70 points to the wolf (70 hit points): victory, and
    90 + 20 experience points reach the 100 of level 1. *)
Lemma attack_victory_and_level_up_witness :
  exists (r : AttackReport.t) (db' : DB),
    GameEngine.process_attack Basic.table 7 [] (Sample.hit 70) Sample.arena
    = (Return (Report r), db') /\
    AttackReport.enemy_defeated r = true /\
    AttackReport.level_up r = true /\
    Database.battle_of db' 7 = None.
Proof.
  destruct (attack_victory_and_level_up Basic.table 7 [] (Sample.hit 70) Sample.arena
              Sample.veteran Sample.wolf _ 70 (utf8 "hit")
              eq_refl eq_refl eq_refl eq_refl eq_refl)
    as (r & db' & Hrun & _ & Hdef & _ & Hwin).
  destruct Hwin as (_ & Hup & Hclear & _); [simpl; lia|].
  exists r, db'. repeat split; assumption.
Defined.

(** The veteran (12 hit points, armor 5) deals 10 points; the wolf (damage 8)
    answers with 3: the battle goes on with 60 hit points on the wolf. *)
Lemma attack_counterattack_and_defeat_witness :
  exists (r : AttackReport.t) (db' : DB) (c' : Character.t),
    GameEngine.process_attack Basic.table 7 [] (Sample.hit 10) Sample.arena
    = (Return (Report r), db') /\
    AttackReport.enemy_damage r = Some 3 /\
    Database.character_of db' 7 = Some c' /\
    Character.hp c' = 9 /\
    Database.battle_of db' 7 = Some (Enemy.set_hp 60 Sample.wolf).
Proof.
  destruct (attack_counterattack_and_defeat Basic.table 7 [] (Sample.hit 10) Sample.arena
              Sample.veteran Sample.wolf _ 10 (utf8 "hit")
              eq_refl eq_refl eq_refl eq_refl eq_refl)
    as (r & db' & c' & Hrun & _ & Hdmg & _ & Hc' & _ & _ & Hon); [simpl; lia|].
  destruct Hon as (Hhp & _ & Hbattle); [simpl; lia|].
  exists r, db', c'. repeat split; assumption.
Defined.

(* ===================================================================== *)
(** ** Starting a battle *)

Import Database GameEngine.

(** C8: the enemy of a new battle carries [20 * level] experience and
    [10 * level] gold as rewards, whatever the generator replied. *)
Theorem start_battle_rewards (uid : Z) (reply : Reply EnemyJson.t) (db : DB)
        (c : Character.t) :
  character_of db uid = Some c ->
  exists (e : Enemy.t) (db' : DB),
    start_battle uid reply db = (Return (c, e), db') /\
    battle_of db' uid = Some e /\
    Enemy.experience_reward e = 20 * Character.level c /\
    Enemy.gold_reward e = 10 * Character.level c.
Proof.
  intros Hc. unfold start_battle, bind, get_character. rewrite Hc. simpl.
  eexists _, _. split; [reflexivity|]. split; [|split; reflexivity].
  unfold battle_of; simpl.
  now rewrite (fetchone_upsert_eq fst (uid, _)).
Qed.

(** A level-3 character meets an enemy for which the generator suggests
    999 hit points: the rewards are 60 and 30. *)
Lemma start_battle_rewards_witness :
  exists (e : Enemy.t) (db' : DB),
    start_battle 7 (Decoded (EnemyJson.mk None (Some 999) None None None))
                 (mkDB [Character.set_level 3 Sample.bob] [] [])
    = (Return (Character.set_level 3 Sample.bob, e), db') /\
    Enemy.experience_reward e = 60 /\
    Enemy.gold_reward e = 30.
Proof.
  destruct (start_battle_rewards 7 (Decoded (EnemyJson.mk None (Some 999) None None None))
              (mkDB [Character.set_level 3 Sample.bob] [] [])
              (Character.set_level 3 Sample.bob) eq_refl)
    as (e & db' & Hrun & _ & Hxp & Hgold).
  exists e, db'. repeat split; assumption.
Defined.

(* ===================================================================== *)
(** ** What each operation writes *)

Section Footprints.
Context (U : Unicode).

Lemma half_in_range (m : Z) : 0 <= m -> 0 <= m / 2 <= m.
Proof.
  intros Hm. split.
  - apply Z.div_pos; lia.
  - apply Z.div_le_upper_bound; lia.
Qed.

(** The character written by a victory satisfies the invariant. *)
Lemma victory_character_ok (c : Character.t) (e : Enemy.t) :
  character_ok c -> enemy_ok e ->
  forall (uid : Z) (result : AttackReport.t) (db : DB),
  exists c' : Character.t,
    characters (snd (victory uid c e result db))
    = upsert Character.user_id c' (characters db) /\
    character_ok c' /\
    active_battles (snd (victory uid c e result db))
    = delete_where fst uid (active_battles db).
Proof.
  intros (Hhp & Hgold & Hlevel) He uid result db.
  unfold victory, bind, ret, save_character, clear_battle.
  cbn -[Z.add Z.mul Z.leb].
  eexists. split; [reflexivity|]. split; [|reflexivity].
  unfold character_ok, enemy_ok in *.
  destruct (Character.level c * 100 <=? Character.experience c + Enemy.experience_reward e);
    cbn -[Z.add Z.mul]; lia.
Qed.

(** The character written after a counterattack satisfies the invariant, and
    the battle row is either removed or rewritten with the same rewards. *)
Lemma counterattack_character_ok (c : Character.t) (e : Enemy.t) :
  character_ok c ->
  forall (uid : Z) (result : AttackReport.t) (db : DB),
  exists c' : Character.t,
    characters (snd (counterattack uid c e result db))
    = upsert Character.user_id c' (characters db) /\
    character_ok c' /\
    (active_battles (snd (counterattack uid c e result db))
     = delete_where fst uid (active_battles db)
     \/ active_battles (snd (counterattack uid c e result db))
        = upsert fst (uid, e) (active_battles db)).
Proof.
  intros (Hhp & Hgold & Hlevel) uid result db.
  unfold counterattack, bind, ret, save_character, clear_battle, save_battle.
  cbn -[Z.add Z.sub Z.mul Z.leb Z.max Z.div].
  set (enemy_damage := Z.max 1 (Enemy.damage e - Character.armor c)).
  destruct (Z.leb_spec (Character.hp c - enemy_damage) 0) as [Hdown|Hup];
    cbn -[Z.add Z.sub Z.mul Z.leb Z.max Z.div].
  - eexists. split; [reflexivity|]. split; [|now left].
    unfold character_ok; cbn -[Z.add Z.sub Z.mul Z.leb Z.max Z.div].
    pose proof (half_in_range (Character.max_hp c)). lia.
  - eexists. split; [reflexivity|]. split; [|now right].
    unfold character_ok; cbn -[Z.add Z.sub Z.mul Z.leb Z.max Z.div].
    subst enemy_damage. lia.
Qed.

(** The writes of [process_attack]: nothing, or one character row that
    satisfies the invariant together with the removal or the rewrite of the
    player's battle row. *)
Lemma process_attack_writes (uid : Z) (action : str) (reply : Reply Judgement.t)
      (db : DB) :
  state_ok db ->
  let db' := snd (process_attack U uid action reply db) in
  inventory db' = inventory db /\
  (characters db' = characters db
   \/ exists c', characters db' = upsert Character.user_id c' (characters db)
                 /\ character_ok c') /\
  (active_battles db' = active_battles db
   \/ active_battles db' = delete_where fst uid (active_battles db)
   \/ exists e', active_battles db' = upsert fst (uid, e') (active_battles db)
                 /\ enemy_ok e').
Proof.
  intros [Hchars Hbattles] db'. subst db'.
  unfold process_attack, bind, get_character, get_battle.
  destruct (battle_of db uid) as [e|] eqn:He; [|simpl; auto].
  assert (He_ok : enemy_ok e).
  { unfold battle_of in He.
    destruct (fetchone fst uid (active_battles db)) as [row|] eqn:Hrow; [|discriminate].
    injection He as <-. apply Hbattles. eapply fetchone_In; eassumption. }
  destruct (character_of db uid) as [c|] eqn:Hc; [|simpl; auto].
  assert (Hc_ok : character_ok c).
  { apply Hchars. eapply fetchone_In; exact Hc. }
  unfold lift; cbn [deref].
  destruct (AIGenerator.calculate_damage U action c e reply) as [j|]; [|simpl; auto].
  destruct (Judgement.damage j) as [d|]; [|simpl; auto].
  cbn [getitem].
  destruct (Judgement.description j) as [desc|]; [|simpl; auto].
  cbn [getitem].
  set (e' := Enemy.set_hp (Enemy.hp e - d) e).
  assert (He'_ok : enemy_ok e') by exact He_ok.
  set (result := AttackReport.mk _ _ _ _ _ _ _ _ _).
  destruct (Enemy.hp e' <=? 0).
  - destruct (victory_character_ok c e' Hc_ok He'_ok uid result db)
      as (c' & Hrows & Hok & Hb).
    split; [reflexivity|]. split; [right; eauto|]. right; left; exact Hb.
  - destruct (counterattack_character_ok c e' Hc_ok uid result db)
      as (c' & Hrows & Hok & Hb).
    split.
    { unfold counterattack, bind, ret, save_character, clear_battle, save_battle.
      now destruct (Character.hp _ <=? 0). }
    split; [right; eauto|].
    destruct Hb as [Hb|Hb]; [right; left; exact Hb | right; right; eauto].
Qed.

End Footprints.

(* ===================================================================== *)
(** ** The character invariant *)

Section Invariant.
Context (U : Unicode).

Lemma state_ok_after (db db' : DB) :
  state_ok db ->
  (characters db' = characters db
   \/ exists c', characters db' = upsert Character.user_id c' (characters db)
                 /\ character_ok c') ->
  (active_battles db' = active_battles db
   \/ (exists uid, active_battles db' = delete_where fst uid (active_battles db))
   \/ exists uid e', active_battles db' = upsert fst (uid, e') (active_battles db)
                     /\ enemy_ok e') ->
  state_ok db'.
Proof.
  intros [Hchars Hbattles] Hc Hb. split.
  - destruct Hc as [->|(c' & -> & Hok)]; [exact Hchars|].
    intros c Hin. apply In_upsert in Hin. destruct Hin as [->|Hin]; auto.
  - destruct Hb as [->|[(uid & ->)|(uid & e' & -> & Hok)]]; try exact Hbattles.
    + intros row Hin. apply In_delete_where in Hin. auto.
    + intros row Hin. apply In_upsert in Hin. destruct Hin as [->|Hin]; auto.
Qed.

Lemma create_character_ok (uid : Z) (name : str) (db : DB) :
  state_ok db -> state_ok (snd (create_character uid name db)).
Proof.
  intros Hdb. apply (state_ok_after db); [exact Hdb| |now left].
  right. exists (Character.default uid name). split; [reflexivity|].
  unfold character_ok; simpl. lia.
Qed.

Lemma process_action_ok (uid : Z) (action result_text : str) (db : DB) :
  state_ok db -> state_ok (snd (process_action U uid action result_text db)).
Proof.
  intros Hdb. apply (state_ok_after db); [exact Hdb| |].
  - unfold process_action, bind, get_character, lift.
    destruct (character_of db uid) as [c|] eqn:Hc; [|now left].
    cbn [deref].
    destruct (re_search (purchase_re U) result_text) as [m|]; [|now left].
    destruct (Z.leb_spec (int U (group 2 m)) (Character.gold c)) as [Hpay|Hpoor];
      [|now left].
    right. eexists. split; [reflexivity|].
    assert (Hc_ok : character_ok c).
    { apply (proj1 Hdb). eapply fetchone_In; exact Hc. }
    destruct Hc_ok as (Hhp & Hgold & Hlevel).
    unfold character_ok; cbn -[Z.sub]. lia.
  - left. unfold process_action, bind, get_character, lift.
    destruct (character_of db uid) as [c|]; [|reflexivity].
    cbn [deref].
    destruct (re_search (purchase_re U) result_text) as [m|]; [|reflexivity].
    now destruct (int U (group 2 m) <=? Character.gold c).
Qed.

Lemma start_battle_ok (uid : Z) (reply : Reply EnemyJson.t) (db : DB) :
  state_ok db -> state_ok (snd (start_battle uid reply db)).
Proof.
  intros Hdb. apply (state_ok_after db); [exact Hdb| |].
  - left. unfold start_battle, bind, get_character, lift.
    now destruct (character_of db uid).
  - unfold start_battle, bind, get_character, lift.
    destruct (character_of db uid) as [c|] eqn:Hc; [|now left].
    right; right. eexists _, _. split; [reflexivity|].
    assert (Hc_ok : character_ok c).
    { apply (proj1 Hdb). eapply fetchone_In; exact Hc. }
    destruct Hc_ok as (_ & _ & Hlevel).
    unfold enemy_ok; cbn -[Z.mul]. lia.
Qed.

Lemma process_attack_ok (uid : Z) (action : str) (reply : Reply Judgement.t) (db : DB) :
  state_ok db -> state_ok (snd (process_attack U uid action reply db)).
Proof.
  intros Hdb.
  destruct (process_attack_writes U uid action reply db Hdb) as (_ & Hc & Hb).
  apply (state_ok_after db); [exact Hdb|exact Hc|].
  destruct Hb as [Hb|[Hb|(e' & Hb & Hok)]].
  - now left.
  - right; left. eauto.
  - right; right. eauto.
Qed.

(** C9: every core operation (character creation, purchase resolution,
    battle start, attack resolution) preserves the character invariant
    [0 <= hp <= max_hp], [gold >= 0], [level >= 1] of every stored
    character, in every state whose stored enemies carry a gold reward that
    is not negative, as all enemies made by [start_battle] do; whether the
    operation returns or raises. *)
Theorem operations_preserve_character_invariant (db : DB) :
  state_ok db ->
  (forall uid name, state_ok (snd (create_character uid name db))) /\
  (forall uid action result_text,
      state_ok (snd (process_action U uid action result_text db))) /\
  (forall uid reply, state_ok (snd (start_battle uid reply db))) /\
  (forall uid action reply, state_ok (snd (process_attack U uid action reply db))).
Proof.
  intros Hdb. split; [|split; [|split]]; intros.
  - now apply create_character_ok.
  - now apply process_action_ok.
  - now apply start_battle_ok.
  - now apply process_attack_ok.
Qed.

End Invariant.

Lemma sample_arena_ok : state_ok Sample.arena.
Proof.
  split.
  - intros c [<-|[]]. unfold character_ok; simpl. lia.
  - intros row [<-|[]]. unfold enemy_ok; simpl. lia.
Qed.

(** The veteran is beaten down by a wolf that hits for 40: after the defeat
    the stored character still satisfies the invariant. *)
Lemma operations_preserve_character_invariant_witness :
  state_ok (snd (process_attack Basic.table 7 [] (Sample.hit 10)
                                (mkDB [Sample.veteran] []
                                      [(7, Enemy.mk [] 70 70 3 40 20 10)]))).
Proof.
  destruct (operations_preserve_character_invariant Basic.table
              (mkDB [Sample.veteran] [] [(7, Enemy.mk [] 70 70 3 40 20 10)]))
    as (_ & _ & _ & Hattack).
  - split.
    + intros c [<-|[]]. unfold character_ok; simpl. lia.
    + intros row [<-|[]]. unfold enemy_ok; simpl. lia.
  - apply Hattack.
Defined.

(* ===================================================================== *)
(** ** One enemy per player *)

Section OneEnemy.
Context (U : Unicode).

Lemma enemies_of_upsert_eq (uid : Z) (e : Enemy.t) (db db' : DB) :
  one_enemy_per_player db ->
  active_battles db' = upsert fst (uid, e) (active_battles db) ->
  enemies_of db' uid = [e].
Proof.
  intros Hone Hrows. unfold enemies_of. rewrite Hrows.
  specialize (Hone uid). unfold enemies_of in Hone. rewrite length_map in Hone.
  now rewrite (fetchall_upsert_eq fst (uid, e)).
Qed.

Lemma one_enemy_after (uid : Z) (db db' : DB) :
  one_enemy_per_player db ->
  (active_battles db' = active_battles db
   \/ active_battles db' = delete_where fst uid (active_battles db)
   \/ exists e', active_battles db' = upsert fst (uid, e') (active_battles db)) ->
  one_enemy_per_player db'.
Proof.
  intros Hone Hrows k.
  destruct Hrows as [Hrows|[Hrows|(e' & Hrows)]].
  - unfold enemies_of. rewrite Hrows. apply Hone.
  - unfold enemies_of. rewrite Hrows.
    destruct (Z.eq_dec k uid) as [->|Hk].
    + rewrite fetchall_delete_eq. simpl. lia.
    + rewrite fetchall_delete_ne by exact Hk. apply Hone.
  - destruct (Z.eq_dec k uid) as [->|Hk].
    + rewrite (enemies_of_upsert_eq uid e' db db' Hone Hrows). simpl. lia.
    + unfold enemies_of. rewrite Hrows.
      rewrite (fetchall_upsert_ne fst k (uid, e')) by exact Hk. apply Hone.
Qed.

(** The battle rows that [process_attack] leaves. *)
Lemma process_attack_battles (uid : Z) (action : str) (reply : Reply Judgement.t)
      (db : DB) :
  let db' := snd (process_attack U uid action reply db) in
  active_battles db' = active_battles db
  \/ active_battles db' = delete_where fst uid (active_battles db)
  \/ exists e', active_battles db' = upsert fst (uid, e') (active_battles db).
Proof.
  cbv zeta. unfold process_attack, bind, get_character, get_battle.
  destruct (battle_of db uid) as [e|]; [|now left].
  destruct (character_of db uid) as [c|]; [|now left].
  unfold lift; cbn [deref].
  destruct (AIGenerator.calculate_damage U action c e reply) as [j|]; [|now left].
  destruct (Judgement.damage j) as [d|]; [|now left].
  cbn [getitem].
  destruct (Judgement.description j) as [desc|]; [|now left].
  cbn [getitem].
  destruct (Enemy.hp (Enemy.set_hp (Enemy.hp e - d) e) <=? 0).
  - right; left. reflexivity.
  - unfold counterattack, bind, ret, save_character, clear_battle, save_battle.
    destruct (Character.hp _ <=? 0).
    + right; left. reflexivity.
    + right; right. eexists. reflexivity.
Qed.

(** The battle rows that [start_battle] leaves. *)
Lemma start_battle_battles (uid : Z) (reply : Reply EnemyJson.t) (db : DB) :
  match fst (start_battle uid reply db) with
  | Return (_, e) =>
      active_battles (snd (start_battle uid reply db))
      = upsert fst (uid, e) (active_battles db)
  | Raise _ => snd (start_battle uid reply db) = db
  end.
Proof.
  unfold start_battle, bind, get_character, lift.
  now destruct (character_of db uid).
Qed.

(** C10: at most one enemy is stored per player.  Saving a battle, clearing
    it, starting a battle and resolving an attack keep it so, and after a
    battle start (also when a battle was active) or a save the player has
    exactly the one new enemy. *)
Theorem at_most_one_enemy_per_player (db : DB) :
  one_enemy_per_player db ->
  (forall uid e,
      one_enemy_per_player (snd (save_battle uid e db)) /\
      enemies_of (snd (save_battle uid e db)) uid = [e]) /\
  (forall uid,
      one_enemy_per_player (snd (clear_battle uid db)) /\
      enemies_of (snd (clear_battle uid db)) uid = []) /\
  (forall uid reply,
      one_enemy_per_player (snd (start_battle uid reply db)) /\
      forall c e, fst (start_battle uid reply db) = Return (c, e) ->
                  enemies_of (snd (start_battle uid reply db)) uid = [e]) /\
  (forall uid action reply,
      one_enemy_per_player (snd (process_attack U uid action reply db))).
Proof.
  intros Hone. split; [|split; [|split]].
  - intros uid e. split.
    + apply (one_enemy_after uid db); [exact Hone|]. right; right. now exists e.
    + now apply (enemies_of_upsert_eq uid e db).
  - intros uid. split.
    + apply (one_enemy_after uid db); [exact Hone|]. right; left. reflexivity.
    + unfold enemies_of; simpl. now rewrite fetchall_delete_eq.
  - intros uid reply.
    pose proof (start_battle_battles uid reply db) as Hrows.
    destruct (fst (start_battle uid reply db)) as [[c e]|err] eqn:Hrun.
    + split.
      * apply (one_enemy_after uid db); [exact Hone|]. right; right. now exists e.
      * intros c0 e0 [= <- <-]. now apply (enemies_of_upsert_eq uid e db).
    + split; [now rewrite Hrows | discriminate].
  - intros uid action reply.
    apply (one_enemy_after uid db); [exact Hone|].
    apply process_attack_battles.
Qed.

End OneEnemy.

Lemma sample_arena_one_enemy : one_enemy_per_player Sample.arena.
Proof.
  intros uid. unfold enemies_of, Sample.arena, active_battles, fetchall, fst.
  destruct (7 =? uid); simpl; lia.
Qed.

(** A battle starts for the veteran while the wolf is still there: the wolf
    is replaced by the orc, one enemy is stored. *)
Lemma at_most_one_enemy_per_player_witness :
  enemies_of (snd (start_battle 7 Sample.orc_reply Sample.arena)) 7
  = [Enemy.mk (utf8 "Orc") 120 120 5 10 20 10].
Proof.
  destruct (at_most_one_enemy_per_player Basic.table Sample.arena sample_arena_one_enemy)
    as (_ & _ & Hstart & _).
  destruct (Hstart 7 Sample.orc_reply) as (_ & Hnew).
  apply (Hnew Sample.veteran). reflexivity.
Defined.

(* ===================================================================== *)
(** ** Purchases *)

Section Purchase.
Context (U : Unicode).

(** C4: for a parsed purchase offer of price [p] and a character with [g]
    gold pieces: when [g >= p] the purchase succeeds, the stored gold is
    [g - p], reported as [gold_left], and the inventory gains exactly the one
    item built from the parsed fields; when [g < p] it fails with
    [gold_needed = p - g] and the database is untouched. *)
Theorem purchase_resolution (uid : Z) (action result_text : str) (db : DB)
        (c : Character.t) (m : list str) :
  character_of db uid = Some c ->
  re_search (purchase_re U) result_text = Some m ->
  let item_name := strip U (group 1 m) in
  let p := int U (group 2 m) in
  let item_type := strip U (group 3 m) in
  let stats := strip U (group 4 m) in
  let g := Character.gold c in
  exists (r : ActionResult.t) (db' : DB),
    process_action U uid action result_text db = (Return r, db') /\
    (p <= g ->
     ActionResult.purchase r
     = Some (PurchaseInfo.mk true item_name p (Some (g - p)) None) /\
     character_of db' uid = Some (Character.set_gold (g - p) c) /\
     inventory db' = inventory db ++ [(uid, new_item U item_name item_type stats)] /\
     active_battles db' = active_battles db) /\
    (g < p ->
     ActionResult.purchase r
     = Some (PurchaseInfo.mk false item_name p None (Some (p - g))) /\
     db' = db).
Proof.
  intros Hc Hm item_name p item_type stats g.
  pose proof (character_of_key db uid c Hc) as Hkey.
  unfold process_action, bind, get_character, lift. rewrite Hc. cbn [deref].
  rewrite Hm. fold item_name p item_type stats g.
  destruct (Z.leb_spec p g) as [Hpay|Hpoor].
  - unfold add_item, save_character, ret. cbn -[Z.sub new_item].
    eexists _, _. split; [reflexivity|]. split; [|intros; lia].
    intros _. cbn -[Z.sub new_item].
    split; [reflexivity|]. split; [|split; reflexivity].
    unfold character_of; cbn -[Z.sub]. rewrite <- Hkey at 1.
    apply (fetchone_upsert_eq Character.user_id (Character.set_gold (g - p) c)).
  - unfold ret. cbn -[Z.sub].
    eexists _, _. split; [reflexivity|]. split; [intros; lia|].
    intros _. cbn -[Z.sub]. split; reflexivity.
Qed.

End Purchase.

(** With 60 gold pieces the sword of price 50 is bought and 10 are left;
    with 40 the purchase fails for want of 10. *)
Lemma purchase_resolution_witness :
  (exists (r : ActionResult.t) (db' : DB),
      process_action Basic.table 7 [] Sample.offer Sample.rich = (Return r, db') /\
      ActionResult.purchase r
      = Some (PurchaseInfo.mk true (utf8 "Iron Sword") 50 (Some 10) None) /\
      inventory db' = [(7, Sample.iron_sword)]) /\
  (exists r : ActionResult.t,
      process_action Basic.table 7 [] Sample.offer Sample.poor = (Return r, Sample.poor) /\
      ActionResult.purchase r
      = Some (PurchaseInfo.mk false (utf8 "Iron Sword") 50 None (Some 10))).
Proof.
  split.
  - destruct (purchase_resolution Basic.table 7 [] Sample.offer Sample.rich
                (Character.set_gold 60 Sample.bob) _ eq_refl eq_refl)
      as (r & db' & Hrun & Hbuy & _).
    destruct Hbuy as (Hinfo & _ & Hinv & _); [vm_compute; discriminate|].
    exists r, db'. split; [exact Hrun|]. split; [exact Hinfo | exact Hinv].
  - destruct (purchase_resolution Basic.table 7 [] Sample.offer Sample.poor
                (Character.set_gold 40 Sample.bob) _ eq_refl eq_refl)
      as (r & db' & Hrun & _ & Hfail).
    destruct Hfail as (Hinfo & ->); [vm_compute; reflexivity|].
    exists r. split; [exact Hrun | exact Hinfo].
Defined.

(* ===================================================================== *)
(** ** The matcher *)

Section MatcherFacts.

(** What a successful greedy repetition took: a run of class characters,
    after which the continuation succeeded. *)
Lemma greedy_sound {R : Type} (p : codepoint -> bool) (k : str -> str -> option R)
      (s taken : str) (r : R) :
  greedy p k taken s = Some r ->
  exists m rest,
    s = m ++ rest /\ forallb p m = true /\ k (rev taken ++ m) rest = Some r.
Proof.
  revert taken. induction s as [|c s IH]; intros taken; simpl.
  - intros Hk. exists [], []. rewrite (app_nil_r (rev taken)). auto.
  - destruct (p c) eqn:Hp.
    + destruct (greedy p k (c :: taken) s) as [r0|] eqn:Hg.
      * intros [= <-]. destruct (IH _ Hg) as (m & rest & -> & Hm & Hk).
        exists (c :: m), rest. simpl. rewrite Hp, Hm.
        simpl in Hk. rewrite <- app_assoc in Hk. auto.
      * intros Hk. exists [], (c :: s). rewrite (app_nil_r (rev taken)). auto.
    + intros Hk. exists [], (c :: s). rewrite (app_nil_r (rev taken)). auto.
Qed.

(** The first atom of a matching pattern took a prefix of the text, made of
    characters of its class: one for [Once], at least one for [Plus]. *)
Lemma match_here_cons (a : atom) (re : regex) (s : str) (groups : list str) :
  match_here (a :: re) s = Some groups ->
  exists m rest groups',
    s = m ++ rest /\ forallb (cls a) m = true /\
    match_here re rest = Some groups' /\
    (rep a = Once -> exists c, m = [c]) /\
    (rep a = Plus -> m <> []).
Proof.
  simpl. destruct (rep a) eqn:Hrep.
  - destruct s as [|c s]; [discriminate|].
    destruct (cls a c) eqn:Hc; [|discriminate].
    destruct (match_here re s) as [g|] eqn:Hre; [|discriminate].
    intros _. exists [c], s, g. simpl. rewrite Hc.
    repeat split; eauto. discriminate.
  - intros Hg. apply greedy_sound in Hg. destruct Hg as (m & rest & -> & Hm & Hk).
    destruct (match_here re rest) as [g|] eqn:Hre; [|discriminate].
    exists m, rest, g. repeat split; auto; discriminate.
  - intros Hg. apply greedy_sound in Hg. destruct Hg as (m & rest & -> & Hm & Hk).
    simpl in Hk. destruct m as [|c m]; [discriminate|].
    destruct (match_here re rest) as [g|] eqn:Hre; [|discriminate].
    exists (c :: m), rest, g. repeat split; auto; discriminate.
Qed.

Lemma match_here_lit (l : str) (re : regex) (s : str) (groups : list str) :
  match_here (lit l ++ re) s = Some groups ->
  exists rest groups', s = l ++ rest /\ match_here re rest = Some groups'.
Proof.
  revert s groups. induction l as [|c l IH]; intros s groups.
  - simpl. eauto.
  - change (lit (c :: l) ++ re) with (Atom (N.eqb c) Once false :: (lit l ++ re)).
    intros H. apply match_here_cons in H.
    destruct H as (m & rest & g & -> & Hm & Hre & Honce & _).
    destruct (Honce eq_refl) as (c' & ->).
    simpl in Hm. rewrite andb_true_r in Hm. apply N.eqb_eq in Hm. subst c'.
    destruct (IH _ _ Hre) as (rest' & g' & -> & Hre').
    exists rest', g'. split; [reflexivity | exact Hre'].
Qed.

(** A successful search matched some suffix of the text. *)
Lemma re_search_sound (re : regex) (s : str) (groups : list str) :
  re_search re s = Some groups ->
  exists pre suffix, s = pre ++ suffix /\ match_here re suffix = Some groups.
Proof.
  induction s as [|c s IH]; simpl.
  - destruct (match_here re []) eqn:H; [|discriminate].
    intros [= <-]. exists [], []. auto.
  - destruct (match_here re (c :: s)) eqn:H.
    + intros [= <-]. exists [], (c :: s). auto.
    + intros Hs. destruct (IH Hs) as (pre & suffix & -> & Hm).
      exists (c :: pre), suffix. auto.
Qed.

End MatcherFacts.

Section PurchaseLine.
Context (U : Unicode).

(** The purchase pattern only matches where a digit of the price stands
    immediately before the second bar. *)
Lemma purchase_match_needs_digit_before_bar (s : str) (groups : list str) :
  match_here (purchase_re U) s = Some groups -> digit_before_bar U s.
Proof.
  unfold purchase_re. intros H.
  apply match_here_lit in H. destruct H as (s0 & g0 & -> & H).
  apply match_here_cons in H. destruct H as (m1 & s1 & g1 & -> & _ & H & _).
  apply match_here_cons in H. destruct H as (m2 & s2 & g2 & -> & _ & H & _).
  apply match_here_cons in H. destruct H as (m3 & s3 & g3 & -> & _ & H & _).
  apply match_here_cons in H. destruct H as (m4 & s4 & g4 & -> & _ & H & _).
  apply match_here_cons in H. destruct H as (m5 & s5 & g5 & -> & Hdigits & H & _ & Hne).
  apply match_here_cons in H. destruct H as (m6 & s6 & g6 & -> & Hbar & _ & Honce & _).
  destruct (Honce eq_refl) as (b & ->).
  cbn [forallb cls bar] in Hbar. rewrite andb_true_r in Hbar.
  apply N.eqb_eq in Hbar. subst b.
  destruct (exists_last (Hne eq_refl)) as (front & d & ->).
  rewrite forallb_app in Hdigits. apply andb_true_iff in Hdigits.
  destruct Hdigits as [_ Hd]. cbn [forallb cls] in Hd. rewrite andb_true_r in Hd.
  exists (utf8 "ПОКУПКА:" ++ m1 ++ m2 ++ m3 ++ m4 ++ front), d, s6.
  split; [|exact Hd].
  repeat rewrite <- app_assoc. reflexivity.
Qed.

Lemma digit_before_bar_suffix (pre s : str) :
  digit_before_bar U s -> digit_before_bar U (pre ++ s).
Proof.
  intros (p & d & post & -> & Hd). exists (pre ++ p), d, post.
  now rewrite <- app_assoc.
Qed.

(** A text in which no digit stands immediately before a bar holds no
    purchase offer: [process_action] returns without a purchase and writes
    nothing. *)
Lemma no_offer_without_digit_before_bar (uid : Z) (action text : str) (db : DB)
      (c : Character.t) :
  character_of db uid = Some c ->
  ~ digit_before_bar U text ->
  process_action U uid action text db
  = (Return (ActionResult.mk text (detect_enemy U text) None), db).
Proof.
  intros Hc Hno. unfold process_action, bind, get_character, lift.
  rewrite Hc. cbn [deref].
  destruct (re_search (purchase_re U) text) as [m|] eqn:Hm; [|reflexivity].
  exfalso. apply Hno.
  apply re_search_sound in Hm. destruct Hm as (pre & suffix & -> & Hm).
  apply digit_before_bar_suffix.
  eapply purchase_match_needs_digit_before_bar; exact Hm.
Qed.

End PurchaseLine.

(** C5: the well-formed purchase line
    [ПОКУПКА: Iron Sword | 30 | weapon | damage 8], in the shape
    [<label>: <item name> | <price> | <category> | <stats>] that the prompt
    of [process_action] dictates, yields no purchase offer: the pattern wants
    the bar immediately after the digits of the price.  Without the blanks
    before the second and third bar the same line parses to the offer
    (Iron Sword, 30, weapon, damage 8, armor 0, heal 0). *)
Theorem spaced_purchase_line_is_not_parsed :
  re_search (purchase_re Basic.table) Sample.spaced_offer = None /\
  process_action Basic.table 7 [] Sample.spaced_offer Sample.village
  = (Return (ActionResult.mk Sample.spaced_offer false None), Sample.village) /\
  (exists db',
      process_action Basic.table 7 [] Sample.tight_offer Sample.village
      = (Return (ActionResult.mk Sample.tight_offer false
                   (Some (PurchaseInfo.mk true (utf8 "Iron Sword") 30 (Some 20) None))),
         db') /\
      inventory db'
      = inventory Sample.village
        ++ [(7, Item.mk (utf8 "Iron Sword") (utf8 "weapon") 8 0 0 (utf8 "damage 8") [])]).
Proof.
  split; [vm_compute; reflexivity|].
  split; [vm_compute; reflexivity|].
  eexists. split; vm_compute; reflexivity.
Qed.

(* ===================================================================== *)
(** ** Stat inference *)

Section Stats.
Context (U : Unicode).

(** A greedy repetition in front of a maximal run takes the whole run when
    the continuation accepts it. *)
Lemma greedy_takes_run {R : Type} (p : codepoint -> bool) (k : str -> str -> option R)
      (run post taken : str) (r : R) :
  forallb p run = true ->
  (post = [] \/ exists c post', post = c :: post' /\ p c = false) ->
  k (rev taken ++ run) post = Some r ->
  greedy p k taken (run ++ post) = Some r.
Proof.
  revert taken. induction run as [|c run IH]; intros taken Hrun Hpost Hk.
  - rewrite (app_nil_r (rev taken)) in Hk. simpl.
    destruct Hpost as [->|(c & post' & -> & Hc)]; simpl; [exact Hk|].
    now rewrite Hc.
  - simpl in Hrun. apply andb_true_iff in Hrun. destruct Hrun as [Hc Hrun].
    simpl. rewrite Hc. rewrite (IH (c :: taken)); auto.
    simpl. now rewrite <- app_assoc.
Qed.

(** [re.search(r'(\d+)', text)] finds the first maximal run of digits. *)
Lemma first_digits (pre run post : str) :
  forallb (fun c => negb (isdecimal U c)) pre = true ->
  run <> [] ->
  forallb (isdecimal U) run = true ->
  (post = [] \/ exists c post', post = c :: post' /\ isdecimal U c = false) ->
  re_search (digits_re U) (pre ++ run ++ post) = Some [run].
Proof.
  intros Hpre Hne Hrun Hpost. induction pre as [|c pre IH].
  - simpl app. destruct run as [|d run]; [contradiction|].
    assert (Hm : match_here (digits_re U) ((d :: run) ++ post) = Some [d :: run]).
    { unfold digits_re. cbn [match_here rep cls capture].
      apply greedy_takes_run; auto. }
    destruct ((d :: run) ++ post) eqn:E; simpl; simpl in Hm; now rewrite Hm.
  - simpl in Hpre. apply andb_true_iff in Hpre. destruct Hpre as [Hc Hpre].
    apply negb_true_iff in Hc.
    change ((c :: pre) ++ run ++ post) with (c :: (pre ++ run ++ post)).
    cbn [re_search]. unfold digits_re at 1. cbn [match_here rep cls capture greedy].
    rewrite Hc. cbn [rev]. apply IH. exact Hpre.
Qed.

(** The first integer of a text is the value of its leftmost maximal run
    of digits. *)
Lemma first_integer_run (pre run post : str) :
  forallb (fun c => negb (isdecimal U c)) pre = true ->
  run <> [] ->
  forallb (isdecimal U) run = true ->
  (post = [] \/ exists c post', post = c :: post' /\ isdecimal U c = false) ->
  first_integer U (pre ++ run ++ post) = Some (int U run).
Proof.
  intros. unfold first_integer. now rewrite first_digits.
Qed.

Lemma stat_field_value (found : bool) (stats : str) :
  stat_field U found stats
  = if found then match first_integer U stats with Some n => n | None => 0 end else 0.
Proof.
  unfold stat_field, first_integer.
  destruct found; [|reflexivity].
  now destruct (re_search (digits_re U) stats).
Qed.

(** The three fields of the created item are set independently of one
    another: each is the first integer of the stats text when a keyword of
    its own family occurs in the lower-cased text (zero when the text holds
    no integer) and zero otherwise. *)
Lemma new_item_fields (item_name item_type stats : str) :
  let item := new_item U item_name item_type stats in
  let value := match first_integer U stats with Some n => n | None => 0 end in
  Item.damage item = (if damage_words U stats then value else 0) /\
  Item.armor_bonus item = (if armor_words U stats then value else 0) /\
  Item.heal item = (if heal_words U stats then value else 0).
Proof.
  cbv zeta. unfold new_item. cbn [Item.damage Item.armor_bonus Item.heal].
  rewrite !stat_field_value.
  repeat split.
Qed.

End Stats.

(** C6: the stat inference does not keep to one field.  For the purchase
    line [Spiked Shield | 30| armor| damage 8, armor 2] the created and
    stored item has damage 8 and armor bonus 8: two fields that are not
    zero, and an armor bonus that is the magnitude written for the damage.
    For the line [Healing Potion | 25| potion| лечение 25 hp, без урона]
    ("heals 25 hp, no damage") the stored item heals 25 and deals damage
    25.  The three keyword tests of [process_action] are three [if]
    statements, not one [if]/[elif] chain. *)
Theorem stat_inference_fills_several_fields :
  let shield := new_item Basic.table (utf8 "Spiked Shield") (utf8 "armor")
                         (utf8 "damage 8, armor 2") in
  let potion := new_item Basic.table (utf8 "Healing Potion") (utf8 "potion")
                         (utf8 "лечение 25 hp, без урона") in
  (Item.damage shield = 8 /\ Item.armor_bonus shield = 8 /\ Item.heal shield = 0) /\
  ~ at_most_one_nonzero (Item.damage shield) (Item.armor_bonus shield) (Item.heal shield) /\
  (Item.damage potion = 25 /\ Item.armor_bonus potion = 0 /\ Item.heal potion = 25) /\
  ~ at_most_one_nonzero (Item.damage potion) (Item.armor_bonus potion) (Item.heal potion) /\
  inventory (snd (process_action Basic.table 7 [] Sample.two_stat_offer Sample.village))
  = inventory Sample.village ++ [(7, shield)] /\
  inventory (snd (process_action Basic.table 7 [] Sample.potion_offer Sample.village))
  = inventory Sample.village ++ [(7, potion)].
Proof.
  cbv zeta.
  split; [repeat split|].
  split; [vm_compute; intros [[? ?]|[[? ?]|[? ?]]]; discriminate|].
  split; [repeat split|].
  split; [vm_compute; intros [[? ?]|[[? ?]|[? ?]]]; discriminate|].
  split; vm_compute; reflexivity.
Qed.

(* ===================================================================== *)
(** ** The fallback damage *)

(** *** Rounding to nearest, ties to even *)

(** Nothing is lost when the bits shifted out are zero. *)
Lemma round_even_exact (p k : Z) :
  0 <= k -> p mod 2 ^ k = 0 -> round_even p k * 2 ^ k = p.
Proof.
  intros Hk Hm. unfold round_even. rewrite Hm.
  assert (0 < 2 ^ k) by (apply Z.pow_pos_nonneg; lia).
  replace (2 * 0 ?= 2 ^ k) with Lt by (symmetry; apply Z.compare_lt_iff; lia).
  pose proof (Z.div_mod p (2 ^ k)). lia.
Qed.

(** The rounded value is within half a unit of the last place. *)
Lemma round_even_error (p k : Z) :
  0 <= k -> 2 * Z.abs (round_even p k * 2 ^ k - p) <= 2 ^ k.
Proof.
  intros Hk. unfold round_even.
  assert (HP : 0 < 2 ^ k) by (apply Z.pow_pos_nonneg; lia).
  pose proof (Z.div_mod p (2 ^ k) ltac:(lia)) as Hd.
  pose proof (Z.mod_pos_bound p (2 ^ k) HP) as Hr.
  set (P := 2 ^ k) in *. set (q := p / P) in *. set (r := p mod P) in *.
  destruct (Z.compare_spec (2 * r) P) as [E|E|E].
  - destruct (Z.even q); lia.
  - lia.
  - lia.
Qed.

(** A multiple of [2^k] closer than half a unit is the rounded value. *)
Lemma round_even_unique (p k w : Z) :
  0 <= k -> 2 * Z.abs (w * 2 ^ k - p) < 2 ^ k -> round_even p k = w.
Proof.
  intros Hk Hw. unfold round_even.
  assert (HP : 0 < 2 ^ k) by (apply Z.pow_pos_nonneg; lia).
  pose proof (Z.div_mod p (2 ^ k) ltac:(lia)) as Hd.
  pose proof (Z.mod_pos_bound p (2 ^ k) HP) as Hr.
  set (P := 2 ^ k) in *. set (q := p / P) in *. set (r := p mod P) in *.
  assert (Hcases : w = q \/ w = q + 1) by nia.
  destruct (Z.compare_spec (2 * r) P) as [E|E|E].
  - destruct Hcases; subst w; nia.
  - destruct Hcases; subst w; [reflexivity | nia].
  - destruct Hcases; subst w; [nia | reflexivity].
Qed.

Lemma round_even_shift (p k a : Z) :
  0 <= k -> 0 <= a -> round_even (p * 2 ^ a) (k + a) = round_even p k.
Proof.
  intros Hk Ha. unfold round_even.
  assert (HP : 0 < 2 ^ k) by (apply Z.pow_pos_nonneg; lia).
  assert (HA : 0 < 2 ^ a) by (apply Z.pow_pos_nonneg; lia).
  rewrite Z.pow_add_r by lia.
  rewrite Z.div_mul_cancel_r by lia.
  rewrite Z.mul_mod_distr_r by lia.
  replace (2 * (p mod 2 ^ k * 2 ^ a)) with (2 * (p mod 2 ^ k) * 2 ^ a) by ring.
  rewrite <- Zmult_compare_compat_r by lia. reflexivity.
Qed.

Lemma round_even_range (p k : Z) :
  0 <= k -> 2 ^ (k + 52) <= p < 2 ^ (k + 53) -> 2 ^ 52 <= round_even p k <= 2 ^ 53.
Proof.
  intros Hk Hp. unfold round_even.
  assert (HP : 0 < 2 ^ k) by (apply Z.pow_pos_nonneg; lia).
  rewrite !Z.pow_add_r in Hp by lia.
  pose proof (Z.div_mod p (2 ^ k) ltac:(lia)) as Hd.
  pose proof (Z.mod_pos_bound p (2 ^ k) HP) as Hr.
  set (P := 2 ^ k) in *. set (q := p / P) in *. set (r := p mod P) in *.
  assert (2 ^ 52 <= q < 2 ^ 53) by nia.
  destruct (Z.compare_spec (2 * r) P); [destruct (Z.even q)| |]; lia.
Qed.

(** *** Rounding to 53 bits *)

Lemma log2_bounds (v : Z) : 0 < v -> 2 ^ Z.log2 v <= v < 2 ^ (Z.log2 v + 1).
Proof. intros Hv. pose proof (Z.log2_spec v Hv). now rewrite <- Z.add_1_r in H. Qed.

Lemma mod_pow2_mul (n g k : Z) : 0 <= k <= g -> (n * 2 ^ g) mod 2 ^ k = 0.
Proof.
  intros Hk. replace g with ((g - k) + k) by ring.
  rewrite Z.pow_add_r by lia. rewrite Z.mul_assoc. apply Z.mod_mul.
  apply Z.pow_nonzero; lia.
Qed.

(** Integers of at most 53 bits, scaled by a power of two, round to
    themselves. *)
Lemma round53_exact (n g : Z) :
  0 <= n < 2 ^ 53 -> 0 <= g -> round53 (n * 2 ^ g) = n * 2 ^ g.
Proof.
  intros Hn Hg. unfold round53.
  destruct (Z.leb_spec (Z.log2 (n * 2 ^ g) - 52) 0) as [|Hk]; [reflexivity|].
  assert (Hpos : 0 < n).
  { destruct (Z.eq_dec n 0) as [->|]; [|lia]. simpl in Hk. lia. }
  rewrite Z.log2_mul_pow2 in * by lia.
  assert (Z.log2 n < 53) by (apply Z.log2_lt_pow2; lia).
  apply round_even_exact; [lia|]. apply mod_pow2_mul. lia.
Qed.

(** The relative error of rounding is at most [2^-53]. *)
Lemma round53_error (v : Z) : 0 <= v -> 2 ^ 53 * Z.abs (round53 v - v) <= v.
Proof.
  intros Hv. unfold round53.
  destruct (Z.leb_spec (Z.log2 v - 52) 0) as [|Hk].
  - rewrite Z.sub_diag. simpl. lia.
  - assert (0 < v) by (destruct (Z.eq_dec v 0) as [->|]; [simpl in Hk|]; lia).
    pose proof (round_even_error v (Z.log2 v - 52) ltac:(lia)) as He.
    pose proof (log2_bounds v ltac:(lia)) as [Hlo _].
    replace (Z.log2 v) with ((Z.log2 v - 52) + 52) in Hlo at 1 by ring.
    rewrite Z.pow_add_r in Hlo by lia.
    change (2 ^ 53) with (2 * 2 ^ 52). lia.
Qed.

Lemma round53_unique (v w : Z) :
  0 < v -> 0 < Z.log2 v - 52 ->
  2 * Z.abs (w * 2 ^ (Z.log2 v - 52) - v) < 2 ^ (Z.log2 v - 52) ->
  round53 v = w * 2 ^ (Z.log2 v - 52).
Proof.
  intros Hv Hk Hw. unfold round53.
  destruct (Z.leb_spec (Z.log2 v - 52) 0); [lia|].
  f_equal. apply round_even_unique; [lia | assumption].
Qed.

Lemma round53_shift (p a : Z) :
  0 < p -> 0 <= a -> round53 (p * 2 ^ a) = round53 p * 2 ^ a.
Proof.
  intros Hp Ha. unfold round53. rewrite Z.log2_mul_pow2 by lia.
  destruct (Z.leb_spec (Z.log2 p - 52) 0) as [Hk|Hk].
  - destruct (Z.leb_spec (a + Z.log2 p - 52) 0) as [|Hk']; [reflexivity|].
    apply round_even_exact; [lia|]. apply mod_pow2_mul. lia.
  - destruct (Z.leb_spec (a + Z.log2 p - 52) 0); [lia|].
    replace (a + Z.log2 p - 52) with ((Z.log2 p - 52) + a) by ring.
    rewrite round_even_shift by lia. rewrite Z.pow_add_r by lia. ring.
Qed.

Lemma round53_nonneg (v : Z) : 0 <= v -> 0 <= round53 v.
Proof. intros Hv. pose proof (round53_error v Hv). lia. Qed.

Lemma round53_pos (v : Z) : 0 < v -> 0 < round53 v.
Proof.
  intros Hv. pose proof (round53_error v ltac:(lia)).
  assert (0 < 2 ^ 53) by reflexivity.
  destruct (Z.abs_spec (round53 v - v)) as [[? E]|[? E]]; rewrite E in *; nia.
Qed.

Lemma rounds_opp (v : Z) : rounds (- v) = - rounds v.
Proof. unfold rounds. rewrite Z.sgn_opp, Z.abs_opp. ring. Qed.

Lemma rounds_nonneg (v : Z) : 0 <= v -> rounds v = round53 v.
Proof.
  intros Hv. unfold rounds. rewrite Z.abs_eq by assumption.
  destruct (Z.eq_dec v 0) as [->|]; [reflexivity|].
  rewrite Z.sgn_pos by lia. ring.
Qed.

Lemma rounds_error (v : Z) : 2 ^ 53 * Z.abs (rounds v - v) <= Z.abs v.
Proof.
  destruct (Z_le_gt_dec 0 v) as [Hv|Hv].
  - rewrite rounds_nonneg, (Z.abs_eq v) by assumption. now apply round53_error.
  - replace v with (- - v) at 1 2 by ring. rewrite rounds_opp, rounds_nonneg by lia.
    replace (- round53 (- v) - - - v) with (- (round53 (- v) - - v)) by ring.
    rewrite Z.abs_opp, (Z.abs_neq v) by lia. apply round53_error. lia.
Qed.

Lemma rounds_exact (n g : Z) :
  Z.abs n < 2 ^ 53 -> 0 <= g -> rounds (n * 2 ^ g) = n * 2 ^ g.
Proof.
  intros Hn Hg.
  destruct (Z_le_gt_dec 0 n) as [Hs|Hs].
  - assert (0 <= 2 ^ g) by (apply Z.pow_nonneg; lia).
    rewrite rounds_nonneg by nia. apply round53_exact; lia.
  - replace (n * 2 ^ g) with (- (- n * 2 ^ g)) by ring.
    assert (0 <= 2 ^ g) by (apply Z.pow_nonneg; lia).
    rewrite rounds_opp, rounds_nonneg by nia.
    rewrite round53_exact by lia. reflexivity.
Qed.

(** *** The rounding of [SpecFloat] computes [round53] *)

Lemma digits2_pos_size (p : positive) : digits2_pos p = Pos.size p.
Proof. induction p; simpl; congruence. Qed.

Lemma digits2_log2 (p : positive) : Z.pos (digits2_pos p) = Z.log2 (Z.pos p) + 1.
Proof.
  rewrite digits2_pos_size.
  destruct p; simpl; try reflexivity; now rewrite Pos2Z.inj_succ, <- Z.add_1_r.
Qed.

Lemma shl_pos (p n : positive) : Z.pos (Pos.iter xO p n) = Z.pos p * 2 ^ Z.pos n.
Proof.
  rewrite <- Z.shiftl_mul_pow2 by lia. unfold Z.shiftl.
  now rewrite (Pos.iter_swap_gen _ _ Z.pos xO (Z.mul 2)).
Qed.

Lemma shr_1_spec (m : Z) (r s : bool) :
  0 <= m ->
  shr_1 (Build_shr_record m r s) = Build_shr_record (m / 2) (Z.odd m) (r || s).
Proof.
  intros Hm. rewrite <- Z.div2_div.
  destruct m as [|[p|p|]|]; try reflexivity. lia.
Qed.

Lemma shifted_step (p j : Z) :
  0 <= p -> 0 <= j -> shr_1 (shifted p j) = shifted p (j + 1).
Proof.
  intros Hp Hj. unfold shifted.
  assert (HP : 0 < 2 ^ j) by (apply Z.pow_pos_nonneg; lia).
  rewrite shr_1_spec by (apply Z.div_pos; lia).
  rewrite Z.pow_add_r by lia. change (2 ^ 1) with 2.
  rewrite Z.rem_mul_r by lia.
  rewrite <- Z.div_div by lia.
  pose proof (Z.mod_pos_bound p (2 ^ j) HP) as Hr.
  rewrite (Zmod_odd (p / 2 ^ j)).
  set (P := 2 ^ j) in *. set (r := p mod P) in *. set (m := p / P) in *.
  f_equal.
  - destruct (Z.odd m); symmetry; [apply Z.leb_le | apply Z.leb_gt]; lia.
  - destruct (Z.odd m);
      destruct (Z.leb_spec P (2 * r)); destruct (Z.eqb_spec r 0);
      destruct (Z.eqb_spec (2 * r) P);
      repeat match goal with
             | |- context [Z.eqb ?a ?b] => destruct (Z.eqb_spec a b)
             end; cbn [negb andb orb]; try reflexivity; lia.
Qed.

Lemma shifted_iter (p : Z) (n : positive) (j : Z) :
  0 <= p -> 0 <= j -> iter_pos shr_1 n (shifted p j) = shifted p (j + Z.pos n).
Proof.
  intros Hp. revert j. induction n as [n IH|n IH|]; intros j Hj; cbn [iter_pos].
  - rewrite shifted_step, !IH by lia. f_equal. lia.
  - rewrite !IH by lia. f_equal. lia.
  - now apply shifted_step.
Qed.

Lemma shifted_0 (p : Z) : shifted p 0 = Build_shr_record p false false.
Proof.
  unfold shifted. simpl. rewrite Z.div_1_r, Z.mod_1_r. reflexivity.
Qed.

Lemma shifted_round (p j : Z) :
  0 <= j ->
  round_nearest_even (shr_m (shifted p j)) (loc_of_shr_record (shifted p j))
  = round_even p j.
Proof.
  intros Hj. unfold shifted, round_even, loc_of_shr_record, round_nearest_even, shr_m.
  assert (HP : 0 < 2 ^ j) by (apply Z.pow_pos_nonneg; lia).
  pose proof (Z.mod_pos_bound p (2 ^ j) HP) as Hr.
  set (P := 2 ^ j) in *. set (r := p mod P) in *. set (m := p / P) in *.
  destruct (Z.leb_spec P (2 * r)); destruct (Z.eqb_spec r 0);
    destruct (Z.eqb_spec (2 * r) P); cbn [negb andb orb];
    destruct (Z.compare_spec (2 * r) P); try reflexivity; lia.
Qed.

Lemma shr_fexp_spec (p : positive) (e : Z) :
  -1074 <= Z.log2 (Z.pos p) + e - 52 ->
  shr_fexp prec emax (Z.pos p) e loc_Exact
  = if Z.log2 (Z.pos p) - 52 <=? 0
    then (Build_shr_record (Z.pos p) false false, e)
    else (shifted (Z.pos p) (Z.log2 (Z.pos p) - 52), e + (Z.log2 (Z.pos p) - 52)).
Proof.
  intros He. unfold shr_fexp, fexp, Zdigits2, shr_record_of_loc.
  rewrite digits2_log2.
  change (SpecFloat.emin prec emax) with (-1074). change prec with 53.
  rewrite Z.max_l by lia.
  replace (Z.log2 (Z.pos p) + 1 + e - 53 - e) with (Z.log2 (Z.pos p) - 52) by ring.
  destruct (Z.log2 (Z.pos p) - 52) as [|k|k] eqn:Ek; try reflexivity.
  unfold shr. rewrite <- shifted_0. rewrite shifted_iter by lia. reflexivity.
Qed.

(** [binary_round_aux] on an exact input returns a finite float whose value
    is the input rounded to 53 bits. *)
Lemma binary_round_aux_spec (s : bool) (p : positive) (e K : Z) :
  -1074 <= Z.log2 (Z.pos p) + e - 52 ->
  Z.log2 (Z.pos p) + e <= 1000 ->
  e <= 900 ->
  0 <= e + K ->
  exists m' e',
    binary_round_aux prec emax s (Z.pos p) e loc_Exact = S754_finite s m' e' /\
    Z.pos m' * 2 ^ (e' + K) = round53 (Z.pos p * 2 ^ (e + K)) /\
    (52 <= Z.log2 (Z.pos p) -> 2 ^ 52 <= Z.pos m' < 2 ^ 53) /\
    Z.max e (Z.log2 (Z.pos p) + e - 52) <= e' /\
    e' <= Z.max e (Z.log2 (Z.pos p) + e - 51).
Proof.
  intros Hlo Hhi He HK. unfold binary_round_aux.
  rewrite shr_fexp_spec by assumption.
  rewrite round53_shift by lia.
  pose proof (log2_bounds (Z.pos p) ltac:(lia)) as Hp.
  destruct (Z.leb_spec (Z.log2 (Z.pos p) - 52) 0) as [Hk|Hk].
  - cbn [shr_m loc_of_shr_record round_nearest_even].
    rewrite shr_fexp_spec by assumption.
    destruct (Z.leb_spec (Z.log2 (Z.pos p) - 52) 0); [|lia].
    cbn [shr_m]. change (emax - prec) with 971.
    destruct (Z.leb_spec e 971); [|lia].
    exists p, e. split; [reflexivity|]. split.
    + unfold round53. destruct (Z.leb_spec (Z.log2 (Z.pos p) - 52) 0); [reflexivity|lia].
    + split; [|lia]. intros H52. assert (E : Z.log2 (Z.pos p) = 52) by lia.
      rewrite E in Hp. exact Hp.
  - set (k := Z.log2 (Z.pos p) - 52) in *.
    rewrite shifted_round by lia.
    assert (Hq : 2 ^ 52 <= round_even (Z.pos p) k <= 2 ^ 53).
    { apply round_even_range; [lia|].
      replace (k + 52) with (Z.log2 (Z.pos p)) by (unfold k; ring).
      replace (k + 53) with (Z.log2 (Z.pos p) + 1) by (unfold k; ring). exact Hp. }
    assert (Hr53 : round53 (Z.pos p) = round_even (Z.pos p) k * 2 ^ k).
    { unfold round53. fold k. destruct (Z.leb_spec k 0); [lia | reflexivity]. }
    rewrite Hr53.
    destruct (round_even (Z.pos p) k) as [|q|q] eqn:Eq; [simpl in Hq; lia| |lia].
    assert (Hlog : Z.log2 (Z.pos q) = 52 \/ Z.pos q = 2 ^ 53).
    { destruct (Z.eq_dec (Z.pos q) (2 ^ 53)) as [|Hne]; [now right|left].
      apply Z.log2_unique; lia. }
    destruct Hlog as [Hlog|Hlog].
    + rewrite shr_fexp_spec by lia. rewrite Hlog.
      change (52 - 52 <=? 0) with true. cbv iota.
      cbn [shr_m]. change (emax - prec) with 971.
      destruct (Z.leb_spec (e + k) 971); [|lia].
      exists q, (e + k). split; [reflexivity|]. split.
      * replace (e + k + K) with (k + (e + K)) by ring.
        rewrite Z.pow_add_r by lia. ring.
      * split; [intros _|lia].
        pose proof (log2_bounds (Z.pos q) ltac:(lia)) as Hb. rewrite Hlog in Hb. exact Hb.
    + assert (Hl : Z.log2 (Z.pos q) = 53) by (rewrite Hlog; reflexivity).
      rewrite shr_fexp_spec by lia. rewrite Hl.
      change (53 - 52 <=? 0) with false. change (53 - 52) with 1. cbv iota.
      unfold shifted. cbn [shr_m]. rewrite Hlog.
      change (2 ^ 53 / 2 ^ 1) with (Z.pos 4503599627370496).
      cbv iota. change (emax - prec) with 971.
      destruct (Z.leb_spec (e + k + 1) 971); [|lia].
      exists 4503599627370496%positive, (e + k + 1). split; [reflexivity|]. split.
      * replace (e + k + 1 + K) with (1 + (k + (e + K))) by ring.
        rewrite !Z.pow_add_r by lia. change (Z.pos 4503599627370496) with (2 ^ 52).
        change (2 ^ 53) with (2 ^ 52 * 2 ^ 1). ring.
      * split; [intros _; split; [reflexivity | reflexivity] | lia].
Qed.

Lemma binary_round_spec (s : bool) (p : positive) (e K : Z) :
  -1000 <= e <= 900 ->
  Z.log2 (Z.pos p) + e <= 1000 ->
  0 <= Z.log2 (Z.pos p) + e - 52 + K ->
  0 <= e + K ->
  exists m' e',
    binary_round prec emax s p e = S754_finite s m' e' /\
    Z.pos m' * 2 ^ (e' + K) = round53 (Z.pos p * 2 ^ (e + K)) /\
    2 ^ 52 <= Z.pos m' < 2 ^ 53 /\
    Z.log2 (Z.pos p) + e - 52 <= e' <= Z.log2 (Z.pos p) + e - 51.
Proof.
  intros He Hhi HK HK'. unfold binary_round, fexp.
  rewrite digits2_log2.
  change (SpecFloat.emin prec emax) with (-1074). change prec with 53.
  pose proof (Z.log2_nonneg (Z.pos p)) as Hl.
  rewrite Z.max_l by lia.
  unfold shl_align.
  replace (Z.log2 (Z.pos p) + 1 + e - 53 - e) with (Z.log2 (Z.pos p) - 52) by ring.
  destruct (Z.log2 (Z.pos p) - 52) as [|k|d] eqn:Ek.
  - destruct (binary_round_aux_spec s p e K) as (m' & e' & Hf & Hv & Hm & He1 & He2);
      try lia.
    exists m', e'. split; [exact Hf|]. split; [exact Hv|].
    split; [apply Hm; lia | clear Hf Hv Hm; lia].
  - destruct (binary_round_aux_spec s p e K) as (m' & e' & Hf & Hv & Hm & He1 & He2);
      try lia.
    exists m', e'. split; [exact Hf|]. split; [exact Hv|].
    split; [apply Hm; lia | clear Hf Hv Hm; lia].
  - assert (Hp2 : Z.pos (Pos.iter xO p d) = Z.pos p * 2 ^ Z.pos d) by apply shl_pos.
    assert (Hl2 : Z.log2 (Z.pos (Pos.iter xO p d)) = 52).
    { rewrite Hp2, Z.log2_mul_pow2 by lia. lia. }
    destruct (binary_round_aux_spec s (Pos.iter xO p d) (Z.log2 (Z.pos p) + 1 + e - 53) K)
      as (m' & e' & Hf & Hv & Hm & He1 & He2); try lia.
    exists m', e'. split; [exact Hf|]. split.
    + rewrite Hv, Hp2. f_equal. rewrite <- Z.mul_assoc, <- Z.pow_add_r by lia.
      f_equal. f_equal. lia.
    + split; [apply Hm; lia | clear Hf Hv Hm Hp2; lia].
Qed.

(** [binary_normalize] returns a zero or a normal float whose value is the
    input rounded to 53 bits. *)
Lemma binary_normalize_spec (m e K : Z) :
  -1000 <= e <= 900 ->
  Z.log2 (Z.abs m) + e <= 1000 ->
  0 <= Z.log2 (Z.abs m) + e - 52 + K ->
  0 <= e + K ->
  normal (Z.log2 (Z.abs m) + e - 52) (Z.log2 (Z.abs m) + e - 51)
         (binary_normalize prec emax m e false) /\
  scaled_value K (binary_normalize prec emax m e false) = rounds (m * 2 ^ (e + K)).
Proof.
  intros He Hhi HK HK'.
  assert (HP : 0 < 2 ^ (e + K)) by (apply Z.pow_pos_nonneg; lia).
  destruct m as [|p|p]; cbn [binary_normalize Z.abs] in *.
  - split; [left; now exists false | reflexivity].
  - destruct (binary_round_spec false p e K) as (m' & e' & Hf & Hv & Hm & He'); try lia.
    rewrite Hf. split.
    + right. exists false, m', e'. auto.
    + cbn [scaled_value cond_Zopp]. rewrite rounds_nonneg by lia. exact Hv.
  - destruct (binary_round_spec true p e K) as (m' & e' & Hf & Hv & Hm & He'); try lia.
    rewrite Hf. split.
    + right. exists true, m', e'. auto.
    + cbn [scaled_value cond_Zopp].
      replace (Z.neg p * 2 ^ (e + K)) with (- (Z.pos p * 2 ^ (e + K))) by lia.
      rewrite rounds_opp, rounds_nonneg by lia. now rewrite Hv.
Qed.

(** *** Product and difference of floats *)

Lemma normal_weaken (lo hi lo' hi' : Z) (f : spec_float) :
  lo' <= lo -> hi <= hi' -> normal lo hi f -> normal lo' hi' f.
Proof.
  intros Hlo Hhi [Hz|(s & m & e & -> & Hm & He)]; [now left|].
  right. exists s, m, e. repeat split; try apply Hm; lia.
Qed.

Lemma normal_valid (lo hi : Z) (f : spec_float) :
  -1074 <= lo -> hi <= 971 -> normal lo hi f -> valid_binary f = true.
Proof.
  intros Hlo Hhi [[s ->]|(s & m & e & -> & Hm & He)]; [reflexivity|].
  unfold SpecFloat.valid_binary, bounded, canonical_mantissa, fexp.
  rewrite digits2_log2.
  assert (E : Z.log2 (Z.pos m) = 52) by (apply Z.log2_unique; [lia | exact Hm]).
  rewrite E. change (SpecFloat.emin prec emax) with (-1074).
  change prec with 53. change emax with 1024.
  apply andb_true_intro. split; [apply Z.eqb_eq | apply Z.leb_le]; lia.
Qed.

Lemma scaled_value_abs (K : Z) (f : spec_float) (lo hi : Z) :
  normal lo hi f -> 0 <= lo + K ->
  exists n g, scaled_value K f = n * 2 ^ g /\ Z.abs n < 2 ^ 53 /\ 0 <= g.
Proof.
  intros [[s ->]|(s & m & e & -> & Hm & He)] HK.
  - exists 0, 0. repeat split; reflexivity.
  - exists (cond_Zopp s (Z.pos m)), (e + K). split; [|split; [|lia]].
    + destruct s; cbn [scaled_value cond_Zopp]; ring.
    + destruct s; cbn [cond_Zopp]; lia.
Qed.

(** The product of two normal floats is their exact product, rounded. *)
Lemma SFmul_spec (x y : spec_float) (lo1 hi1 lo2 hi2 K1 K2 : Z) :
  normal lo1 hi1 x -> normal lo2 hi2 y ->
  -500 <= lo1 -> hi1 <= 400 -> -500 <= lo2 -> hi2 <= 400 ->
  0 <= lo1 + K1 -> 0 <= lo2 + K2 ->
  normal (lo1 + lo2 + 52) (hi1 + hi2 + 54) (SF64mul x y) /\
  scaled_value (K1 + K2) (SF64mul x y) = rounds (scaled_value K1 x * scaled_value K2 y).
Proof.
  intros [[sx ->]|(sx & mx & ex & -> & Hmx & Hex)] [[sy ->]|(sy & my & ey & -> & Hmy & Hey)]
         Hlo1 Hhi1 Hlo2 Hhi2 HK1 HK2.
  - split; [left; eexists; reflexivity | reflexivity].
  - split; [left; eexists; reflexivity | reflexivity].
  - split; [left; eexists; reflexivity|].
    cbn [SF64mul SFmul scaled_value]. now rewrite Z.mul_0_r.
  - unfold SF64mul, SFmul.
    assert (Hprod : 2 ^ 104 <= Z.pos (mx * my) < 2 ^ 106).
    { rewrite Pos2Z.inj_mul. change (2 ^ 104) with (2 ^ 52 * 2 ^ 52).
      change (2 ^ 106) with (2 ^ 53 * 2 ^ 53). nia. }
    assert (Hlog : 104 <= Z.log2 (Z.pos (mx * my)) <= 105).
    { split.
      - apply Z.log2_le_pow2; lia.
      - assert (Z.log2 (Z.pos (mx * my)) < 106) by (apply Z.log2_lt_pow2; lia). lia. }
    destruct (binary_round_aux_spec (xorb sx sy) (mx * my) (ex + ey) (K1 + K2))
      as (m' & e' & Hf & Hv & Hm & He1 & He2); try lia.
    rewrite Hf. split.
    + right. exists (xorb sx sy), m', e'. split; [reflexivity|].
      split; [apply Hm; lia | clear Hf Hv Hm Hprod; lia].
    + cbn [scaled_value]. rewrite Hv.
      assert (HP : 0 < 2 ^ (ex + ey + (K1 + K2))) by (apply Z.pow_pos_nonneg; lia).
      assert (Hsplit : Z.pos mx * 2 ^ (ex + K1) * (Z.pos my * 2 ^ (ey + K2))
                       = Z.pos (mx * my) * 2 ^ (ex + ey + (K1 + K2))).
      { clear - Hex Hey HK1 HK2.
        replace (ex + ey + (K1 + K2)) with ((ex + K1) + (ey + K2)) by ring.
        rewrite (Z.pow_add_r 2 (ex + K1) (ey + K2)), Pos2Z.inj_mul by lia. ring. }
      destruct sx, sy; cbn [xorb cond_Zopp].
      * replace (- (Z.pos mx * 2 ^ (ex + K1)) * - (Z.pos my * 2 ^ (ey + K2)))
          with (Z.pos mx * 2 ^ (ex + K1) * (Z.pos my * 2 ^ (ey + K2))) by ring.
        rewrite Hsplit, rounds_nonneg by nia. reflexivity.
      * replace (- (Z.pos mx * 2 ^ (ex + K1)) * (Z.pos my * 2 ^ (ey + K2)))
          with (- (Z.pos mx * 2 ^ (ex + K1) * (Z.pos my * 2 ^ (ey + K2)))) by ring.
        rewrite Hsplit, rounds_opp, rounds_nonneg by nia. reflexivity.
      * replace (Z.pos mx * 2 ^ (ex + K1) * - (Z.pos my * 2 ^ (ey + K2)))
          with (- (Z.pos mx * 2 ^ (ex + K1) * (Z.pos my * 2 ^ (ey + K2)))) by ring.
        rewrite Hsplit, rounds_opp, rounds_nonneg by nia. reflexivity.
      * rewrite Hsplit, rounds_nonneg by nia. reflexivity.
Qed.

Lemma shl_align_value (m : positive) (e ez : Z) :
  ez <= e -> Z.pos (fst (shl_align m e ez)) = Z.pos m * 2 ^ (e - ez).
Proof.
  intros He. unfold shl_align.
  destruct (ez - e) as [|d|d] eqn:E; try lia.
  - cbn [fst]. replace (e - ez) with 0 by lia. simpl. lia.
  - cbn [fst]. rewrite shl_pos. f_equal. f_equal. lia.
Qed.

Lemma scaled_value_align (K : Z) (s : bool) (m : positive) (e ez : Z) :
  ez <= e -> 0 <= ez + K ->
  cond_Zopp s (Z.pos (fst (shl_align m e ez))) * 2 ^ (ez + K)
  = scaled_value K (S754_finite s m e).
Proof.
  intros He HK. rewrite shl_align_value by assumption. cbn [scaled_value].
  replace (e + K) with ((e - ez) + (ez + K)) by ring.
  rewrite (Z.pow_add_r 2 (e - ez) (ez + K)) by lia. destruct s; cbn [cond_Zopp]; ring.
Qed.

Lemma aligned_bound (m : positive) (e ez hi : Z) :
  Z.pos m < 2 ^ 53 -> ez <= e <= hi ->
  Z.pos (fst (shl_align m e ez)) < 2 ^ (53 + hi - ez).
Proof.
  intros Hm He. rewrite shl_align_value by lia.
  replace (53 + hi - ez) with (53 + (e - ez) + (hi - e)) by ring.
  rewrite (Z.pow_add_r 2 (53 + (e - ez)) (hi - e)), (Z.pow_add_r 2 53 (e - ez)) by lia.
  assert (0 < 2 ^ (e - ez)) by (apply Z.pow_pos_nonneg; lia).
  assert (1 <= 2 ^ (hi - e)) by (apply (Z.pow_le_mono_r 2 0); lia).
  nia.
Qed.

(** The difference of two normal floats is their exact difference,
    rounded. *)
Lemma SFsub_spec (x y : spec_float) (lo hi K : Z) :
  normal lo hi x -> normal lo hi y ->
  -500 <= lo -> hi <= 400 -> 0 <= lo - 53 + K ->
  normal (lo - 53) (hi + 2) (SF64sub x y) /\
  scaled_value K (SF64sub x y) = rounds (scaled_value K x - scaled_value K y).
Proof.
  intros Hx Hy Hlo Hhi HK.
  pose proof (scaled_value_abs K x lo hi Hx ltac:(lia)) as (nx & gx & Hvx & Hnx & Hgx).
  pose proof (scaled_value_abs K y lo hi Hy ltac:(lia)) as (ny & gy & Hvy & Hny & Hgy).
  destruct Hx as [[sx ->]|(sx & mx & ex & -> & Hmx & Hex)];
    destruct Hy as [[sy ->]|(sy & my & ey & -> & Hmy & Hey)].
  - split; [|destruct sx, sy; reflexivity].
    left. destruct sx, sy; eexists; reflexivity.
  - split.
    + right. exists (negb sy), my, ey. repeat split; try apply Hmy; lia.
    + cbn [SF64sub SFsub]. rewrite Hvy.
      replace (scaled_value K (S754_zero sx) - ny * 2 ^ gy) with ((- ny) * 2 ^ gy)
        by (cbn [scaled_value]; ring).
      rewrite rounds_exact by (rewrite ?Z.abs_opp; assumption).
      replace (- ny * 2 ^ gy) with (- scaled_value K (S754_finite sy my ey))
        by (rewrite Hvy; ring).
      destruct sy; cbn [scaled_value negb cond_Zopp]; ring.
  - split.
    + right. exists sx, mx, ex. repeat split; try apply Hmx; lia.
    + cbn [SF64sub SFsub]. rewrite Hvx at 2.
      replace (nx * 2 ^ gx - scaled_value K (S754_zero sy)) with (nx * 2 ^ gx)
        by (cbn [scaled_value]; ring).
      rewrite rounds_exact by assumption. exact Hvx.
  - unfold SF64sub, SFsub. cbv zeta.
    set (ez := Z.min ex ey).
    set (X := Z.pos (fst (shl_align mx ex ez))).
    set (Y := Z.pos (fst (shl_align my ey ez))).
    assert (HX : X < 2 ^ (53 + hi - ez)) by (apply aligned_bound; unfold ez; lia).
    assert (HY : Y < 2 ^ (53 + hi - ez)) by (apply aligned_bound; unfold ez; lia).
    assert (HXp : 0 < X) by (unfold X; lia).
    assert (HYp : 0 < Y) by (unfold Y; lia).
    set (D := cond_Zopp sx X - cond_Zopp sy Y).
    assert (HD : Z.abs D < 2 ^ (54 + hi - ez)).
    { replace (54 + hi - ez) with (1 + (53 + hi - ez)) by ring.
      rewrite Z.pow_add_r by (unfold ez; lia). change (2 ^ 1) with 2.
      unfold D. destruct sx, sy; cbn [cond_Zopp]; lia. }
    assert (HlogD : 0 <= Z.log2 (Z.abs D) <= 53 + hi - ez).
    { split; [apply Z.log2_nonneg|].
      destruct (Z.eq_dec D 0) as [E|Hne]; [rewrite E; change (Z.log2 (Z.abs 0)) with 0; unfold ez; clear - Hex Hey; lia|].
      assert (Z.log2 (Z.abs D) < 54 + hi - ez) by (apply Z.log2_lt_pow2; lia). lia. }
    destruct (binary_normalize_spec D ez K) as [Hn Hv];
      try (unfold ez; clear HX HY HD; lia).
    split.
    + eapply normal_weaken; [| |exact Hn]; unfold ez; clear HX HY HD; lia.
    + rewrite Hv. f_equal. unfold D. rewrite Z.mul_sub_distr_r.
      unfold X, Y. rewrite !scaled_value_align by (unfold ez; lia). reflexivity.
Qed.

(** *** The arithmetic of the fallback *)

(** Truncation does not see an error below a tenth when the exact value is
    a multiple of a tenth that is no integer. *)
Lemma quot_near (R W N : Z) :
  0 < W -> N mod 10 <> 0 -> Z.abs (10 * R - N * W) < W -> Z.quot R W = Z.quot N 10.
Proof.
  intros HW Hmod Hnear.
  destruct (Z_le_gt_dec 0 N) as [HN|HN].
  - pose proof (Z.div_mod N 10 ltac:(lia)) as Hd.
    pose proof (Z.mod_pos_bound N 10 ltac:(lia)) as Hr.
    rewrite (Z.quot_div_nonneg N 10) by lia.
    set (n := N / 10) in *. set (j := N mod 10) in *.
    assert (0 <= n) by (apply Z.div_pos; lia).
    symmetry. apply (Z.quot_unique R W n (R - W * n)); [nia | nia | ring].
  - pose proof (Z.div_mod (- N) 10 ltac:(lia)) as Hd.
    pose proof (Z.mod_pos_bound (- N) 10 ltac:(lia)) as Hr.
    assert (Hj : (- N) mod 10 <> 0).
    { intros E. apply Hmod. apply Z.mod_divide in E; [|lia].
      apply Z.mod_divide; [lia|]. destruct E as [q E]. exists (- q). lia. }
    assert (EN : Z.quot N 10 = - (- N / 10)).
    { rewrite <- (Z.quot_div_nonneg (- N) 10), <- Z.quot_opp_l by lia.
      f_equal. ring. }
    assert (ER : Z.quot R W = - Z.quot (- R) W).
    { rewrite <- Z.quot_opp_l by lia. f_equal. ring. }
    rewrite EN, ER. clear EN ER.
    set (n := - N / 10) in *. set (j := - N mod 10) in *.
    assert (0 <= n) by (apply Z.div_pos; lia).
    f_equal.
    symmetry. apply (Z.quot_unique (- R) W n (- R - W * n)); [nia | nia | ring].
Qed.

(** The two roundings of the fallback, of [armor * 0.3] and of the
    difference, do not change the truncated result: at scale [2^(u + 54)],
    with [sigma / 2] the factor of the base. *)
Lemma fallback_rounding (u base armor sigma : Z) :
  60 <= u -> sigma = 2 \/ sigma = 3 ->
  0 <= base <= 2 ^ 40 -> 0 <= armor <= 2 ^ 40 ->
  Z.quot (rounds (sigma * base * 2 ^ 53 * 2 ^ u - rounds (armor * M03 * 2 ^ u)))
         (2 ^ (u + 54))
  = Z.quot (5 * sigma * base - 3 * armor) 10.
Proof.
  intros Hu Hs Hb Ha.
  assert (HU : 0 < 2 ^ u) by (apply Z.pow_pos_nonneg; lia).
  rewrite (Z.pow_add_r 2 u 54) by lia.
  set (U := 2 ^ u) in *.
  set (N := 5 * sigma * base - 3 * armor).
  assert (HAU : 0 <= armor * U <= 2 ^ 40 * U) by nia.
  assert (HBU : 0 <= base * U <= 2 ^ 40 * U) by nia.
  destruct (Z.eq_dec (N mod 10) 0) as [Hex|Hin].
  - (* the exact value is an integer *)
    apply Z.mod_divide in Hex; [|lia]. destruct Hex as [n Hn].
    assert (Hm : exists m, armor = 5 * m /\ sigma * base - 3 * m = 2 * n).
    { exists (armor / 5).
      assert (armor mod 5 = 0).
      { pose proof (Z.div_mod armor 5 ltac:(lia)).
        pose proof (Z.mod_pos_bound armor 5 ltac:(lia)). unfold N in Hn. lia. }
      pose proof (Z.div_mod armor 5 ltac:(lia)). unfold N in Hn. lia. }
    destruct Hm as (m & Hm & Hdiff).
    assert (HT : rounds (armor * M03 * U) = 3 * m * 2 ^ 53 * U).
    { destruct (Z.eq_dec m 0) as [->|Hm0].
      - subst armor. reflexivity.
      - assert (Hmpos : 0 < m) by lia.
        assert (HV : armor * M03 * U = m * (3 * 2 ^ 53 - 1) * U).
        { subst armor. unfold M03. ring. }
        assert (HVpos : 0 < armor * M03 * U).
        { rewrite HV. apply Z.mul_pos_pos; [|assumption].
          apply Z.mul_pos_pos; [assumption | reflexivity]. }
        rewrite rounds_nonneg by lia.
        set (V := armor * M03 * U) in *.
        pose proof (log2_bounds V HVpos) as [Hlo Hhi].
        assert (HVlo : 2 ^ (u + 54) <= V).
        { rewrite HV, (Z.pow_add_r 2 u 54), (Z.mul_comm U) by lia.
          apply Z.mul_le_mono_nonneg_r; lia. }
        assert (HVhi : V < 2 ^ (u + 93)).
        { rewrite HV, (Z.pow_add_r 2 u 93), (Z.mul_comm U) by lia.
          apply Z.mul_lt_mono_pos_r; lia. }
        assert (Hk1 : u + 54 <= Z.log2 V) by (apply Z.log2_le_pow2; lia).
        assert (Hk2 : Z.log2 V < u + 93) by (apply Z.log2_lt_pow2; lia).
        set (k := Z.log2 V - 52) in *.
        assert (HP : 0 < 2 ^ k) by (apply Z.pow_pos_nonneg; lia).
        assert (Hsplit : 2 ^ 53 * U = 2 ^ (u + 53 - k) * 2 ^ k).
        { rewrite <- Z.pow_add_r by lia. unfold U.
          rewrite <- (Z.pow_add_r 2 53 u) by lia. f_equal. lia. }
        assert (Hw : 3 * m * 2 ^ 53 * U = (3 * m * 2 ^ (u + 53 - k)) * 2 ^ k).
        { rewrite <- !Z.mul_assoc. rewrite Hsplit. ring. }
        rewrite Hw. apply round53_unique; [assumption | lia |].
        fold k. rewrite <- Hw.
        replace (Z.log2 V + 1) with (53 + k) in Hhi by (unfold k; ring).
        rewrite (Z.pow_add_r 2 53 k) in Hhi by lia.
        rewrite HV in Hhi |- *.
        replace (3 * m * 2 ^ 53 * U - m * (3 * 2 ^ 53 - 1) * U) with (m * U) by ring.
        replace (m * (3 * 2 ^ 53 - 1) * U) with ((3 * 2 ^ 53 - 1) * (m * U)) in Hhi
          by ring.
        assert (HmU : 0 < m * U) by (apply Z.mul_pos_pos; assumption).
        rewrite Z.abs_eq by lia.
        clear - Hhi HmU. lia. }
    rewrite HT.
    replace (sigma * base * 2 ^ 53 * U - 3 * m * 2 ^ 53 * U) with (n * 2 ^ (u + 54)).
    2:{ rewrite (Z.pow_add_r 2 u 54) by lia. fold U.
        replace (sigma * base * 2 ^ 53 * U - 3 * m * 2 ^ 53 * U)
          with ((sigma * base - 3 * m) * 2 ^ 53 * U) by ring.
        rewrite Hdiff. change (2 ^ 54) with (2 * 2 ^ 53). ring. }
    rewrite rounds_exact.
    + rewrite (Z.pow_add_r 2 u 54) by lia. fold U.
      rewrite Z.quot_mul by lia.
      unfold N in *. rewrite Hn. rewrite Z.quot_mul by lia. reflexivity.
    + unfold N in Hn. destruct Hs; subst sigma; lia.
    + lia.
  - (* the exact value is no integer *)
    apply quot_near; [lia | exact Hin |].
    pose proof (rounds_error (armor * M03 * U)) as E1.
    set (T := rounds (armor * M03 * U)) in *.
    pose proof (rounds_error (sigma * base * 2 ^ 53 * U - T)) as E2.
    set (R := rounds (sigma * base * 2 ^ 53 * U - T)) in *.
    replace (armor * M03 * U) with (M03 * (armor * U)) in E1 by ring.
    replace (sigma * base * 2 ^ 53 * U) with (sigma * 2 ^ 53 * (base * U)) in E2 by ring.
    replace (N * (U * 2 ^ 54))
      with (5 * sigma * 2 ^ 54 * (base * U) - 3 * 2 ^ 54 * (armor * U))
      by (unfold N; ring).
    set (AU := armor * U) in *. set (BU := base * U) in *.
    unfold M03 in E1.
    destruct Hs; subst sigma; lia.
Qed.

Lemma three_tenths_spec : Prim2SF three_tenths = S754_finite false 5404319552844595 (-54).
Proof. vm_compute. reflexivity. Qed.

Lemma one_and_half_spec : Prim2SF one_and_half = S754_finite false 6755399441055744 (-52).
Proof. vm_compute. reflexivity. Qed.

Lemma infinity_spec : Prim2SF infinity = S754_infinity false.
Proof. vm_compute. reflexivity. Qed.

Lemma normal_is_finite (lo hi : Z) (f : spec_float) :
  -1074 <= lo -> hi <= 971 -> normal lo hi f ->
  Prim2SF (SF2Prim f) = f /\ PrimFloat.is_infinity (SF2Prim f) = false.
Proof.
  intros Hlo Hhi Hn.
  assert (E : Prim2SF (SF2Prim f) = f).
  { apply Prim2SF_SF2Prim. now apply (normal_valid lo hi). }
  split; [exact E|].
  unfold PrimFloat.is_infinity. rewrite eqb_spec, abs_spec, E, infinity_spec.
  destruct Hn as [[s ->]|(s & m & e & -> & _)]; reflexivity.
Qed.

(** [float(n)] is exact below [2^53]. *)
Lemma float_of_int_spec (n K : Z) :
  0 <= n < 2 ^ 53 -> 52 <= K ->
  exists g, float_of_int n = Return g /\
            normal (-52) 1 (Prim2SF g) /\
            scaled_value K (Prim2SF g) = n * 2 ^ K.
Proof.
  intros Hn HK. unfold float_of_int.
  assert (Hlog : 0 <= Z.log2 (Z.abs n) <= 52).
  { split; [apply Z.log2_nonneg|]. rewrite Z.abs_eq by lia.
    destruct (Z.eq_dec n 0) as [->|]; [simpl; lia|].
    assert (Z.log2 n < 53) by (apply Z.log2_lt_pow2; lia). lia. }
  destruct (binary_normalize_spec n 0 K) as [Hnorm Hv]; try lia.
  apply (normal_weaken _ _ (-52) 1) in Hnorm; try lia.
  destruct (normal_is_finite (-52) 1 _ ltac:(lia) ltac:(lia) Hnorm) as [E Hfin].
  rewrite Hfin. eexists. split; [reflexivity|]. rewrite E. split; [exact Hnorm|].
  rewrite Hv. change (0 + K) with K. apply rounds_exact; [rewrite Z.abs_eq|]; lia.
Qed.

(** [int(f)] is the value of [f] truncated toward zero. *)
Lemma int_of_float_spec (g : float) (lo hi K : Z) :
  normal lo hi (Prim2SF g) -> 0 <= lo + K -> 0 <= K ->
  int_of_float g = Return (Z.quot (scaled_value K (Prim2SF g)) (2 ^ K)).
Proof.
  intros Hn HK HK0. unfold int_of_float.
  assert (HP : 0 < 2 ^ K) by (apply Z.pow_pos_nonneg; lia).
  destruct Hn as [[s ->]|(s & m & e & -> & Hm & He)].
  - cbn [scaled_value]. now rewrite Z.quot_0_l by lia.
  - f_equal. cbn [scaled_value].
    assert (Ha : (if 0 <=? e then Z.pos m * 2 ^ e else Z.pos m / 2 ^ (- e))
                 = Z.quot (Z.pos m * 2 ^ (e + K)) (2 ^ K)).
    { assert (0 < 2 ^ (e + K)) by (apply Z.pow_pos_nonneg; lia).
      rewrite Z.quot_div_nonneg by nia.
      destruct (Z.leb_spec 0 e).
      - rewrite (Z.pow_add_r 2 e K), Z.mul_assoc, Z.div_mul by lia. reflexivity.
      - assert (E2 : 2 ^ K = 2 ^ (- e) * 2 ^ (e + K)).
        { rewrite <- Z.pow_add_r by lia. f_equal. lia. }
        rewrite E2.
        rewrite Z.div_mul_cancel_r; [reflexivity| |]; apply Z.pow_nonzero; lia. }
    rewrite Ha. destruct s; cbn [cond_Zopp]; [|reflexivity].
    now rewrite Z.quot_opp_l by lia.
Qed.

(** Between 0 and [2^40] the float computation of the fallback neither
    raises nor departs from the exact value truncated toward zero. *)
Lemma fallback_damage_wide (base armor : Z) (critical : bool) :
  0 <= base <= 2 ^ 40 -> 0 <= armor <= 2 ^ 40 ->
  AIGenerator.fallback_damage base critical armor
  = Return (Z.quot ((if critical then 15 else 10) * base - 3 * armor) 10).
Proof.
  intros Hb Ha. unfold AIGenerator.fallback_damage.
  destruct (float_of_int_spec armor 60 ltac:(lia) ltac:(lia)) as (ga & Ega & Hna & Hva).
  assert (Ht : normal (-54) 3 (Prim2SF (PrimFloat.mul ga three_tenths)) /\
               scaled_value 114 (Prim2SF (PrimFloat.mul ga three_tenths))
               = rounds (armor * M03 * 2 ^ 60)).
  { rewrite mul_spec, three_tenths_spec.
    destruct (SFmul_spec (Prim2SF ga) (S754_finite false 5404319552844595 (-54))
                         (-52) 1 (-54) (-54) 60 54) as [Hn Hv]; try lia.
    - exact Hna.
    - right. exists false, 5404319552844595%positive, (-54).
      split; [reflexivity|]. split; lia.
    - split; [apply (normal_weaken _ _ (-54) 3) in Hn; [exact Hn | lia | lia]|].
      change (60 + 54) with 114 in Hv. rewrite Hv, Hva. f_equal.
      cbn [scaled_value cond_Zopp]. change (2 ^ (-54 + 54)) with 1. unfold M03. ring. }
  destruct Ht as [Hnt Hvt].
  assert (Hs : exists scaled,
             (if critical
              then obind (float_of_int base)
                         (fun b => Return (PrimFloat.mul b one_and_half))
              else float_of_int base) = Return scaled /\
             normal (-54) 3 (Prim2SF scaled) /\
             scaled_value 114 (Prim2SF scaled)
             = (if critical then 3 else 2) * base * 2 ^ 53 * 2 ^ 60).
  { destruct critical.
    - destruct (float_of_int_spec base 62 ltac:(lia) ltac:(lia)) as (gb & Egb & Hnb & Hvb).
      rewrite Egb. cbn [obind]. eexists. split; [reflexivity|].
      rewrite mul_spec, one_and_half_spec.
      destruct (SFmul_spec (Prim2SF gb) (S754_finite false 6755399441055744 (-52))
                           (-52) 1 (-52) (-52) 62 52) as [Hn Hv]; try lia.
      + exact Hnb.
      + right. exists false, 6755399441055744%positive, (-52).
        split; [reflexivity|]. split; lia.
      + split; [apply (normal_weaken _ _ (-54) 3) in Hn; [exact Hn | lia | lia]|].
        change (62 + 52) with 114 in Hv. rewrite Hv, Hvb.
        cbn [scaled_value cond_Zopp]. change (2 ^ (-52 + 52)) with 1.
        replace (base * 2 ^ 62 * (6755399441055744 * 1)) with ((3 * base) * 2 ^ 113)
          by (change 6755399441055744 with (3 * 2 ^ 51);
              change (2 ^ 113) with (2 ^ 62 * 2 ^ 51); ring).
        rewrite rounds_exact by (rewrite ?Z.abs_eq; lia).
        change (2 ^ 113) with (2 ^ 53 * 2 ^ 60). ring.
    - destruct (float_of_int_spec base 114 ltac:(lia) ltac:(lia)) as (gb & Egb & Hnb & Hvb).
      exists gb. split; [exact Egb|].
      split; [apply (normal_weaken _ _ (-54) 3) in Hnb; [exact Hnb | lia | lia]|].
      rewrite Hvb. change (2 ^ 114) with (2 * 2 ^ 53 * 2 ^ 60). ring. }
  destruct Hs as (scaled & Es & Hns & Hvs).
  change (@obind float Z ?m ?k) with (obind m k).
  rewrite Es, Ega. cbn [obind].
  destruct (SFsub_spec (Prim2SF scaled) (Prim2SF (PrimFloat.mul ga three_tenths))
                       (-54) 3 114 Hns Hnt ltac:(lia) ltac:(lia) ltac:(lia)) as [Hnr Hvr].
  rewrite <- sub_spec in Hnr, Hvr.
  rewrite (int_of_float_spec _ _ _ 114 Hnr) by lia.
  rewrite Hvr, Hvs, Hvt. f_equal.
  change (2 ^ 114) with (2 ^ (60 + 54)).
  rewrite (fallback_rounding 60 base armor (if critical then 3 else 2)); try lia.
  - destruct critical; f_equal; ring.
  - destruct critical; auto.
Qed.

(** The same on the smaller range the battle lemmas below are stated for. *)
Lemma fallback_damage_exact (base armor : Z) (critical : bool) :
  0 <= base <= 255 -> 0 <= armor <= 255 ->
  AIGenerator.fallback_damage base critical armor
  = Return (Z.quot ((if critical then 15 else 10) * base - 3 * armor) 10).
Proof.
  intros Hb Ha. apply fallback_damage_wide; change (2 ^ 40) with 1099511627776; lia.
Qed.

(** X10: outside that range the floats show.  Near [2^53] they no longer
    hold the base: the code computes
    [int(9007199254740995 - 1 * 0.3) = 9007199254740996], two more than the
    exact value truncated.  And an armor beyond the range of binary64
    ([10^400], which the JSON of the generator may hold) makes the
    fallback, and with it [calculate_damage], raise [OverflowError]. *)
Theorem fallback_damage_outside_the_range :
  AIGenerator.fallback_damage 9007199254740995 false 1 = Return 9007199254740996 /\
  Z.quot (10 * 9007199254740995 - 3 * 1) 10 = 9007199254740994 /\
  AIGenerator.fallback_damage 15 false (10 ^ 400) = Raise OverflowError /\
  AIGenerator.calculate_damage Basic.table Sample.plain_action Sample.bob
                               (Enemy.mk (utf8 "Wall") 50 50 (10 ^ 400) 10 20 10) NoObject
  = Raise OverflowError.
Proof. repeat split; vm_compute; reflexivity. Qed.

Section Fallback.
Context (U : Unicode).


End Fallback.



(* ===================================================================== *)
(** ** Repository round trips *)

Section RoundTrips.

Lemma fetchall_app {Row : Type} (key : Row -> Z) (k : Z) (rows rows' : list Row) :
  fetchall key k (rows ++ rows') = fetchall key k rows ++ fetchall key k rows'.
Proof.
  induction rows as [|r rows IH]; simpl; [reflexivity|].
  destruct (key r =? k); simpl; now rewrite IH.
Qed.

(** X1: a character whose fields fit the columns of [characters] (BIGINT
    key, INTEGER numbers, TEXT without NUL) is, once saved, read back under
    its key; the characters of other keys are read as before, saving it
    again changes nothing, and the other two tables are untouched. *)
Theorem save_then_get_character (c : Character.t) (db : DB) (k : Z) :
  storable c = true ->
  k <> Character.user_id c ->
  let db' := snd (save_character c db) in
  get_character (Character.user_id c) db' = (Return (Some c), db') /\
  get_character k db' = (Return (character_of db k), db') /\
  snd (save_character c db') = db' /\
  inventory db' = inventory db /\
  active_battles db' = active_battles db.
Proof.
  intros _ Hk db'. unfold get_character.
  split; [|split; [|split; [|split; reflexivity]]].
  - subst db'. now rewrite character_of_save.
  - unfold character_of; subst db'; simpl.
    now rewrite (fetchone_upsert_ne Character.user_id k c).
  - subst db'. unfold save_character; simpl. f_equal.
    generalize (characters db). intros rows.
    induction rows as [|r rows IH]; simpl.
    + now rewrite Z.eqb_refl.
    + destruct (Z.eqb_spec (Character.user_id r) (Character.user_id c)) as [E|E]; simpl.
      * now rewrite Z.eqb_refl.
      * destruct (Z.eqb_spec (Character.user_id r) (Character.user_id c));
          [contradiction | now rewrite IH].
Qed.

(** X2: for a player who has a character row (the row the foreign key of
    [active_battles] refers to), a saved battle is read back and a cleared
    one is gone, other players' battles are read as before, clearing after
    a save equals clearing alone, clearing twice equals clearing once, and
    the other two tables are untouched. *)
Theorem save_get_clear_battle (uid : Z) (c : Character.t) (e : Enemy.t) (db : DB)
        (k : Z) :
  character_of db uid = Some c ->
  k <> uid ->
  let saved := snd (save_battle uid e db) in
  let cleared := snd (clear_battle uid db) in
  get_battle uid saved = (Return (Some e), saved) /\
  get_battle k saved = (Return (battle_of db k), saved) /\
  get_battle uid cleared = (Return None, cleared) /\
  get_battle k cleared = (Return (battle_of db k), cleared) /\
  snd (clear_battle uid saved) = snd (clear_battle uid cleared) /\
  snd (clear_battle uid cleared) = cleared /\
  characters saved = characters db /\ inventory saved = inventory db /\
  characters cleared = characters db /\ inventory cleared = inventory db.
Proof.
  intros _ Hk saved cleared. unfold get_battle.
  assert (Hdel : forall rows : list (Z * Enemy.t),
             delete_where fst uid (delete_where fst uid rows) = delete_where fst uid rows).
  { induction rows as [|r rows IH]; simpl; [reflexivity|].
    destruct (fst r =? uid) eqn:E; simpl; [exact IH | now rewrite E, IH]. }
  assert (Hups : forall rows : list (Z * Enemy.t),
             delete_where fst uid (upsert fst (uid, e) rows) = delete_where fst uid rows).
  { induction rows as [|r rows IH]; simpl.
    - now rewrite Z.eqb_refl.
    - destruct (fst r =? uid) eqn:E; simpl.
      + now rewrite Z.eqb_refl.
      + now rewrite E, IH. }
  repeat split.
  - subst saved. now rewrite battle_of_save.
  - subst saved. unfold battle_of; simpl.
    now rewrite (fetchone_upsert_ne fst k (uid, e)).
  - subst cleared. now rewrite battle_of_clear.
  - subst cleared. unfold battle_of; simpl. now rewrite fetchone_delete_ne.
  - subst saved cleared. unfold clear_battle, save_battle; simpl.
    now rewrite Hups, Hdel.
  - subst cleared. unfold clear_battle; simpl. now rewrite Hdel.
Qed.


End RoundTrips.

(* ===================================================================== *)
(** ** Every operation writes the rows of its own player *)

Section Own.
Context (U : Unicode).

Lemma writes_trans (uid : Z) (db1 db2 db3 : DB) :
  writes uid db1 db2 -> writes uid db2 db3 -> writes uid db1 db3.
Proof.
  induction 1 as [|? ? ? Hw _ IH]; [auto|].
  intros H3. eapply writes_step; [exact Hw | auto].
Qed.

Lemma writes_one (uid : Z) (db db' : DB) : write uid db db' -> writes uid db db'.
Proof. intros Hw. eapply writes_step; [exact Hw | apply writes_done]. Qed.

Lemma own_ret {A} (uid : Z) (a : A) : own uid (ret a).
Proof. intros db. apply writes_done. Qed.

Lemma own_lift {A} (uid : Z) (o : outcome A) : own uid (lift o).
Proof. intros db. apply writes_done. Qed.

Lemma own_bind {A B} (uid : Z) (m : M A) (k : A -> M B) :
  own uid m -> (forall a, own uid (k a)) -> own uid (bind m k).
Proof.
  intros Hm Hk db. unfold bind. specialize (Hm db).
  destruct (m db) as [[a|e] db1]; simpl in *; [|exact Hm].
  eapply writes_trans; [exact Hm | apply Hk].
Qed.

(** Reading a character hands over a row that carries the key asked for. *)
Lemma own_bind_get_character {B} (uid : Z) (k : option Character.t -> M B) :
  (forall oc, (forall c, oc = Some c -> Character.user_id c = uid) -> own uid (k oc)) ->
  own uid (bind (get_character uid) k).
Proof.
  intros Hk db. unfold bind, get_character.
  apply Hk. intros c Hc. now apply (character_of_key db).
Qed.

Lemma own_get_battle (uid : Z) : own uid (get_battle uid).
Proof. intros db. apply writes_done. Qed.

Lemma own_get_inventory (uid : Z) : own uid (get_inventory uid).
Proof. intros db. apply writes_done. Qed.

Lemma own_save_character (uid : Z) (c : Character.t) :
  Character.user_id c = uid -> own uid (save_character c).
Proof. intros Hc db. apply writes_one. now constructor. Qed.

Lemma own_add_item (uid : Z) (item : Item.t) : own uid (add_item uid item).
Proof. intros db. apply writes_one. constructor. Qed.

Lemma own_save_battle (uid : Z) (e : Enemy.t) : own uid (save_battle uid e).
Proof. intros db. apply writes_one. constructor. Qed.

Lemma own_clear_battle (uid : Z) : own uid (clear_battle uid).
Proof. intros db. apply writes_one. constructor. Qed.

Lemma own_bind_lift {A B} (uid : Z) (o : outcome A) (k : A -> M B) :
  (forall a, o = Return a -> own uid (k a)) -> own uid (bind (lift o) k).
Proof.
  intros Hk db. unfold bind, lift.
  destruct o as [a|e]; [now apply Hk | apply writes_done].
Qed.

Ltac own_steps :=
  repeat first
    [ apply own_ret | apply own_lift | apply own_get_battle | apply own_get_inventory
    | apply own_add_item | apply own_save_battle | apply own_clear_battle
    | apply own_save_character; simpl; solve [auto]
    | apply own_bind; [|intros ?] ].

Lemma own_create_character (uid : Z) (name : str) : own uid (create_character uid name).
Proof. unfold create_character. own_steps. Qed.

Lemma own_process_action (uid : Z) (action result_text : str) :
  own uid (process_action U uid action result_text).
Proof.
  unfold process_action. apply own_bind_get_character. intros oc Hkey.
  apply own_bind_lift. intros c Hc.
  destruct oc as [c0|]; [|discriminate]. injection Hc as ->.
  specialize (Hkey c eq_refl).
  apply own_bind; [|intros; apply own_ret].
  destruct (re_search (purchase_re U) result_text) as [m|]; [|apply own_ret].
  destruct (int U (group 2 m) <=? Character.gold c); own_steps.
Qed.

Lemma own_start_battle (uid : Z) (reply : Reply EnemyJson.t) :
  own uid (start_battle uid reply).
Proof.
  unfold start_battle. apply own_bind_get_character. intros oc Hkey.
  apply own_bind_lift. intros c Hc. own_steps.
Qed.

Lemma own_victory (uid : Z) (c : Character.t) (e : Enemy.t) (r : AttackReport.t) :
  Character.user_id c = uid -> own uid (victory uid c e r).
Proof.
  intros Hc. unfold victory.
  destruct (_ <=? _); own_steps.
Qed.

Lemma own_counterattack (uid : Z) (c : Character.t) (e : Enemy.t) (r : AttackReport.t) :
  Character.user_id c = uid -> own uid (counterattack uid c e r).
Proof.
  intros Hc db. unfold counterattack, bind, ret.
  destruct (_ <=? 0); cbn [fst snd clear_battle save_battle].
  - eapply writes_step; [apply write_clear|].
    apply writes_one. apply write_character. exact Hc.
  - eapply writes_step; [apply (write_battle uid e)|].
    apply writes_one. apply write_character. exact Hc.
Qed.

Lemma own_process_attack (uid : Z) (action : str) (reply : Reply Judgement.t) :
  own uid (process_attack U uid action reply).
Proof.
  unfold process_attack. apply own_bind_get_character. intros oc Hkey.
  apply own_bind; [apply own_get_battle|]. intros [e|]; [|apply own_ret].
  apply own_bind_lift. intros c Hc.
  destruct oc as [c0|]; [|discriminate]. injection Hc as ->.
  specialize (Hkey c eq_refl).
  apply own_bind_lift. intros j _.
  apply own_bind_lift. intros d _.
  apply own_bind_lift. intros desc _.
  destruct (_ <=? 0); [now apply own_victory | now apply own_counterattack].
Qed.

Lemma own_arrive (uid : Z) (location_desc : str) (enemy : Reply EnemyJson.t) :
  own uid (Bot.arrive uid location_desc enemy).
Proof.
  unfold Bot.arrive. destruct (contains _ _); [|apply own_ret].
  apply own_bind; [apply own_start_battle | intros; apply own_ret].
Qed.

Lemma own_handle_message (uid : Z) (text : str) (awaiting_name : bool) (g : Replies) :
  own uid (Bot.handle_message U uid text awaiting_name g).
Proof.
  unfold Bot.handle_message. destruct awaiting_name.
  { apply own_bind; [apply own_create_character | intros; apply own_ret]. }
  apply own_bind; [apply own_get_battle|]. intros [e|].
  { apply own_bind; [apply own_process_attack | intros; apply own_ret]. }
  apply own_bind_get_character. intros [c|] Hkey; [|apply own_ret].
  specialize (Hkey c eq_refl).
  destruct (truthy _); [|apply own_ret].
  apply own_bind; [apply own_process_action|]. intros r.
  apply own_bind; [now apply own_save_character|]. intros _.
  destruct (ActionResult.has_enemy r); [|apply own_ret].
  apply own_bind; [apply own_start_battle | intros; apply own_ret].
Qed.

Lemma own_explore (uid : Z) (location_desc : str) (enemy : Reply EnemyJson.t) :
  own uid (Bot.explore uid location_desc enemy).
Proof.
  unfold Bot.explore. apply own_bind_get_character. intros [c|] Hkey; [|apply own_ret].
  specialize (Hkey c eq_refl).
  destruct (truthy _); [apply own_ret|].
  apply own_bind; [now apply own_save_character | intros; apply own_arrive].
Qed.

Lemma own_start (uid : Z) (awaiting_name : bool) : own uid (Bot.start uid awaiting_name).
Proof.
  unfold Bot.start. apply own_bind_get_character. intros [c|] _; apply own_ret.
Qed.

Lemma own_button_callback (uid : Z) (data : Button) (location_desc : str)
      (enemy : Reply EnemyJson.t) :
  own uid (Bot.button_callback uid data location_desc enemy).
Proof.
  unfold Bot.button_callback. destruct data.
  - apply own_bind_get_character. intros oc _.
    apply own_bind; [apply own_get_inventory|]. intros items.
    apply own_bind_lift. intros c _. apply own_ret.
  - apply own_bind_get_character. intros oc _.
    apply own_bind_lift. intros c _. apply own_ret.
  - apply own_bind_get_character. intros oc _.
    apply own_bind_lift. intros c _. apply own_ret.
  - apply own_bind_get_character. intros oc Hkey.
    apply own_bind_lift. intros c Hc.
    destruct oc as [c0|]; [|discriminate]. injection Hc as ->.
    specialize (Hkey c eq_refl).
    apply own_bind; [now apply own_save_character|]. intros _.
    apply own_bind; [now apply own_save_character|]. intros _.
    apply own_bind; [apply own_arrive | intros; apply own_ret].
  - apply own_bind_get_character. intros oc _.
    apply own_bind_lift. intros c _. apply own_ret.
Qed.

End Own.

Section Requests.
Context (U : Unicode).

Lemma requests_write_own_rows (uid : Z) (request : Request) (db : DB) :
  writes uid db (after U uid request db).
Proof.
  destruct request; simpl.
  - apply own_create_character.
  - apply own_process_action.
  - apply own_start_battle.
  - apply own_process_attack.
  - apply own_start.
  - apply own_handle_message.
  - apply own_explore.
  - apply own_button_callback.
Qed.

Lemma write_same_player (uid k : Z) (db db' : DB) :
  k <> uid -> write uid db db' -> same_player k db db'.
Proof.
  intros Hk Hw. unfold same_player, character_of, battle_of, inventory_of.
  destruct Hw as [c db Hc|item db|e db|db]; simpl.
  - subst uid. rewrite (fetchone_upsert_ne Character.user_id k c) by exact Hk. auto.
  - rewrite fetchall_app. simpl.
    destruct (Z.eqb_spec uid k); [congruence|]. now rewrite app_nil_r.
  - rewrite (fetchone_upsert_ne fst k (uid, e)) by exact Hk. auto.
  - rewrite fetchone_delete_ne by exact Hk. auto.
Qed.

Lemma writes_same_player (uid k : Z) (db db' : DB) :
  k <> uid -> writes uid db db' -> same_player k db db'.
Proof.
  intros Hk. induction 1 as [db|db1 db2 db3 Hw _ IH].
  - repeat split.
  - destruct (write_same_player uid k db1 db2 Hk Hw) as (H1 & H2 & H3).
    destruct IH as (I1 & I2 & I3).
    repeat split; congruence.
Qed.

(** X4: a request of one player (an operation of the engine or a handler,
    returning or raising) leaves the character, the battle and the
    inventory of every other player as they were. *)
Theorem requests_leave_other_players_alone (uid k : Z) (request : Request) (db : DB) :
  k <> uid -> same_player k db (after U uid request db).
Proof.
  intros Hk. eapply writes_same_player; [exact Hk|].
  apply requests_write_own_rows.
Qed.

Lemma writes_only_add_items (uid : Z) (db db' : DB) :
  writes uid db db' ->
  exists added,
    inventory db' = inventory db ++ added /\ Forall (fun row => fst row = uid) added.
Proof.
  induction 1 as [db|db1 db2 db3 Hw _ IH].
  - exists []. now rewrite app_nil_r.
  - destruct IH as (added & Hinv & Hall).
    destruct Hw as [c db Hc|item db|e db|db]; simpl in Hinv.
    + exists added. auto.
    + exists ((uid, item) :: added). rewrite Hinv, <- app_assoc. split; [reflexivity|].
      constructor; auto.
    + exists added. auto.
    + exists added. auto.
Qed.

(** X5: no request removes or rewrites an inventory row: the inventory
    after a request is the inventory before it followed by rows of the
    requesting player, so every player's items stay, in order. *)
Theorem requests_only_add_items (uid : Z) (request : Request) (db : DB) :
  exists added,
    inventory (after U uid request db) = inventory db ++ added /\
    Forall (fun row => fst row = uid) added /\
    forall k, exists more, inventory_of (after U uid request db) k = inventory_of db k ++ more.
Proof.
  destruct (writes_only_add_items uid db _ (requests_write_own_rows uid request db))
    as (added & Hinv & Hall).
  exists added. split; [exact Hinv|]. split; [exact Hall|].
  intros k. unfold inventory_of. rewrite Hinv, fetchall_app, map_app. eauto.
Qed.

End Requests.

(* ===================================================================== *)
(** ** Invariants of every request *)

Section RequestInvariants.
Context (U : Unicode).

Lemma write_keeps_one_row (uid : Z) (db db' : DB) :
  write uid db db' ->
  one_character_per_player db -> one_enemy_per_player db ->
  one_character_per_player db' /\ one_enemy_per_player db'.
Proof.
  intros Hw Hchars Henemies.
  destruct Hw as [c db Hc|item db|e db|db].
  - split; [|exact Henemies].
    intros k. simpl. destruct (Z.eq_dec k (Character.user_id c)) as [->|Hk].
    + rewrite (fetchall_upsert_eq Character.user_id c) by apply Hchars. simpl; lia.
    + rewrite (fetchall_upsert_ne Character.user_id k c) by exact Hk. apply Hchars.
  - split; assumption.
  - split; [exact Hchars|].
    apply (one_enemy_after uid db); [exact Henemies|]. right; right. now exists e.
  - split; [exact Hchars|].
    apply (one_enemy_after uid db); [exact Henemies|]. right; left. reflexivity.
Qed.

Lemma writes_keep_one_row (uid : Z) (db db' : DB) :
  writes uid db db' ->
  one_character_per_player db -> one_enemy_per_player db ->
  one_character_per_player db' /\ one_enemy_per_player db'.
Proof.
  induction 1 as [db|db1 db2 db3 Hw _ IH]; intros Hc He; [auto|].
  destruct (write_keeps_one_row uid db1 db2 Hw Hc He). auto.
Qed.

Lemma preserves_ret {A} (P : DB -> Prop) (a : A) : preserves P (ret a).
Proof. intros db H; exact H. Qed.

Lemma preserves_get_battle (P : DB -> Prop) (uid : Z) : preserves P (get_battle uid).
Proof. intros db H; exact H. Qed.

Lemma preserves_get_inventory (P : DB -> Prop) (uid : Z) :
  preserves P (get_inventory uid).
Proof. intros db H; exact H. Qed.

Lemma preserves_bind {A B} (P : DB -> Prop) (m : M A) (k : A -> M B) :
  preserves P m -> (forall a, preserves P (k a)) -> preserves P (bind m k).
Proof.
  intros Hm Hk db Hdb. unfold bind. specialize (Hm db Hdb).
  destruct (m db) as [[a|e] db1]; simpl in *; [now apply Hk | exact Hm].
Qed.

Lemma preserves_bind_lift {A B} (P : DB -> Prop) (o : outcome A) (k : A -> M B) :
  (forall a, o = Return a -> preserves P (k a)) -> preserves P (bind (lift o) k).
Proof.
  intros Hk db Hdb. unfold bind, lift.
  destruct o as [a|e]; [now apply Hk | exact Hdb].
Qed.

(** A character read from a well-kept table satisfies the invariant. *)
Lemma preserves_bind_get_character {B} (uid : Z) (k : option Character.t -> M B) :
  (forall oc, (forall c, oc = Some c -> character_ok c) -> preserves state_ok (k oc)) ->
  preserves state_ok (bind (get_character uid) k).
Proof.
  intros Hk db Hdb. unfold bind, get_character.
  apply Hk; [|exact Hdb]. intros c Hc.
  apply (proj1 Hdb). eapply fetchone_In; exact Hc.
Qed.

Lemma preserves_save_character (c : Character.t) :
  character_ok c -> preserves state_ok (save_character c).
Proof.
  intros Hc db Hdb. apply (state_ok_after db); [exact Hdb| |now left].
  right. now exists c.
Qed.

Lemma location_state_keeps_ok (v : str) (c : Character.t) :
  character_ok c -> character_ok (set_location_state v c).
Proof. intros H; exact H. Qed.

Lemma preserves_arrive (uid : Z) (location_desc : str) (enemy : Reply EnemyJson.t) :
  preserves state_ok (Bot.arrive uid location_desc enemy).
Proof.
  unfold Bot.arrive. destruct (contains _ _); [|apply preserves_ret].
  apply preserves_bind; [|intros; apply preserves_ret].
  intros db Hdb. now apply start_battle_ok.
Qed.

Lemma requests_keep_state_ok (uid : Z) (request : Request) (db : DB) :
  state_ok db -> state_ok (after U uid request db).
Proof.
  destruct request; simpl.
  - apply create_character_ok.
  - apply process_action_ok.
  - apply start_battle_ok.
  - apply process_attack_ok.
  - unfold Bot.start. apply preserves_bind_get_character.
    intros [c|] _; apply preserves_ret.
  - unfold Bot.handle_message. destruct awaiting_name.
    { apply preserves_bind; [|intros; apply preserves_ret].
      intros d Hd. now apply create_character_ok. }
    apply preserves_bind; [apply preserves_get_battle|]. intros [e|].
    { apply preserves_bind; [|intros; apply preserves_ret].
      intros d Hd. now apply process_attack_ok. }
    apply preserves_bind_get_character. intros [c|] Hok; [|apply preserves_ret].
    specialize (Hok c eq_refl).
    destruct (truthy _); [|apply preserves_ret].
    apply preserves_bind; [intros d Hd; now apply process_action_ok|]. intros r.
    apply preserves_bind; [now apply preserves_save_character|]. intros _.
    destruct (ActionResult.has_enemy r); [|apply preserves_ret].
    apply preserves_bind; [|intros; apply preserves_ret].
    intros d Hd. now apply start_battle_ok.
  - unfold Bot.explore. apply preserves_bind_get_character.
    intros [c|] Hok; [|apply preserves_ret].
    specialize (Hok c eq_refl).
    destruct (truthy _); [apply preserves_ret|].
    apply preserves_bind; [now apply preserves_save_character|].
    intros _. apply preserves_arrive.
  - unfold Bot.button_callback. destruct data.
    + apply preserves_bind_get_character. intros oc _.
      apply preserves_bind; [apply preserves_get_inventory|]. intros items.
      apply preserves_bind_lift. intros c _. apply preserves_ret.
    + apply preserves_bind_get_character. intros oc _.
      apply preserves_bind_lift. intros c _. apply preserves_ret.
    + apply preserves_bind_get_character. intros oc _.
      apply preserves_bind_lift. intros c _. apply preserves_ret.
    + apply preserves_bind_get_character. intros oc Hok.
      apply preserves_bind_lift. intros c Hc.
      destruct oc as [c0|]; [|discriminate]. injection Hc as ->.
      specialize (Hok c eq_refl).
      apply preserves_bind; [now apply preserves_save_character|]. intros _.
      apply preserves_bind; [now apply preserves_save_character|]. intros _.
      apply preserves_bind; [apply preserves_arrive | intros; apply preserves_ret].
    + apply preserves_bind_get_character. intros oc _.
      apply preserves_bind_lift. intros c _. apply preserves_ret.
Qed.

(** X6: every request keeps the stored state well formed: the character
    and enemy invariants hold, and no player has two character rows or two
    battle rows. *)
Theorem requests_keep_well_formed (uid : Z) (request : Request) (db : DB) :
  well_formed db -> well_formed (after U uid request db).
Proof.
  intros (Hok & Hc & He). split; [now apply requests_keep_state_ok|].
  apply (writes_keep_one_row uid db); auto. apply requests_write_own_rows.
Qed.

Lemma empty_db_well_formed : well_formed empty_db.
Proof.
  split; [split; intros ? []|]. split; intros k; simpl; lia.
Qed.

(** X7: after any sequence of requests of any players on the empty
    database the state is well formed, and a character read for a player
    carries that player's key and satisfies [0 <= hp <= max_hp],
    [gold >= 0], [level >= 1]. *)
Theorem reachable_states_are_well_formed (requests : list (Z * Request)) :
  well_formed (after_all U requests empty_db) /\
  forall uid c,
    character_of (after_all U requests empty_db) uid = Some c ->
    Character.user_id c = uid /\ character_ok c.
Proof.
  assert (H : forall db, well_formed db -> well_formed (after_all U requests db)).
  { unfold after_all. induction requests as [|[uid r] rs IH]; simpl; [auto|].
    intros db (Hok & Hc & He). apply IH.
    split; [now apply requests_keep_state_ok|].
    apply (writes_keep_one_row uid db); auto. apply requests_write_own_rows. }
  specialize (H empty_db empty_db_well_formed).
  split; [exact H|]. intros uid c Hc. split.
  - eapply character_of_key; exact Hc.
  - apply (proj1 (proj1 H)). eapply fetchone_In; exact Hc.
Qed.

End RequestInvariants.

(* ===================================================================== *)
(** ** Edge behaviour of the engine *)

Section EngineEdges.
Context (U : Unicode).

(** X8: [create_character] returns and stores the default character
    (also over an existing one of the same player) and appends the three
    starter items, in order, behind the items the player already had; the
    battles are untouched. *)
Theorem create_character_grants_starter_kit (uid : Z) (name : str) (db : DB) :
  exists db',
    create_character uid name db = (Return (Character.default uid name), db') /\
    character_of db' uid = Some (Character.default uid name) /\
    inventory db' = inventory db ++ map (pair uid) starter_items /\
    inventory_of db' uid = inventory_of db uid ++ starter_items /\
    active_battles db' = active_battles db.
Proof.
  eexists. split; [reflexivity|]. simpl.
  split; [apply (fetchone_upsert_eq Character.user_id (Character.default uid name))|].
  split; [now rewrite <- !app_assoc|].
  split; [|reflexivity].
  unfold inventory_of; simpl. rewrite !fetchall_app, !map_app. simpl.
  rewrite Z.eqb_refl. simpl. now rewrite <- !app_assoc.
Qed.

(** X9: for a player without a character, [process_action], [start_battle],
    [process_attack] on a stored battle and every button raise
    [AttributeError] and write nothing, while [explore] asks for a character
    and writes nothing. *)
Theorem missing_character_raises (uid : Z) (db : DB) :
  character_of db uid = None ->
  (forall action result_text,
      process_action U uid action result_text db = (Raise AttributeError, db)) /\
  (forall reply, start_battle uid reply db = (Raise AttributeError, db)) /\
  (forall action reply e,
      battle_of db uid = Some e ->
      process_attack U uid action reply db = (Raise AttributeError, db)) /\
  (forall data location_desc enemy,
      Bot.button_callback uid data location_desc enemy db = (Raise AttributeError, db)) /\
  (forall location_desc enemy,
      Bot.explore uid location_desc enemy db = (Return NoCharacter, db)).
Proof.
  intros Hc. repeat split; intros.
  - unfold process_action, bind, get_character. now rewrite Hc.
  - unfold start_battle, bind, get_character. now rewrite Hc.
  - unfold process_attack, bind, get_character, get_battle. now rewrite Hc, H.
  - unfold Bot.button_callback, bind, get_character, get_inventory.
    destruct data; now rewrite Hc.
  - unfold Bot.explore, bind, get_character. now rewrite Hc.
Qed.

(** X11: a decoded judgement without the [damage] key, or with an integer
    under [damage] and without the [description] key, is not replaced by
    the fallback: the attack raises [KeyError] and nothing is written. *)
Theorem judgement_without_key_raises (uid : Z) (action : str) (j : Judgement.t)
        (db : DB) (c : Character.t) (e : Enemy.t) :
  character_of db uid = Some c ->
  battle_of db uid = Some e ->
  Judgement.damage j = None \/
  ((exists d : Z, Judgement.damage j = Some d) /\ Judgement.description j = None) ->
  process_attack U uid action (Decoded j) db = (Raise KeyError, db).
Proof.
  intros Hc He Hmiss.
  unfold process_attack, bind, get_character, get_battle, lift.
  rewrite Hc, He. cbn [deref AIGenerator.calculate_damage].
  destruct (Judgement.damage j) as [d|]; [|reflexivity]. cbn [getitem].
  destruct Hmiss as [Hd|[_ Hdesc]]; [discriminate|]. now rewrite Hdesc.
Qed.

(** X12: whenever the fallback of [calculate_damage] returns, its
    judgement holds all three keys and a damage of at least 1, for all
    integer stats. *)
Theorem fallback_judgement_is_complete (action : str) (c : Character.t) (e : Enemy.t)
        (reply : Reply Judgement.t) (j : Judgement.t) :
  reply = NoObject \/ reply = Undecodable ->
  AIGenerator.calculate_damage U action c e reply = Return j ->
  exists d,
    Judgement.damage j = Some d /\ 1 <= d /\
    Judgement.critical j = Some (AIGenerator.is_critical U action) /\
    Judgement.description j = Some (utf8 "Удар достигает цели!").
Proof.
  intros Hreply Hj.
  assert (Hrun : AIGenerator.calculate_damage U action c e reply
                 = obind (AIGenerator.fallback_damage
                            (Character.strength c + Character.agility c / 2)
                            (AIGenerator.is_critical U action) (Enemy.armor e))
                         (fun damage =>
                            Return (Judgement.mk (Some (Z.max 1 damage))
                                                 (Some (AIGenerator.is_critical U action))
                                                 (Some (utf8 "Удар достигает цели!"))))).
  { destruct Hreply as [->| ->]; reflexivity. }
  rewrite Hrun in Hj.
  destruct (AIGenerator.fallback_damage _ _ _) as [damage|]; [|discriminate].
  injection Hj as <-. exists (Z.max 1 damage). cbn [Judgement.damage Judgement.critical Judgement.description].
  repeat split. lia.
Qed.

End EngineEdges.

(* ===================================================================== *)
(** ** Enemies *)

Section Enemies.

(** X13: without a decoded reply the generated enemy's hit points, armor
    and damage do not decrease with the level (they grow by 20, 3 and 3 per
    level); a decoded reply yields the same enemy at every level. *)
Theorem fallback_enemy_scales_with_level (level level' : Z) (location location' : str)
        (reply : Reply EnemyJson.t) :
  level <= level' ->
  let low := AIGenerator.generate_enemy level location reply in
  let high := AIGenerator.generate_enemy level' location' reply in
  EnemyData.hp low <= EnemyData.hp high /\
  EnemyData.armor low <= EnemyData.armor high /\
  EnemyData.damage low <= EnemyData.damage high /\
  (forall d, reply = Decoded d -> low = high) /\
  (reply = NoObject \/ reply = Undecodable ->
   EnemyData.hp high - EnemyData.hp low = 20 * (level' - level) /\
   EnemyData.armor high - EnemyData.armor low = 3 * (level' - level) /\
   EnemyData.damage high - EnemyData.damage low = 3 * (level' - level)).
Proof.
  intros Hle. cbv zeta.
  destruct reply as [| |d]; cbn -[Z.mul Z.add];
    (split; [lia|]); (split; [lia|]); (split; [lia|]); split;
    try discriminate; try reflexivity; try lia;
    intros; try lia; try (destruct H; discriminate).
Qed.

(** X14: [start_battle] for a stored character returns that character and
    an enemy at full health, leaves characters and inventory untouched,
    builds the level-scaled wolf when the reply is not decoded and falls
    back to hit points 50, armor 5, damage 10 for the keys a decoded reply
    lacks. *)
Theorem start_battle_sets_a_fresh_enemy (uid : Z) (reply : Reply EnemyJson.t) (db : DB)
        (c : Character.t) :
  character_of db uid = Some c ->
  exists e db',
    start_battle uid reply db = (Return (c, e), db') /\
    Enemy.hp e = Enemy.max_hp e /\
    characters db' = characters db /\
    inventory db' = inventory db /\
    (reply = NoObject \/ reply = Undecodable ->
     e = Enemy.mk (utf8 "Дикий волк")
                  (50 + Character.level c * 20) (50 + Character.level c * 20)
                  (Character.level c * 3) (5 + Character.level c * 3)
                  (20 * Character.level c) (10 * Character.level c)) /\
    (forall d, reply = Decoded d ->
               Enemy.hp e = get (EnemyJson.hp d) 50 /\
               Enemy.armor e = get (EnemyJson.armor d) 5 /\
               Enemy.damage e = get (EnemyJson.damage d) 10).
Proof.
  intros Hc. unfold start_battle, bind, get_character. rewrite Hc. simpl.
  eexists _, _. split; [reflexivity|]. simpl.
  repeat split; try reflexivity.
  - intros [->| ->]; reflexivity.
  - subst reply; reflexivity.
  - subst reply; reflexivity.
  - subst reply; reflexivity.
Qed.

End Enemies.

(* ===================================================================== *)
(** ** Substrings and the encounter flag *)

Section Substrings.
Context (U : Unicode).

Lemma startswith_iff (needle hay : str) :
  startswith needle hay = true <-> exists post, hay = needle ++ post.
Proof.
  revert hay. induction needle as [|a n IH]; intros hay; simpl.
  - split; [intros _; now exists hay | reflexivity].
  - destruct hay as [|b h].
    + split; [discriminate | intros (post & Hp); discriminate].
    + rewrite andb_true_iff, N.eqb_eq, IH. split.
      * intros (-> & post & ->). now exists post.
      * intros (post & [= -> ->]). split; [reflexivity | now exists post].
Qed.

Lemma contains_iff (needle hay : str) :
  contains needle hay = true <-> exists pre post, hay = pre ++ needle ++ post.
Proof.
  induction hay as [|b h IH].
  - cbn [contains]. rewrite orb_false_r, startswith_iff. split.
    + intros (post & ->). now exists [], post.
    + intros (pre & post & H). destruct pre; [now exists post|discriminate].
  - cbn [contains]. rewrite orb_true_iff, startswith_iff, IH. split.
    + intros [(post & ->)|(pre & post & ->)].
      * now exists [], post.
      * now exists (b :: pre), post.
    + intros (pre & post & H). destruct pre as [|p pre].
      * left. now exists post.
      * right. injection H as -> ->. now exists pre, post.
Qed.

(** X15: [process_action] flags an encounter exactly when the text holds
    the marker "ВРАГ:" as a substring, or its lower-cased form holds "враг"
    and one of the four verbs as substrings. *)
Theorem encounter_flag (text : str) :
  detect_enemy U text = true <->
  (exists pre post, text = pre ++ utf8 "ВРАГ:" ++ post) \/
  ((exists pre post, lower U text = pre ++ utf8 "враг" ++ post) /\
   exists verb pre post,
     In verb [utf8 "нападает"; utf8 "атакует"; utf8 "бросается"; utf8 "выскакивает"] /\
     lower U text = pre ++ verb ++ post).
Proof.
  unfold detect_enemy.
  rewrite orb_true_iff, andb_true_iff, existsb_exists, !contains_iff.
  split.
  - intros [H|[H (verb & Hin & Hv)]]; [now left|].
    right. split; [exact H|]. apply contains_iff in Hv.
    destruct Hv as (pre & post & Hv). now exists verb, pre, post.
  - intros [H|[H (verb & pre & post & Hin & Hv)]]; [now left|].
    right. split; [exact H|]. exists verb. split; [exact Hin|].
    apply contains_iff. now exists pre, post.
Qed.

(** X16: the fallback marks an attack critical exactly when the
    lower-cased action text holds "крит" or "точно" as a substring, so
    inside longer words too. *)
Theorem critical_flag (action : str) :
  AIGenerator.is_critical U action = true <->
  exists pre post,
    lower U action = pre ++ utf8 "крит" ++ post \/
    lower U action = pre ++ utf8 "точно" ++ post.
Proof.
  unfold AIGenerator.is_critical. rewrite orb_true_iff, !contains_iff. split.
  - intros [(pre & post & H)|(pre & post & H)]; exists pre, post; auto.
  - intros (pre & post & [H|H]); [left | right]; now exists pre, post.
Qed.

End Substrings.

(* ===================================================================== *)
(** ** The purchase line *)

Section PurchaseParser.
Context (U : Unicode).

(** As [match_here_cons], with the groups. *)
Lemma match_here_cons_groups (a : atom) (re : regex) (s : str) (groups : list str) :
  match_here (a :: re) s = Some groups ->
  exists m rest groups',
    s = m ++ rest /\ forallb (cls a) m = true /\
    match_here re rest = Some groups' /\
    groups = (if capture a then m :: groups' else groups') /\
    (rep a = Once -> exists c, m = [c]) /\
    (rep a = Plus -> m <> []).
Proof.
  simpl. destruct (rep a) eqn:Hrep.
  - destruct s as [|c s]; [discriminate|].
    destruct (cls a c) eqn:Hc; [|discriminate].
    destruct (match_here re s) as [g|] eqn:Hre; [|discriminate].
    intros [= <-]. exists [c], s, g. simpl. rewrite Hc.
    repeat split; eauto. discriminate.
  - intros Hg. apply greedy_sound in Hg. destruct Hg as (m & rest & -> & Hm & Hk).
    simpl in Hk.
    destruct (match_here re rest) as [g|] eqn:Hre; [|discriminate].
    injection Hk as <-.
    exists m, rest, g. repeat split; auto; discriminate.
  - intros Hg. apply greedy_sound in Hg. destruct Hg as (m & rest & -> & Hm & Hk).
    simpl in Hk. destruct m as [|c m]; [discriminate|].
    destruct (match_here re rest) as [g|] eqn:Hre; [|discriminate].
    injection Hk as <-.
    exists (c :: m), rest, g. repeat split; auto; discriminate.
Qed.

Lemma match_here_lit_groups (l : str) (re : regex) (s : str) (groups : list str) :
  match_here (lit l ++ re) s = Some groups ->
  exists rest, s = l ++ rest /\ match_here re rest = Some groups.
Proof.
  revert s groups. induction l as [|c l IH]; intros s groups.
  - simpl. eauto.
  - change (lit (c :: l) ++ re) with (Atom (N.eqb c) Once false :: (lit l ++ re)).
    intros H. apply match_here_cons_groups in H.
    destruct H as (m & rest & g & -> & Hm & Hre & Hg & Honce & _).
    destruct (Honce eq_refl) as (c' & ->).
    cbn [forallb cls] in Hm. rewrite andb_true_r in Hm. apply N.eqb_eq in Hm. subst c'.
    cbn [capture] in Hg. subst g.
    destruct (IH _ _ Hre) as (rest' & -> & Hre').
    exists rest'. split; [reflexivity | exact Hre'].
Qed.


End PurchaseParser.

Section PurchaseParserComplete.
Context (U : Unicode).

Lemma match_here_once (p : codepoint -> bool) (cap : bool) (re : regex) (c : codepoint)
      (s : str) (g : list str) :
  p c = true -> match_here re s = Some g ->
  match_here (Atom p Once cap :: re) (c :: s) = Some (if cap then [c] :: g else g).
Proof. intros Hc Hre. cbn [match_here rep cls capture]. now rewrite Hc, Hre. Qed.

Lemma match_here_star (p : codepoint -> bool) (cap : bool) (re : regex)
      (run post : str) (g : list str) :
  forallb p run = true ->
  (post = [] \/ exists c post', post = c :: post' /\ p c = false) ->
  match_here re post = Some g ->
  match_here (Atom p Star cap :: re) (run ++ post) = Some (if cap then run :: g else g).
Proof.
  intros Hrun Hpost Hre. cbn [match_here rep cls capture].
  apply greedy_takes_run; auto. simpl. now rewrite Hre.
Qed.

Lemma match_here_plus (p : codepoint -> bool) (cap : bool) (re : regex)
      (run post : str) (g : list str) :
  run <> [] ->
  forallb p run = true ->
  (post = [] \/ exists c post', post = c :: post' /\ p c = false) ->
  match_here re post = Some g ->
  match_here (Atom p Plus cap :: re) (run ++ post) = Some (if cap then run :: g else g).
Proof.
  intros Hne Hrun Hpost Hre. cbn [match_here rep cls capture].
  apply greedy_takes_run; auto. simpl.
  destruct run; [contradiction|]. now rewrite Hre.
Qed.

Lemma match_here_lit_ok (l : str) (re : regex) (s : str) (g : list str) :
  match_here re s = Some g -> match_here (lit l ++ re) (l ++ s) = Some g.
Proof.
  intros Hre. induction l as [|c l IH]; [exact Hre|].
  change (lit (c :: l) ++ re) with (Atom (N.eqb c) Once false :: (lit l ++ re)).
  change ((c :: l) ++ s) with (c :: (l ++ s)).
  rewrite (match_here_once _ false _ c _ g); [reflexivity | apply N.eqb_refl | exact IH].
Qed.

Lemma starts_solid_boundary (s rest : str) :
  starts_solid U s = true ->
  s ++ rest = [] \/ exists c post', s ++ rest = c :: post' /\ isspace U c = false.
Proof.
  destruct s as [|c s]; [discriminate|]. simpl. intros Hc.
  right. exists c, (s ++ rest). split; [reflexivity|]. now apply negb_true_iff.
Qed.

Lemma starts_solid_nonempty (s : str) : starts_solid U s = true -> s <> [].
Proof. destruct s; [discriminate | discriminate]. Qed.

(** The search does not start a match before the first capital Pe. *)
Lemma re_search_skip (pre s : str) :
  forallb (fun c => negb (c =? 1055)%N) pre = true ->
  re_search (purchase_re U) (pre ++ s) = re_search (purchase_re U) s.
Proof.
  induction pre as [|c pre IH]; [reflexivity|].
  cbn [forallb]. rewrite andb_true_iff, negb_true_iff. intros [Hc Hpre].
  change ((c :: pre) ++ s) with (c :: (pre ++ s)). cbn [re_search].
  assert (Hm : match_here (purchase_re U) (c :: pre ++ s) = None).
  { unfold purchase_re.
    change (lit (utf8 "ПОКУПКА:")) with
      (Atom (N.eqb 1055) Once false :: lit (utf8 "ОКУПКА:")).
    cbn [app match_here rep cls].
    rewrite N.eqb_sym, Hc. reflexivity. }
  rewrite Hm. now apply IH.
Qed.

(** X18: a purchase line with blanks only after the label and after the
    bars is parsed into exactly its four fields, wherever it stands in a text
    that holds no capital Pe before it, given that the bar is neither a digit
    nor a word character. *)
Theorem purchase_line_parses (pre ws1 name ws2 price ws3 kind ws4 stats rest : str) :
  forallb (fun c => negb (c =? 1055)%N) pre = true ->
  forallb (isspace U) (ws1 ++ ws2 ++ ws3 ++ ws4) = true ->
  starts_solid U name = true ->
  forallb (fun c => negb (c =? pipe)%N) name = true ->
  starts_solid U price = true ->
  forallb (isdecimal U) price = true ->
  starts_solid U kind = true ->
  forallb (isword U) kind = true ->
  starts_solid U stats = true ->
  forallb (fun c => negb (c =? newline)%N) stats = true ->
  ends_line rest = true ->
  isdecimal U pipe = false ->
  isalnum U pipe = false ->
  re_search (purchase_re U)
            (purchase_line pre ws1 name ws2 price ws3 kind ws4 stats rest)
  = Some [name; price; kind; stats].
Proof.
  intros Hpre Hws Hname1 Hname Hprice1 Hprice Hkind1 Hkind Hstats1 Hstats Hrest
         Hdp Hwp.
  rewrite !forallb_app, !andb_true_iff in Hws.
  destruct Hws as (Hws1 & Hws2 & Hws3 & Hws4).
  unfold purchase_line. rewrite re_search_skip by exact Hpre.
  assert (Hm : match_here (purchase_re U)
                 (utf8 "ПОКУПКА:" ++ ws1 ++ name ++ pipe :: ws2 ++ price ++ pipe :: ws3
                       ++ kind ++ pipe :: ws4 ++ stats ++ rest)
               = Some [name; price; kind; stats]).
  { unfold purchase_re. apply match_here_lit_ok.
    apply (match_here_star _ false); [exact Hws1 | | ].
    { now apply (starts_solid_boundary name). }
    apply (match_here_plus _ true);
      [now apply starts_solid_nonempty | exact Hname | | ].
    { right. exists pipe, (ws2 ++ price ++ pipe :: ws3 ++ kind ++ pipe :: ws4 ++ stats ++ rest).
      split; reflexivity. }
    apply (match_here_once _ false); [apply N.eqb_refl|].
    apply (match_here_star _ false); [exact Hws2 | | ].
    { now apply (starts_solid_boundary price). }
    apply (match_here_plus _ true);
      [now apply starts_solid_nonempty | exact Hprice | | ].
    { right. exists pipe, (ws3 ++ kind ++ pipe :: ws4 ++ stats ++ rest).
      split; [reflexivity | exact Hdp]. }
    apply (match_here_once _ false); [apply N.eqb_refl|].
    apply (match_here_star _ false); [exact Hws3 | | ].
    { now apply (starts_solid_boundary kind). }
    apply (match_here_plus _ true);
      [now apply starts_solid_nonempty | exact Hkind | | ].
    { right. exists pipe, (ws4 ++ stats ++ rest).
      split; [reflexivity|]. unfold isword. now rewrite Hwp. }
    apply (match_here_once _ false); [apply N.eqb_refl|].
    apply (match_here_star _ false); [exact Hws4 | | ].
    { now apply (starts_solid_boundary stats). }
    apply (match_here_plus _ true);
      [now apply starts_solid_nonempty | exact Hstats | | reflexivity].
    destruct rest as [|c rest]; [now left|].
    right. exists c, rest. split; [reflexivity|].
    simpl in Hrest. now rewrite Hrest. }
  destruct (utf8 "ПОКУПКА:" ++ _) eqn:E; cbn [re_search]; now rewrite Hm.
Qed.

End PurchaseParserComplete.

Section PurchaseGold.
Context (U : Unicode).

Lemma int_nonneg (s : str) :
  (forall c, isdecimal U c = true -> 0 <= decimal U c) ->
  forallb (isdecimal U) s = true ->
  0 <= int U s.
Proof.
  intros Hdec. unfold int.
  assert (H : forall acc, 0 <= acc -> forallb (isdecimal U) s = true ->
                          0 <= fold_left (fun acc c => 10 * acc + decimal U c) s acc).
  { induction s as [|c s IH]; intros acc Hacc Hs; [exact Hacc|].
    simpl in Hs. apply andb_true_iff in Hs. destruct Hs as [Hc Hs].
    cbn [fold_left]. apply IH; [|exact Hs]. specialize (Hdec c Hc). lia. }
  apply H. lia.
Qed.

(** The price group of a purchase match is a run of decimal digits. *)
Lemma purchase_price_is_digits (text : str) (m : list str) :
  re_search (purchase_re U) text = Some m ->
  forallb (isdecimal U) (group 2 m) = true.
Proof.
  intros H. apply re_search_sound in H. destruct H as (pre & s & -> & H).
  unfold purchase_re in H.
  apply match_here_lit_groups in H. destruct H as (s0 & -> & H).
  apply match_here_cons_groups in H. destruct H as (m1 & s1 & g1 & -> & _ & H & -> & _).
  apply match_here_cons_groups in H. destruct H as (m2 & s2 & g2 & -> & _ & H & -> & _).
  apply match_here_cons_groups in H. destruct H as (m3 & s3 & g3 & -> & _ & H & -> & _).
  apply match_here_cons_groups in H. destruct H as (m4 & s4 & g4 & -> & _ & H & -> & _).
  apply match_here_cons_groups in H.
  destruct H as (m5 & s5 & g5 & -> & Hdigits & _ & -> & _).
  exact Hdigits.
Qed.

(** X19: with digits of non-negative value, [process_action] for a stored
    character always returns, changes nothing of the character but the gold,
    never raises the gold and never makes a non-negative gold negative, and
    leaves the battles untouched. *)
Theorem purchase_never_adds_gold (uid : Z) (action result_text : str) (db : DB)
        (c : Character.t) :
  (forall d, isdecimal U d = true -> 0 <= decimal U d) ->
  character_of db uid = Some c ->
  exists r db' gold',
    process_action U uid action result_text db = (Return r, db') /\
    ActionResult.text r = result_text /\
    character_of db' uid = Some (Character.set_gold gold' c) /\
    gold' <= Character.gold c /\
    (0 <= Character.gold c -> 0 <= gold') /\
    active_battles db' = active_battles db.
Proof.
  intros Hdec Hc.
  pose proof (character_of_key db uid c Hc) as Hkey.
  unfold process_action, bind, get_character, lift. rewrite Hc. cbn [deref].
  destruct (re_search (purchase_re U) result_text) as [m|] eqn:Hm.
  - pose proof (int_nonneg _ Hdec (purchase_price_is_digits result_text m Hm)) as Hp.
    destruct (Z.leb_spec (int U (group 2 m)) (Character.gold c)) as [Hle|Hgt].
    + eexists _, _, (Character.gold c - int U (group 2 m)).
      split; [reflexivity|]. cbn -[Z.sub int].
      split; [reflexivity|]. split; [|split; [lia | split; [lia | reflexivity]]].
      unfold character_of; cbn -[Z.sub int]. rewrite <- Hkey at 1.
      apply (fetchone_upsert_eq Character.user_id
               (Character.set_gold (Character.gold c - int U (group 2 m)) c)).
    + eexists _, _, (Character.gold c).
      split; [reflexivity|]. cbn -[Z.sub int].
      split; [reflexivity|]. split; [|split; [lia | split; [lia | reflexivity]]].
      rewrite Hc. now destruct c.
  - eexists _, _, (Character.gold c).
    split; [reflexivity|]. cbn -[Z.sub int].
    split; [reflexivity|]. split; [|split; [lia | split; [lia | reflexivity]]].
    rewrite Hc. now destruct c.
Qed.

End PurchaseGold.

(* ===================================================================== *)
(** ** The chat handlers *)

Section Handlers.
Context (U : Unicode).

(** With a character in place [process_action] returns; it may add one item
    and rewrite the character, and leaves the battles alone. *)
Lemma process_action_returns (uid : Z) (action result_text : str) (db : DB)
      (c : Character.t) :
  character_of db uid = Some c ->
  exists purchase db1,
    process_action U uid action result_text db
    = (Return (ActionResult.mk result_text (detect_enemy U result_text) purchase), db1) /\
    active_battles db1 = active_battles db /\
    match re_search (purchase_re U) result_text with
    | Some m =>
        let p := int U (group 2 m) in
        if p <=? Character.gold c then
          purchase = Some (PurchaseInfo.mk true (strip U (group 1 m)) p
                                           (Some (Character.gold c - p)) None) /\
          inventory db1
          = inventory db ++ [(uid, new_item U (strip U (group 1 m)) (strip U (group 3 m))
                                            (strip U (group 4 m)))] /\
          character_of db1 uid = Some (Character.set_gold (Character.gold c - p) c)
        else
          purchase = Some (PurchaseInfo.mk false (strip U (group 1 m)) p None
                                           (Some (p - Character.gold c))) /\
          db1 = db
    | None => purchase = None /\ db1 = db
    end.
Proof.
  intros Hc. pose proof (character_of_key db uid c Hc) as Hkey.
  unfold process_action, bind, get_character, lift. rewrite Hc. cbn [deref].
  destruct (re_search (purchase_re U) result_text) as [m|].
  - cbv zeta. destruct (int U (group 2 m) <=? Character.gold c).
    + eexists _, _. split; [reflexivity|]. split; [reflexivity|].
      split; [reflexivity|]. split; [reflexivity|].
      unfold character_of. cbn -[Z.sub int]. rewrite <- Hkey at 1.
      apply (fetchone_upsert_eq Character.user_id (Character.set_gold _ c)).
    + eexists _, _. split; [reflexivity|]. split; [reflexivity|]. split; reflexivity.
  - eexists _, _. split; [reflexivity|]. split; [reflexivity|]. split; reflexivity.
Qed.

Lemma save_keeps_battles (c : Character.t) (db : DB) (k : Z) :
  battle_of (snd (save_character c db)) k = battle_of db k.
Proof. reflexivity. Qed.

(** A message in a scene, with no battle going on: the action is
    processed, the character read before it is saved with the new scene,
    and a battle starts when the text announces an enemy. *)
Lemma scene_message_run (uid : Z) (text : str) (replies : Replies)
      (db : DB) (c : Character.t) :
  battle_of db uid = None ->
  character_of db uid = Some c ->
  truthy (Character.location_state c) = true ->
  let c' := set_location_state (action_reply replies) c in
  let flag := detect_enemy U (action_reply replies) in
  exists purchase db1 battle db',
    process_action U uid text (action_reply replies) db
    = (Return (ActionResult.mk (action_reply replies) flag purchase), db1) /\
    Bot.handle_message U uid text false replies db
    = (Return (false, Acted (ActionResult.mk (action_reply replies) flag purchase) battle),
       db') /\
    character_of db' uid = Some c' /\
    inventory db' = inventory db1 /\
    (flag = false -> battle = None /\ battle_of db' uid = None) /\
    (flag = true ->
     exists e, battle = Some (c', e) /\ battle_of db' uid = Some e /\
               Enemy.hp e = Enemy.max_hp e /\
               Enemy.experience_reward e = 20 * Character.level c /\
               Enemy.gold_reward e = 10 * Character.level c).
Proof.
  intros Hb Hc Ht c' flag.
  pose proof (character_of_key db uid c Hc) as Hkey.
  destruct (process_action_returns uid text (action_reply replies) db c Hc)
    as (purchase & db1 & Hrun & Hbattles & _).
  fold flag in Hrun.
  assert (Hc' : character_of (snd (save_character c' db1)) uid = Some c').
  { rewrite <- Hkey at 1. apply (character_of_save c' db1). }
  assert (Hb' : battle_of (snd (save_character c' db1)) uid = None).
  { unfold battle_of in *. simpl. now rewrite Hbattles. }
  exists purchase, db1.
  unfold Bot.handle_message, bind at 1, get_battle. rewrite Hb.
  unfold bind at 1, get_character. rewrite Hc, Ht.
  unfold bind at 1. rewrite Hrun. cbn [ActionResult.text ActionResult.has_enemy].
  fold c'. unfold bind at 1.
  change (save_character c' db1) with (Return tt, snd (save_character c' db1)).
  cbv iota.
  destruct flag eqn:Hflag.
  - unfold bind at 1, start_battle, bind at 1, get_character. rewrite Hc'.
    unfold bind, lift, save_battle, ret; cbn [deref fst snd].
    eexists _, _. split; [reflexivity|]. split; [reflexivity|].
    split; [exact Hc'|]. split; [reflexivity|]. split; [discriminate|].
    intros _. eexists. split; [reflexivity|].
    split; [|split; [reflexivity | split; reflexivity]].
    unfold battle_of; cbn [active_battles].
    now rewrite (fetchone_upsert_eq fst (uid, _)).
  - unfold ret. eexists _, _. split; [reflexivity|]. split; [reflexivity|].
    split; [exact Hc'|]. split; [reflexivity|]. split; [auto | discriminate].
Qed.

(** X20: a message in a scene with no battle going on: [handle_message]
    stores the character as it read it before the action, with the
    generator's text as the new scene, and a battle with a fresh enemy is
    stored exactly when the text is flagged as an encounter. *)
Theorem scene_message_stores_the_scene (uid : Z) (text : str) (replies : Replies)
        (db : DB) (c : Character.t) :
  battle_of db uid = None ->
  character_of db uid = Some c ->
  truthy (Character.location_state c) = true ->
  let c' := set_location_state (action_reply replies) c in
  exists r battle db',
    Bot.handle_message U uid text false replies db
    = (Return (false, Acted r battle), db') /\
    ActionResult.text r = action_reply replies /\
    ActionResult.has_enemy r = detect_enemy U (action_reply replies) /\
    character_of db' uid = Some c' /\
    (detect_enemy U (action_reply replies) = false ->
     battle = None /\ battle_of db' uid = None) /\
    (detect_enemy U (action_reply replies) = true ->
     exists e, battle = Some (c', e) /\ battle_of db' uid = Some e /\
               Enemy.hp e = Enemy.max_hp e /\
               Enemy.gold_reward e = 10 * Character.level c).
Proof.
  intros Hb Hc Ht c'.
  destruct (scene_message_run uid text replies db c Hb Hc Ht)
    as (purchase & db1 & battle & db' & _ & Hrun & Hc' & _ & Hquiet & Hfight).
  eexists _, battle, db'. split; [exact Hrun|].
  split; [reflexivity|]. split; [reflexivity|]. split; [exact Hc'|].
  split; [exact Hquiet|].
  intros Hflag. destruct (Hfight Hflag) as (e & He & Hbe & Hhp & _ & Hgold).
  exists e. auto.
Qed.

(** X21: when the generator's text offers an item the character can pay,
    [handle_message] reports the purchase with the reduced gold and the item
    is in the inventory, but the stored gold is what it was before: the
    handler saves the character it read before [process_action] over the one
    [process_action] saved. *)
Theorem scene_purchase_keeps_the_gold (uid : Z) (text : str) (replies : Replies)
        (db : DB) (c : Character.t) (m : list str) :
  battle_of db uid = None ->
  character_of db uid = Some c ->
  truthy (Character.location_state c) = true ->
  re_search (purchase_re U) (action_reply replies) = Some m ->
  int U (group 2 m) <= Character.gold c ->
  let p := int U (group 2 m) in
  exists r battle db' c',
    Bot.handle_message U uid text false replies db
    = (Return (false, Acted r battle), db') /\
    ActionResult.purchase r
    = Some (PurchaseInfo.mk true (strip U (group 1 m)) p
                            (Some (Character.gold c - p)) None) /\
    inventory db'
    = inventory db ++ [(uid, new_item U (strip U (group 1 m)) (strip U (group 3 m))
                                      (strip U (group 4 m)))] /\
    character_of db' uid = Some c' /\
    Character.gold c' = Character.gold c.
Proof.
  intros Hb Hc Ht Hm Hp p.
  destruct (scene_message_run uid text replies db c Hb Hc Ht)
    as (purchase & db1 & battle & db' & Hact & Hrun & Hc' & Hinv & _).
  destruct (process_action_returns uid text (action_reply replies) db c Hc)
    as (purchase0 & db0 & Hact0 & _ & Hcase).
  rewrite Hact in Hact0. injection Hact0 as <- <-.
  rewrite Hm in Hcase. cbv zeta in Hcase.
  destruct (Z.leb_spec (int U (group 2 m)) (Character.gold c)) as [_|Hgt]; [|lia].
  destruct Hcase as (Hpurchase & Hitems & _).
  eexists _, battle, db', _. split; [exact Hrun|].
  split; [exact Hpurchase|]. split; [now rewrite Hinv|].
  split; [exact Hc' | reflexivity].
Qed.

(** Arriving at a generated scene for a stored character. *)
Lemma arrive_run (uid : Z) (location_desc : str) (enemy : Reply EnemyJson.t) (db : DB)
      (c : Character.t) :
  character_of db uid = Some c ->
  exists battle db',
    Bot.arrive uid location_desc enemy db = (Return (Arrived location_desc battle), db') /\
    characters db' = characters db /\
    inventory db' = inventory db /\
    (contains (utf8 "ВРАГ:") location_desc = false -> battle = None /\ db' = db) /\
    (contains (utf8 "ВРАГ:") location_desc = true ->
     exists e, battle = Some (c, e) /\ battle_of db' uid = Some e /\
               Enemy.hp e = Enemy.max_hp e /\
               Enemy.gold_reward e = 10 * Character.level c).
Proof.
  intros Hc. unfold Bot.arrive.
  destruct (contains (utf8 "ВРАГ:") location_desc).
  - unfold bind at 1, start_battle, bind at 1, get_character. rewrite Hc.
    unfold bind, lift, save_battle, ret; cbn [deref fst snd].
    eexists _, _. split; [reflexivity|]. split; [reflexivity|]. split; [reflexivity|].
    split; [discriminate|]. intros _. eexists. split; [reflexivity|].
    split; [|split; reflexivity].
    unfold battle_of; cbn [active_battles].
    now rewrite (fetchone_upsert_eq fst (uid, _)).
  - unfold ret. eexists _, _. split; [reflexivity|]. split; [reflexivity|].
    split; [reflexivity|]. split; [auto | discriminate].
Qed.

(** X22: [explore] for a character that has a scene shows it and writes
    nothing; for a character without a scene it stores the generated text as
    the scene, leaves the inventory alone, and starts a battle exactly when
    the text holds the marker "ВРАГ:". *)
Theorem explore_shows_or_generates (uid : Z) (location_desc : str)
        (enemy : Reply EnemyJson.t) (db : DB) (c : Character.t) :
  character_of db uid = Some c ->
  let c' := set_location_state location_desc c in
  (truthy (Character.location_state c) = true ->
   Bot.explore uid location_desc enemy db = (Return (Scene c), db)) /\
  (Character.location_state c = [] ->
   exists battle db',
     Bot.explore uid location_desc enemy db = (Return (Arrived location_desc battle), db') /\
     character_of db' uid = Some c' /\
     inventory db' = inventory db /\
     (contains (utf8 "ВРАГ:") location_desc = false ->
      battle = None /\ active_battles db' = active_battles db) /\
     (contains (utf8 "ВРАГ:") location_desc = true ->
      exists e, battle = Some (c', e) /\ battle_of db' uid = Some e /\
                Enemy.hp e = Enemy.max_hp e /\
                Enemy.gold_reward e = 10 * Character.level c)).
Proof.
  intros Hc c'. pose proof (character_of_key db uid c Hc) as Hkey.
  split.
  - intros Ht. unfold Bot.explore, bind, get_character. now rewrite Hc, Ht.
  - intros Hempty.
    assert (Hc' : character_of (snd (save_character c' db)) uid = Some c').
    { rewrite <- Hkey at 1. apply (character_of_save c' db). }
    destruct (arrive_run uid location_desc enemy _ c' Hc')
      as (battle & db' & Hrun & Hchars & Hinv & Hquiet & Hfight).
    exists battle, db'.
    unfold Bot.explore, bind at 1, get_character. rewrite Hc, Hempty. cbn [truthy].
    fold c'. unfold bind at 1.
    change (save_character c' db) with (Return tt, snd (save_character c' db)).
    cbv iota. split; [exact Hrun|].
    split; [unfold character_of in *; now rewrite Hchars|].
    split; [exact Hinv|]. split.
    + intros Hno. destruct (Hquiet Hno) as (-> & ->). auto.
    + exact Hfight.
Qed.

(** X23: the new-location button stores the generated text as the scene
    of the character, whatever scene it had, leaves the inventory alone, and
    starts a battle exactly when the text holds the marker "ВРАГ:". *)
Theorem new_location_replaces_the_scene (uid : Z) (location_desc : str)
        (enemy : Reply EnemyJson.t) (db : DB) (c : Character.t) :
  character_of db uid = Some c ->
  let c' := set_location_state location_desc c in
  exists battle db',
    Bot.button_callback uid NewLocation location_desc enemy db
    = (Return (Moved (Arrived location_desc battle)), db') /\
    character_of db' uid = Some c' /\
    inventory db' = inventory db /\
    (contains (utf8 "ВРАГ:") location_desc = false ->
     battle = None /\ active_battles db' = active_battles db) /\
    (contains (utf8 "ВРАГ:") location_desc = true ->
     exists e, battle = Some (c', e) /\ battle_of db' uid = Some e /\
               Enemy.hp e = Enemy.max_hp e /\
               Enemy.gold_reward e = 10 * Character.level c).
Proof.
  intros Hc c'. pose proof (character_of_key db uid c Hc) as Hkey.
  set (db1 := snd (save_character (set_location_state [] c) db)).
  assert (Hc' : character_of (snd (save_character c' db1)) uid = Some c').
  { rewrite <- Hkey at 1. apply (character_of_save c' db1). }
  destruct (arrive_run uid location_desc enemy _ c' Hc')
    as (battle & db' & Hrun & Hchars & Hinv & Hquiet & Hfight).
  exists battle, db'.
  unfold Bot.button_callback, bind at 1, get_character. rewrite Hc.
  unfold bind at 1, lift. cbn [deref].
  unfold bind at 1.
  change (save_character (set_location_state [] c) db) with (Return tt, db1).
  cbv iota. unfold bind at 1.
  change (set_location_state location_desc (set_location_state [] c)) with c'.
  change (save_character c' db1) with (Return tt, snd (save_character c' db1)).
  cbv iota. unfold bind at 1. rewrite Hrun. unfold ret.
  split; [reflexivity|].
  split; [unfold character_of in *; now rewrite Hchars|].
  split; [exact Hinv|]. split.
  - intros Hno. destruct (Hquiet Hno) as (-> & ->). auto.
  - exact Hfight.
Qed.

(** X24: every button but the new-location one writes nothing, whether
    it returns or raises, and shows the stored character (with the stored
    items for the inventory button). *)
Theorem other_buttons_only_read (uid : Z) (data : Button) (location_desc : str)
        (enemy : Reply EnemyJson.t) (db : DB) :
  data <> NewLocation ->
  snd (Bot.button_callback uid data location_desc enemy db) = db /\
  forall c,
    character_of db uid = Some c ->
    fst (Bot.button_callback uid data location_desc enemy db)
    = Return (match data with
              | Inventory => Items c (inventory_of db uid)
              | Stats => Sheet c
              | _ => Place c
              end).
Proof.
  intros Hdata. unfold Bot.button_callback, bind, get_character, get_inventory, lift.
  destruct data; try contradiction;
    (split; [destruct (character_of db uid); reflexivity|]);
    intros c Hc; now rewrite Hc.
Qed.

(** X25: [handle_message] takes a message as the character's name while a
    name is awaited, hands it to [process_attack] alone while a battle is
    stored (the scene is not consulted), and answers with the hint, writing
    nothing, when there is neither a battle nor a character with a scene. *)
Theorem message_routing (uid : Z) (text : str) (replies : Replies) (db : DB) :
  (forall name,
      exists db',
        Bot.handle_message U uid name true replies db
        = (Return (false, Created (Character.default uid name)), db') /\
        db' = snd (create_character uid name db)) /\
  (forall e,
      battle_of db uid = Some e ->
      snd (Bot.handle_message U uid text false replies db)
      = snd (process_attack U uid text (judge_reply replies) db) /\
      fst (Bot.handle_message U uid text false replies db)
      = match fst (process_attack U uid text (judge_reply replies) db) with
        | Return r => Return (false, Attacked r)
        | Raise x => Raise x
        end) /\
  (battle_of db uid = None ->
   (character_of db uid = None \/
    exists c, character_of db uid = Some c /\ Character.location_state c = []) ->
   Bot.handle_message U uid text false replies db = (Return (false, Hinted), db)).
Proof.
  split; [|split].
  - intros name. eexists. split; reflexivity.
  - intros e He.
    assert (Hrun : Bot.handle_message U uid text false replies db
                   = let (o, db') := process_attack U uid text (judge_reply replies) db in
                     (match o with
                      | Return r => Return (false, Attacked r)
                      | Raise x => Raise x
                      end, db')).
    { unfold Bot.handle_message, bind at 1, get_battle. rewrite He. unfold bind.
      now destruct (process_attack U uid text (judge_reply replies) db) as [[r|x] db']. }
    rewrite Hrun.
    destruct (process_attack U uid text (judge_reply replies) db) as [[r|x] db'];
      split; reflexivity.
  - intros Hb Hc. unfold Bot.handle_message, bind, get_battle, get_character.
    rewrite Hb. destruct Hc as [->|(c & -> & ->)]; reflexivity.
Qed.

End Handlers.

(* ===================================================================== *)
(** ** How battles end *)

Section BattleEnds.
Context (U : Unicode).

Lemma no_battle_no_attack (uid : Z) (action : str) (reply : Reply Judgement.t) (db : DB) :
  battle_of db uid = None ->
  process_attack U uid action reply db = (Return (Error (utf8 "Нет активного боя")), db).
Proof.
  intros He. unfold process_attack, bind, get_character, get_battle. now rewrite He.
Qed.

(** One attack with a judged damage: either the battle is over, or it goes
    on against the same enemy with [d] hit points less and a character that
    differs only in its hit points. *)
Lemma attack_step (uid : Z) (action : str) (reply : Reply Judgement.t) (db : DB)
      (c : Character.t) (e : Enemy.t) (j : Judgement.t) (d : Z) (desc : str) :
  character_of db uid = Some c ->
  battle_of db uid = Some e ->
  AIGenerator.calculate_damage U action c e reply = Return j ->
  Judgement.damage j = Some d ->
  Judgement.description j = Some desc ->
  exists r db',
    process_attack U uid action reply db = (Return (Report r), db') /\
    ((Enemy.hp e - d <= 0
      \/ Character.hp c - Z.max 1 (Enemy.damage e - Character.armor c) <= 0) ->
     battle_of db' uid = None) /\
    (0 < Enemy.hp e - d ->
     0 < Character.hp c - Z.max 1 (Enemy.damage e - Character.armor c) ->
     battle_of db' uid = Some (Enemy.set_hp (Enemy.hp e - d) e) /\
     character_of db' uid
     = Some (Character.set_hp
               (Character.hp c - Z.max 1 (Enemy.damage e - Character.armor c)) c)).
Proof.
  intros Hc He Hj Hd Hdesc.
  rewrite (process_attack_judged U uid action reply db c e j d desc Hc He Hj Hd Hdesc).
  pose proof (character_of_key db uid c Hc) as Hkey.
  cbv zeta.
  destruct (Z.leb_spec (Enemy.hp e - d) 0) as [Hwin|Hon].
  - unfold victory, bind, ret. cbn -[Z.add Z.sub Z.mul Z.leb Z.max].
    eexists _, _. split; [reflexivity|]. split; [|intros; lia].
    intros _. unfold battle_of. cbn [active_battles].
    now rewrite fetchone_delete_eq.
  - unfold counterattack, bind, ret. cbn -[Z.add Z.sub Z.mul Z.leb Z.max Z.div].
    set (ed := Z.max 1 (Enemy.damage e - Character.armor c)).
    destruct (Z.leb_spec (Character.hp c - ed) 0) as [Hdown|Hup];
      cbn -[Z.add Z.sub Z.mul Z.leb Z.max Z.div].
    + eexists _, _. split; [reflexivity|]. split; [|intros; lia].
      intros _. unfold battle_of. cbn [active_battles].
      now rewrite fetchone_delete_eq.
    + eexists _, _. split; [reflexivity|]. split; [intros [?|?]; lia|].
      intros _ _. split.
      * unfold battle_of. cbn [active_battles].
        now rewrite (fetchone_upsert_eq fst (uid, Enemy.set_hp (Enemy.hp e - d) e)).
      * unfold character_of. cbn [characters]. rewrite <- Hkey at 1.
        apply (fetchone_upsert_eq Character.user_id (Character.set_hp _ c)).
Qed.

(** X26: an attack that defeats the enemy or the character clears the
    battle, and every further attack of the player reports that no battle is
    active and writes nothing. *)
Theorem battle_ends_for_good (uid : Z) (action : str) (reply : Reply Judgement.t)
        (db : DB) (c : Character.t) (e : Enemy.t) (j : Judgement.t) (d : Z) (desc : str) :
  character_of db uid = Some c ->
  battle_of db uid = Some e ->
  AIGenerator.calculate_damage U action c e reply = Return j ->
  Judgement.damage j = Some d ->
  Judgement.description j = Some desc ->
  Enemy.hp e - d <= 0
  \/ Character.hp c - Z.max 1 (Enemy.damage e - Character.armor c) <= 0 ->
  exists r db',
    process_attack U uid action reply db = (Return (Report r), db') /\
    battle_of db' uid = None /\
    forall action' reply',
      process_attack U uid action' reply' db'
      = (Return (Error (utf8 "Нет активного боя")), db').
Proof.
  intros Hc He Hj Hd Hdesc Hend.
  destruct (attack_step uid action reply db c e j d desc Hc He Hj Hd Hdesc)
    as (r & db' & Hrun & Hover & _).
  exists r, db'. split; [exact Hrun|]. split; [auto|].
  intros. apply no_battle_no_attack. auto.
Qed.

Lemma fight_without_battle (uid : Z) (actions : list str) (db : DB) :
  battle_of db uid = None -> fight U uid actions db = db.
Proof.
  intros Hb. unfold fight. induction actions as [|a rest IH]; [reflexivity|].
  cbn [fold_left]. now rewrite no_battle_no_attack.
Qed.

(** X27: under the fallback judgement a battle is over after at most
    [max(1, enemy.hp)] attacks, for a character with
    [0 <= strength + agility // 2 <= 255] and an enemy armor between 0 and
    255: each attack takes at least one hit point off the enemy. *)
Theorem fallback_fight_terminates (uid : Z) (actions : list str) (db : DB)
        (c : Character.t) (e : Enemy.t) :
  character_of db uid = Some c ->
  battle_of db uid = Some e ->
  0 <= Character.strength c + Character.agility c / 2 <= 255 ->
  0 <= Enemy.armor e <= 255 ->
  Z.max 1 (Enemy.hp e) <= Z.of_nat (List.length actions) ->
  battle_of (fight U uid actions db) uid = None.
Proof.
  revert db c e. induction actions as [|a rest IH]; intros db c e Hc He Hbase Harmor Hlen.
  - simpl in Hlen. lia.
  - set (critical := AIGenerator.is_critical U a).
    set (d := Z.max 1 (Z.quot ((if critical then 15 else 10)
                               * (Character.strength c + Character.agility c / 2)
                               - 3 * Enemy.armor e) 10)).
    assert (Hj : AIGenerator.calculate_damage U a c e NoObject
                 = Return (Judgement.mk (Some d) (Some critical)
                                        (Some (utf8 "Удар достигает цели!")))).
    { unfold AIGenerator.calculate_damage. fold critical.
      now rewrite (fallback_damage_exact _ (Enemy.armor e) critical Hbase Harmor). }
    destruct (attack_step uid a NoObject db c e _ d _ Hc He Hj eq_refl eq_refl)
      as (r & db' & Hrun & Hover & Hon).
    unfold fight. cbn [fold_left]. rewrite Hrun. cbn [snd]. fold (fight U uid rest db').
    destruct (Z.leb_spec (Enemy.hp e - d) 0) as [Hwin|Hlive].
    { rewrite fight_without_battle; auto. }
    destruct (Z.leb_spec
                (Character.hp c - Z.max 1 (Enemy.damage e - Character.armor c)) 0)
      as [Hdown|Hup].
    { rewrite fight_without_battle; auto. }
    destruct (Hon Hlive Hup) as (He' & Hc').
    apply (IH db' _ _ Hc' He'); [exact Hbase | exact Harmor|].
    cbn [Enemy.hp Enemy.set_hp]. simpl List.length in Hlen.
    subst d. lia.
Qed.

End BattleEnds.

(* ===================================================================== *)
(** ** Concrete runs of the properties above *)

Lemma save_then_get_character_witness :
  fst (get_character 7 (snd (save_character Sample.bob Sample.arena)))
  = Return (Some Sample.bob).
Proof.
  destruct (save_then_get_character Sample.bob Sample.arena 8) as (Hget & _).
  - reflexivity.
  - simpl. lia.
  - change (Character.user_id Sample.bob) with 7 in Hget. now rewrite Hget.
Defined.

Lemma save_get_clear_battle_witness :
  fst (get_battle 7 (snd (save_battle 7 Sample.guard Sample.arena)))
  = Return (Some Sample.guard).
Proof.
  destruct (save_get_clear_battle 7 Sample.veteran Sample.guard Sample.arena 8)
    as (Hget & _).
  - reflexivity.
  - lia.
  - now rewrite Hget.
Defined.


Lemma requests_leave_other_players_alone_witness :
  character_of (after Basic.table 7 (ProcessAttack [] (Sample.hit 70)) Scenes.two_players) 8
  = Some Scenes.ann /\
  inventory_of (after Basic.table 7 (ProcessAttack [] (Sample.hit 70)) Scenes.two_players) 8
  = [Sample.iron_sword].
Proof.
  destruct (requests_leave_other_players_alone Basic.table 7 8
              (ProcessAttack [] (Sample.hit 70)) Scenes.two_players)
    as (Hc & _ & Hi).
  - lia.
  - split; [exact Hc | exact Hi].
Defined.

Lemma requests_keep_well_formed_witness :
  well_formed (after Basic.table 7 (CreateCharacter (utf8 "Bob")) empty_db).
Proof.
  apply (requests_keep_well_formed Basic.table 7 (CreateCharacter (utf8 "Bob")) empty_db).
  apply empty_db_well_formed.
Defined.

Lemma missing_character_raises_witness :
  start_battle 7 NoObject empty_db = (Raise AttributeError, empty_db) /\
  Bot.explore 7 Scenes.ambush NoObject empty_db = (Return NoCharacter, empty_db).
Proof.
  destruct (missing_character_raises Basic.table 7 empty_db eq_refl)
    as (_ & Hstart & _ & _ & Hexplore).
  split; [apply Hstart | apply Hexplore].
Defined.

Lemma judgement_without_key_raises_witness :
  process_attack Basic.table 7 [] (Decoded Scenes.vague) Sample.arena
  = (Raise KeyError, Sample.arena).
Proof.
  apply (judgement_without_key_raises Basic.table 7 [] Scenes.vague Sample.arena
                                      Sample.veteran Sample.wolf).
  - reflexivity.
  - reflexivity.
  - left; reflexivity.
Defined.

Lemma fallback_judgement_is_complete_witness :
  exists d,
    Some 13 = Some d /\ 1 <= d /\
    Some false = Some (AIGenerator.is_critical Basic.table Sample.plain_action) /\
    Some (utf8 "Удар достигает цели!") = Some (utf8 "Удар достигает цели!").
Proof.
  apply (fallback_judgement_is_complete Basic.table Sample.plain_action Sample.bob
           Sample.guard NoObject
           (Judgement.mk (Some 13) (Some false) (Some (utf8 "Удар достигает цели!")))).
  - left; reflexivity.
  - vm_compute. reflexivity.
Defined.

Lemma fallback_enemy_scales_with_level_witness :
  EnemyData.hp (AIGenerator.generate_enemy 5 [] NoObject)
  - EnemyData.hp (AIGenerator.generate_enemy 1 [] NoObject) = 80.
Proof.
  destruct (fallback_enemy_scales_with_level 1 5 [] [] NoObject) as (_ & _ & _ & _ & H).
  - lia.
  - destruct H as (Hhp & _); [now left|]. exact Hhp.
Defined.

Lemma start_battle_sets_a_fresh_enemy_witness :
  exists e db',
    start_battle 7 NoObject Sample.village = (Return (Sample.bob, e), db') /\
    Enemy.hp e = Enemy.max_hp e /\ e = Sample.wolf.
Proof.
  destruct (start_battle_sets_a_fresh_enemy 7 NoObject Sample.village Sample.bob eq_refl)
    as (e & db' & Hrun & Hhp & _ & _ & Hwolf & _).
  exists e, db'. split; [exact Hrun|]. split; [exact Hhp|].
  rewrite Hwolf; [reflexivity | now left].
Defined.


Lemma purchase_line_parses_witness :
  re_search (purchase_re Basic.table)
            (purchase_line Scenes.report_head (utf8 " ") (utf8 "Iron Sword ") (utf8 " ")
                           (utf8 "30") (utf8 " ") (utf8 "weapon") (utf8 " ")
                           (utf8 "damage 8") Scenes.report_tail)
  = Some [utf8 "Iron Sword "; utf8 "30"; utf8 "weapon"; utf8 "damage 8"].
Proof.
  apply (purchase_line_parses Basic.table); reflexivity.
Defined.

Lemma basic_decimal_nonneg (d : codepoint) :
  isdecimal Basic.table d = true -> 0 <= decimal Basic.table d.
Proof.
  unfold Basic.table, isdecimal, decimal, Basic.isdecimal_cp, Basic.decimal_cp.
  destruct (Basic.digit_zero d) as [zero|] eqn:E; [intros _|discriminate].
  apply find_some in E. destruct E as [_ E]. unfold Basic.in_range in E.
  rewrite andb_true_iff, !N.leb_le in E. lia.
Qed.

Lemma purchase_never_adds_gold_witness :
  exists r db' gold',
    process_action Basic.table 7 [] Sample.offer Sample.rich = (Return r, db') /\
    character_of db' 7 = Some (Character.set_gold gold' (Character.set_gold 60 Sample.bob)) /\
    gold' <= 60.
Proof.
  destruct (purchase_never_adds_gold Basic.table 7 [] Sample.offer Sample.rich
              (Character.set_gold 60 Sample.bob) basic_decimal_nonneg eq_refl)
    as (r & db' & gold' & Hrun & _ & Hc & Hle & _).
  exists r, db', gold'. split; [exact Hrun|]. split; [exact Hc | exact Hle].
Defined.

Lemma scene_message_stores_the_scene_witness :
  exists r battle db',
    Bot.handle_message Basic.table 7 (utf8 "жду") false Scenes.ambush_replies Scenes.camp
    = (Return (false, Acted r battle), db') /\
    character_of db' 7
    = Some (set_location_state (action_reply Scenes.ambush_replies) Scenes.camper) /\
    exists e, battle_of db' 7 = Some e.
Proof.
  destruct (scene_message_stores_the_scene Basic.table 7 (utf8 "жду") Scenes.ambush_replies
              Scenes.camp Scenes.camper eq_refl eq_refl eq_refl)
    as (r & battle & db' & Hrun & _ & _ & Hc & _ & Hfight).
  exists r, battle, db'. split; [exact Hrun|]. split; [exact Hc|].
  destruct Hfight as (e & _ & He & _); [vm_compute; reflexivity|].
  now exists e.
Defined.

Lemma scene_purchase_keeps_the_gold_witness :
  exists r battle db' c',
    Bot.handle_message Basic.table 7 (utf8 "куплю меч") false Scenes.shop_replies Scenes.camp
    = (Return (false, Acted r battle), db') /\
    ActionResult.purchase r
    = Some (PurchaseInfo.mk true (utf8 "Iron Sword") 30 (Some 30) None) /\
    inventory db' = [(7, Sample.iron_sword)] /\
    character_of db' 7 = Some c' /\
    Character.gold c' = 60.
Proof.
  destruct (scene_purchase_keeps_the_gold Basic.table 7 (utf8 "куплю меч")
              Scenes.shop_replies Scenes.camp Scenes.camper
              [utf8 "Iron Sword "; utf8 "30"; utf8 "weapon"; utf8 "damage 8"]
              eq_refl eq_refl eq_refl)
    as (r & battle & db' & c' & Hrun & Hp & Hinv & Hc & Hgold).
  - vm_compute. reflexivity.
  - vm_compute. discriminate.
  - exists r, battle, db', c'. split; [exact Hrun|]. split; [exact Hp|].
    split; [exact Hinv|]. split; [exact Hc | exact Hgold].
Defined.

Lemma explore_shows_or_generates_witness :
  Bot.explore 7 Scenes.ambush NoObject Scenes.camp = (Return (Scene Scenes.camper), Scenes.camp).
Proof.
  destruct (explore_shows_or_generates 7 Scenes.ambush NoObject Scenes.camp Scenes.camper
              eq_refl) as (Hshow & _).
  apply Hshow. reflexivity.
Defined.

Lemma new_location_replaces_the_scene_witness :
  exists battle db',
    Bot.button_callback 7 NewLocation Scenes.ambush NoObject Scenes.camp
    = (Return (Moved (Arrived Scenes.ambush battle)), db') /\
    character_of db' 7 = Some (set_location_state Scenes.ambush Scenes.camper).
Proof.
  destruct (new_location_replaces_the_scene 7 Scenes.ambush NoObject Scenes.camp
              Scenes.camper eq_refl) as (battle & db' & Hrun & Hc & _).
  exists battle, db'. split; [exact Hrun | exact Hc].
Defined.

Lemma other_buttons_only_read_witness :
  snd (Bot.button_callback 7 Inventory [] NoObject Sample.village) = Sample.village /\
  fst (Bot.button_callback 7 Inventory [] NoObject Sample.village)
  = Return (Items Sample.bob starter_items).
Proof.
  destruct (other_buttons_only_read 7 Inventory [] NoObject Sample.village)
    as (Hdb & Hshown).
  - discriminate.
  - split; [exact Hdb | apply Hshown; reflexivity].
Defined.

Lemma battle_ends_for_good_witness :
  exists r db',
    process_attack Basic.table 7 [] (Sample.hit 70) Sample.arena = (Return (Report r), db') /\
    battle_of db' 7 = None /\
    process_attack Basic.table 7 [] (Sample.hit 70) db'
    = (Return (Error (utf8 "Нет активного боя")), db').
Proof.
  destruct (battle_ends_for_good Basic.table 7 [] (Sample.hit 70) Sample.arena
              Sample.veteran Sample.wolf _ 70 (utf8 "hit")
              eq_refl eq_refl eq_refl eq_refl eq_refl)
    as (r & db' & Hrun & Hb & Hnext).
  - left. simpl. lia.
  - exists r, db'. split; [exact Hrun|]. split; [exact Hb | apply Hnext].
Defined.

Lemma fallback_fight_terminates_witness :
  battle_of (fight Basic.table 7 (repeat Sample.plain_action 70) Sample.arena) 7 = None.
Proof.
  apply (fallback_fight_terminates Basic.table 7 (repeat Sample.plain_action 70)
                                   Sample.arena Sample.veteran Sample.wolf).
  - reflexivity.
  - reflexivity.
  - vm_compute. split; discriminate.
  - vm_compute. split; discriminate.
  - vm_compute. discriminate.
Defined.

Lemma silence_has_no_bar : ~ digit_before_bar Basic.table Scenes.silence.
Proof.
  intros (pre & d & post & Htext & _).
  assert (Hin : In pipe Scenes.silence).
  { rewrite Htext. apply in_or_app. right. right. now left. }
  vm_compute in Hin. intuition discriminate.
Qed.

Lemma no_offer_without_digit_before_bar_witness :
  process_action Basic.table 7 [] Scenes.silence Sample.village
  = (Return (ActionResult.mk Scenes.silence
               (detect_enemy Basic.table Scenes.silence) None),
     Sample.village).
Proof.
  apply (no_offer_without_digit_before_bar Basic.table 7 [] Scenes.silence Sample.village
                                           Sample.bob).
  - reflexivity.
  - exact silence_has_no_bar.
Defined.

Lemma first_integer_run_witness :
  first_integer Basic.table (utf8 "damage " ++ utf8 "8" ++ utf8 ", armor 2") = Some 8.
Proof.
  apply (first_integer_run Basic.table (utf8 "damage ") (utf8 "8") (utf8 ", armor 2")).
  - reflexivity.
  - discriminate.
  - reflexivity.
  - right. exists 44%N, (utf8 " armor 2"). split; reflexivity.
Defined.
